(** * Leaps-and-Bounds / Structured Procrastination: the simulated
      environment and the two selectors, embedded in Rocq.

    Python numbers are modelled by exact arithmetic: real-valued quantities
    (timeouts, runtimes, thresholds; floats in the source) are rationals
    [Q], counters and indices are integers [Z], so rounding and overflow
    are outside the model.  In [structured_procrastination] the numpy
    values whose infinities and NaN decide the control flow (the logarithm
    of a non-positive number, the division by a zero counter) are
    [float64]: a rational, an infinity or NaN.  In the estimator the one
    NaN, the mean of an empty list, stops the model with [FloatNaN].
    Exceptions are explicit: every
    stateful operation returns the state it leaves behind together with
    either a value or the exception it raised.  Unbounded loops take a
    [fuel] argument; [print] statements are left out. *)

From Stdlib Require Import ZArith QArith Qround Qminmax Qpower Lqa Lia List Bool.
From stdpp Require Import base option list gmap.
Import ListNotations.

Local Open Scope Z_scope.

(** ** Python-level preliminaries *)

(** The exceptions the three source files can raise. *)
Inductive exn : Type :=
| ValueError
| IndexError
| ZeroDivisionError
| UnboundLocalError
| OverflowError
| FloatNaN   (* no exception in Python: a NaN result, outside exact arithmetic *)
| OutOfFuel. (* no exception in Python: the iteration bound of the model *)

Inductive outcome (A : Type) : Type :=
| Ok (a : A)
| Raise (e : exn).
Arguments Ok {A} a.
Arguments Raise {A} e.

(** Stateful, fallible computations over a state [S]: the state is returned
    in both cases, since a Python exception does not roll anything back. *)
Definition M (S A : Type) : Type := S -> S * outcome A.

Definition ret {S A} (a : A) : M S A := fun s => (s, Ok a).
Definition raise {S A} (e : exn) : M S A := fun s => (s, Raise e).
Definition bind {S A B} (m : M S A) (f : A -> M S B) : M S B :=
  fun s => match m s with
           | (s', Ok a) => f a s'
           | (s', Raise e) => (s', Raise e)
           end.
Definition lift_opt {S A} (e : exn) (o : option A) : M S A :=
  match o with Some a => ret a | None => raise e end.

Declare Scope py_scope.
Delimit Scope py_scope with py.
Notation "x <-- m ;; k" := (bind m (fun x => k))
  (at level 100, m at next level, right associativity) : py_scope.

(** [a < b] and [a == b] on numbers, as booleans. *)
Definition Qltb (a b : Q) : bool := negb (Qle_bool b a).
Definition Qeqb (a b : Q) : bool := Qeq_bool a b.

(** [l[i]] on a Python list: negative indices count from the end, anything
    outside [-len, len) raises IndexError (here: [None]). *)
Definition py_index {A} (l : list A) (i : Z) : option A :=
  let n := Z.of_nat (length l) in
  if (0 <=? i) && (i <? n) then l !! Z.to_nat i
  else if (- n <=? i) && (i <? 0) then l !! Z.to_nat (n + i)
  else None.

(** [l[i] = x] on a Python list, same index discipline. *)
Definition py_store {A} (l : list A) (i : Z) (x : A) : option (list A) :=
  let n := Z.of_nat (length l) in
  if (0 <=? i) && (i <? n) then Some (<[Z.to_nat i := x]> l)
  else if (- n <=? i) && (i <? 0) then Some (<[Z.to_nat (n + i) := x]> l)
  else None.

(** [collections.defaultdict(float)]: a missing key reads as [0.0]. *)
Definition dd_get (m : gmap Z Q) (k : Z) : Q := default 0%Q (m !! k).

(** [defaultdict(lambda: defaultdict(float))], read and written at [d[c][i]]. *)
Definition dd2_get (m : gmap Z (gmap Z Q)) (c i : Z) : Q :=
  dd_get (default ∅ (m !! c)) i.
Definition dd2_set (m : gmap Z (gmap Z Q)) (c i : Z) (v : Q)
  : gmap Z (gmap Z Q) :=
  <[c := <[i := v]> (default ∅ (m !! c))]> m.

(** ** simulated_environment.py *)

Record Environment : Type := mkEnvironment {
  _timeout : Q;
  _results : list (list Q);
  _instance_count : Z;
  _total_runtime : Q;
  _total_resumed_runtime : Q;
  _runtime_per_config : gmap Z Q;
  _ran_so_far : gmap Z (gmap Z Q)
}.

(** [Environment.reset] *)
Definition reset (env : Environment) : Environment :=
  {| _timeout := _timeout env;
     _results := _results env;
     _instance_count := _instance_count env;
     _total_runtime := 0;
     _total_resumed_runtime := 0;
     _runtime_per_config := ∅;
     _ran_so_far := ∅ |}.

(** [Environment.__init__], after the measurements were unpickled and sorted
    by key: [len(self._results[0])] raises IndexError on an empty table. *)
Definition init (results : list (list Q)) (timeout : Q) : option Environment :=
  match results with
  | [] => None
  | row0 :: _ =>
      Some (reset {| _timeout := timeout;
                     _results := results;
                     _instance_count := Z.of_nat (length row0);
                     _total_runtime := 0;
                     _total_resumed_runtime := 0;
                     _runtime_per_config := ∅;
                     _ran_so_far := ∅ |})
  end.

Definition get_num_configs (env : Environment) : Z :=
  Z.of_nat (length (_results env)).
Definition get_num_instances (env : Environment) : Z := _instance_count env.
Definition get_total_runtime (env : Environment) : Q := _total_runtime env.
Definition get_total_resumed_runtime (env : Environment) : Q :=
  _total_resumed_runtime env.

(** The lookup [self._results[config_id][instance_id % self._instance_count]]
    with the exceptions it can raise, in evaluation order. *)
Definition ground_truth (env : Environment) (config_id instance_id : Z)
  : outcome Q :=
  match py_index (_results env) config_id with
  | None => Raise IndexError
  | Some row =>
      if _instance_count env =? 0 then Raise ZeroDivisionError
      else match py_index row (instance_id mod _instance_count env) with
           | None => Raise IndexError
           | Some truth => Ok truth
           end
  end.

(** [Environment.run] with an explicit [instance_id] (the random choice made
    when [instance_id] is [None] is not modelled). *)
Definition run (config_id : Z) (timeout : Q) (instance_id : Z)
  : M Environment (bool * Q) := fun env =>
  if Qltb (_timeout env) timeout then (env, Raise ValueError)
  else match ground_truth env config_id instance_id with
  | Raise e => (env, Raise e)
  | Ok truth =>
      let runtime := Qmin timeout truth in
      let total_runtime := (_total_runtime env + runtime)%Q in
      let resumed_runtime :=
        (runtime - dd2_get (_ran_so_far env) config_id instance_id)%Q in
      let runtime_per_config :=
        <[config_id :=
            (dd_get (_runtime_per_config env) config_id + resumed_runtime)%Q]>
          (_runtime_per_config env) in
      let ran_so_far :=
        dd2_set (_ran_so_far env) config_id instance_id runtime in
      let total_resumed_runtime :=
        (_total_resumed_runtime env + resumed_runtime)%Q in
      ({| _timeout := _timeout env;
          _results := _results env;
          _instance_count := _instance_count env;
          _total_runtime := total_runtime;
          _total_resumed_runtime := total_resumed_runtime;
          _runtime_per_config := runtime_per_config;
          _ran_so_far := ran_so_far |},
       Ok (Qle_bool timeout truth, runtime))
  end.

(** A sequence of [run] calls; it stops at the first exception. *)
Definition call : Type := (Z * Q * Z)%type.
Definition call_key (c : call) : Z * Z := (fst (fst c), snd c).
Definition call_timeout (c : call) : Q := snd (fst c).

Fixpoint run_calls (cs : list call) : M Environment unit :=
  match cs with
  | [] => ret tt
  | (config_id, timeout, instance_id) :: rest =>
      (_ <-- run config_id timeout instance_id ;; run_calls rest)%py
  end.

(** The scenario dataset of the specification: three configurations, five
    instances, measurement ceiling 20. *)
Definition scenario_results : list (list Q) :=
  [ [1; 1; 1; 1; 1]; [10; 10; 10; 10; 10]; [5; 5; 5; 5; 5] ]%Q.

Definition scenario_env : Environment :=
  {| _timeout := 20;
     _results := scenario_results;
     _instance_count := 5;
     _total_runtime := 0;
     _total_resumed_runtime := 0;
     _runtime_per_config := ∅;
     _ran_so_far := ∅ |}.

(** The monotonicity reading of the two counters: along the call sequence
    [cs] issued on the freshly reset ledger, no successful call lowers
    total_runtime or total_resumed_runtime. *)
Definition counters_never_decrease (env0 : Environment) (cs : list call)
  : Prop :=
  forall pre c t i post env env' r,
    cs = pre ++ (c, t, i) :: post ->
    run_calls pre (reset env0) = (env, Ok tt) ->
    run c t i env = (env', Ok r) ->
    (_total_runtime env <= _total_runtime env')%Q /\
    (_total_resumed_runtime env <= _total_resumed_runtime env')%Q.

(** "Some pair is queried again with a larger timeout than before": a call
    whose timeout exceeds that of an earlier call of the same
    (configuration, instance) pair. *)
Definition same_pair (a b : call) : bool :=
  (fst (fst a) =? fst (fst b)) && (snd a =? snd b).

Fixpoint larger_retry (seen cs : list call) : bool :=
  match cs with
  | [] => false
  | cl :: rest =>
      existsb (fun p => same_pair p cl
                        && Qltb (call_timeout p) (call_timeout cl)) seen
      || larger_retry (cl :: seen) rest
  end.

(** The accounting statement as the specification words it, for the call
    sequence [cs] issued on the freshly reset ledger. *)
Definition accounting_as_specified (env0 : Environment) (cs : list call)
  : Prop :=
  forall env',
    run_calls cs (reset env0) = (env', Ok tt) ->
    (_total_resumed_runtime env' <= _total_runtime env')%Q /\
    ((_total_resumed_runtime env' == _total_runtime env')%Q <->
     larger_retry [] cs = false).

(** Data conditions used below. *)
Definition results_all (P : Q -> Prop) (env : Environment) : Prop :=
  Forall (Forall P) (_results env).
Definition timeouts_all (P : Q -> Prop) (cs : list call) : Prop :=
  Forall (fun cl => P (call_timeout cl)) cs.

(** The bookkeeping invariant of the ledger after the calls with keys
    [hist], for positive timeouts and ground truths. *)
Definition ledger_inv (env : Environment) (hist : list (Z * Z)) : Prop :=
  (forall c i, (c, i) ∈ hist -> (0 < dd2_get (_ran_so_far env) c i)%Q) /\
  (forall c i, (c, i) ∉ hist -> (dd2_get (_ran_so_far env) c i == 0)%Q) /\
  (NoDup hist -> (_total_resumed_runtime env == _total_runtime env)%Q) /\
  (~ NoDup hist -> (_total_resumed_runtime env < _total_runtime env)%Q).

(** Two call sequences on the scenario dataset, used as test inputs. *)
Definition calls_two_pairs : list call := [(1, 5%Q, 0); (0, 7%Q, 3)].
Definition calls_other_pairs : list call := [(0, 1%Q, 0); (1, 9%Q, 1)].

(** ** Numerical primitives shared by the selectors *)

(** The transcendental functions of numpy and math are not rational; the
    selectors are defined over any implementation of them. *)
Class Numerics : Type := {
  np_log : Q -> Q;        (* np.log, math.log on its domain *)
  np_log2 : Q -> Q;       (* np.log2 *)
  np_sqrt : Q -> Q;       (* np.sqrt *)
  pow_real : Q -> Q -> Q  (* x ** y with a fractional exponent *)
}.

(** A coarse, computable instance used to run the selectors on test data:
    logarithms from the bit length, square roots from the integer square
    root of the argument scaled by 10^4. *)
Definition coarse_log2 (x : Q) : Q := inject_Z (Z.log2 (Qfloor x)).
Definition coarse_numerics : Numerics :=
  {| np_log := fun x => (7 # 10) * coarse_log2 x;
     np_log2 := coarse_log2;
     np_sqrt := fun x => inject_Z (Z.sqrt (Qfloor (x * 10000))) / 100;
     pow_real := fun x y => Qpower x (Qfloor y) |}%Q.

(** A second instance with constant logarithms, under which the sample
    bounds of the selectors are a handful of runs. *)
Definition flat_numerics : Numerics :=
  {| np_log := fun _ => (1 # 44)%Q;
     np_log2 := fun _ => 1%Q;
     np_sqrt := fun x => x;
     pow_real := fun x _ => x |}.

(** Python-float division: a zero divisor raises ZeroDivisionError. *)
Definition py_div {S} (a b : Q) : M S Q :=
  if Qeqb b 0 then raise ZeroDivisionError else ret (a / b)%Q.

(** [math.log]: a non-positive argument raises ValueError. *)
Definition math_log `{Numerics} {S} (a : Q) : M S Q :=
  if Qle_bool a 0 then raise ValueError else ret (np_log a).

(** [xrange(n)] *)
Definition xrange (n : Z) : list Z := map Z.of_nat (seq 0 (Z.to_nat n)).

(** [np.mean] of a list; the empty list yields NaN. *)
Definition sumQ (l : list Q) : Q := fold_left Qplus l 0%Q.
Definition np_mean {S} (l : list Q) : M S Q :=
  match l with
  | [] => raise FloatNaN
  | _ => ret (sumQ l / inject_Z (Z.of_nat (length l)))%Q
  end.

(** [np.min], [np.argmin], [np.argmax]: the extremum and the first index
    where it is attained; [None] on the empty list (ValueError). *)
Fixpoint first_extremum (better : Q -> Q -> bool) (l : list Q)
    (idx best_idx : Z) (best : Q) : Z * Q :=
  match l with
  | [] => (best_idx, best)
  | a :: rest =>
      if better a best
      then first_extremum better rest (idx + 1) idx a
      else first_extremum better rest (idx + 1) best_idx best
  end.

Definition np_argmin (l : list Q) : option Z :=
  match l with
  | [] => None
  | a :: rest => Some (fst (first_extremum Qltb rest 1 0 a))
  end.
Definition np_min (l : list Q) : option Q :=
  match l with
  | [] => None
  | a :: rest => Some (snd (first_extremum Qltb rest 1 0 a))
  end.
Definition np_argmax (l : list Q) : option Z :=
  match l with
  | [] => None
  | a :: rest => Some (fst (first_extremum (fun x y => Qltb y x) rest 1 0 a))
  end.

(** numpy's float64 where the selectors can leave the finite numbers.
    Arithmetic with a finite operand follows IEEE 754: a division by zero
    is no exception (numpy only warns) but an infinity, or NaN for [0/0];
    the logarithm of zero is [-inf], that of a negative number NaN.  Zero
    is unsigned here. *)
Inductive float64 : Type :=
| F64 (q : Q)
| PosInf
| NegInf
| NaN.

(** [x * y] and [x / y] for a float64 [x] and a finite number [y]. *)
Definition np_mul (x : float64) (y : Q) : float64 :=
  match x with
  | F64 q => F64 (q * y)
  | PosInf => if Qltb 0 y then PosInf else if Qltb y 0 then NegInf else NaN
  | NegInf => if Qltb 0 y then NegInf else if Qltb y 0 then PosInf else NaN
  | NaN => NaN
  end.

Definition np_div (x : float64) (y : Q) : float64 :=
  match x with
  | F64 q =>
      if Qeqb y 0
      then (if Qltb 0 q then PosInf else if Qltb q 0 then NegInf else NaN)
      else F64 (q / y)
  | PosInf => if Qltb y 0 then NegInf else PosInf
  | NegInf => if Qltb y 0 then PosInf else NegInf
  | NaN => NaN
  end.

(** [np.log], [np.log2] and [np.sqrt] with their values outside the
    domain. *)
Definition np_log_f64 `{Numerics} (x : float64) : float64 :=
  match x with
  | F64 q => if Qltb 0 q then F64 (np_log q)
             else if Qeqb q 0 then NegInf else NaN
  | PosInf => PosInf
  | NegInf => NaN
  | NaN => NaN
  end.

Definition np_log2_f64 `{Numerics} (x : Q) : float64 :=
  if Qltb 0 x then F64 (np_log2 x) else if Qeqb x 0 then NegInf else NaN.

Definition np_sqrt_f64 `{Numerics} (x : Q) : float64 :=
  if Qltb x 0 then NaN else F64 (np_sqrt x).

(** [int(np.ceil(x))]: OverflowError on an infinity, ValueError on NaN. *)
Definition int_ceil {S} (x : float64) : M S Z :=
  match x with
  | F64 q => ret (Qceiling q)
  | PosInf | NegInf => raise OverflowError
  | NaN => raise ValueError
  end.

(** [x > y] and [x <= y] against a finite [y]: both false on NaN. *)
Definition np_gt (x : float64) (y : Q) : bool :=
  match x with
  | F64 q => Qltb y q
  | PosInf => true
  | NegInf | NaN => false
  end.

Definition np_le (x : float64) (y : Q) : bool :=
  match x with
  | F64 q => Qle_bool q y
  | NegInf => true
  | PosInf | NaN => false
  end.

(** ** The environment as the selectors see it *)

(** The selectors run against the ledger; next to it the model keeps a
    ghost record of every [env.run] call they issue, with its result. *)
Record run_event : Type := mkEvent {
  ev_config : Z;
  ev_timeout : Q;
  ev_instance : Z;
  ev_result : outcome (bool * Q)
}.

Record World : Type := mkWorld {
  env : Environment;
  run_log : list run_event
}.

Definition env_run (config_id : Z) (timeout : Q) (instance_id : Z)
  : M World (bool * Q) := fun w =>
  let res := run config_id timeout instance_id (env w) in
  ({| env := fst res;
      run_log := run_log w ++ [mkEvent config_id timeout instance_id (snd res)] |},
   snd res).

(** ** leapsandbounds.py *)

Definition R : Q := 44.
Definition R2 : Q := 32.

(** The loop variables of [ebgstop_slave_alg]: [t], [q], [sumq],
    [sum_q_squared], [kk] and [x] ([x] is unbound until first assigned). *)
Record est_state : Type := mkEst {
  s_t : Q;
  s_q : list Q;
  s_sumq : Q;
  s_sum_q_squared : Q;
  s_kk : Z;
  s_x : option Q
}.

Section Estimator.
Context `{Numerics}.
Local Open Scope Q_scope.

Variables (i : Z) (b : Z) (delta theta : Q) (k : Z) (epsilon zeta : Q) (n : Z).

Definition beta : Q := 1.10.

(** Lines 62-65: the run of iteration [j], issued only while budget
    remains. *)
Definition ebgstop_sample (tau : Q) (j : Z) (st : est_state) : M World Q :=
  if Qltb 0 (s_t st)
  then (res <-- env_run i (Qmin (s_t st) tau) j ;; ret (snd res))%py
  else ret 0.

(** Lines 77-81: the geometric schedule on which [x] is recomputed. *)
Definition ebgstop_schedule (j : Z) (st : est_state)
  : M World (Z * option Q) :=
  if Qltb (inject_Z (Qfloor (Qpower beta (s_kk st)))) (inject_Z (j + 1))
  then
    let kk := (s_kk st + 1)%Z in
    let alpha := inject_Z (Qfloor (Qpower beta kk))
                 / inject_Z (Qfloor (Qpower beta (kk - 1))) in
    (dk <-- py_div (2.1 * pow_real (inject_Z k) 1.5 * 2.61238
                    * pow_real (inject_Z kk) 1.1 * 10.5844 * inject_Z n)
                   zeta ;;
     ret (kk, Some (alpha * np_log (3 * dk))))%py
  else ret (s_kk st, s_x st).

(** Lines 67-91: the rest of iteration [j] once [elapsed] is known:
    [inl v] is [return v], [inr st'] falls through to the next
    iteration. *)
Definition ebgstop_update (tau : Q) (j : Z) (st : est_state) (elapsed : Q)
  : M World (Q + est_state) :=
  (let t := s_t st - elapsed in
   let q := s_q st ++ [elapsed] in
   let sumq := s_sumq st + elapsed in
   let sum_q_squared := s_sum_q_squared st + elapsed * elapsed in
   if Qeqb t 0 then ret (inl theta) else
   let q_mean := sumq / inject_Z (j + 1) in
   let q_var :=
     Qmax ((sum_q_squared - q_mean * sumq) / inject_Z (j + 1)) 0 in
   sched <-- ebgstop_schedule j st ;;
   let st' := {| s_t := t; s_q := q; s_sumq := sumq;
                 s_sum_q_squared := sum_q_squared;
                 s_kk := fst sched; s_x := snd sched |} in
   if (0 <? j)%Z then
     x <-- lift_opt UnboundLocalError (snd sched) ;;
     let confidence :=
       np_sqrt (q_var * 2 * x / inject_Z (j + 1))
       + 3 * tau * x / inject_Z (j + 1) in
     let lower_bound := q_mean - confidence in
     if Qltb theta ((1 + 3 * epsilon / 7) * lower_bound)
        && Qltb theta q_mean
     then ret (inl theta) else
     d_prime <-- py_div zeta
                   (inject_Z (40 * 3 * n * k * (k + 1) * j * (j + 1))) ;;
     let r2 := Qceiling (- R2 * np_log d_prime / delta) in
     if (r2 <=? j + 1)%Z
        && Qle_bool confidence (epsilon / 3 * (q_mean + lower_bound))
     then ret (inl q_mean)
     else ret (inr st')
   else ret (inr st'))%py.

(** One iteration of the [for j in xrange(b)] loop. *)
Definition ebgstop_iter (tau : Q) (j : Z) (st : est_state)
  : M World (Q + est_state) :=
  (elapsed <-- ebgstop_sample tau j st ;;
   ebgstop_update tau j st elapsed)%py.

Fixpoint ebgstop_loop (tau : Q) (js : list Z) (st : est_state)
  : M World Q :=
  match js with
  | [] => np_mean (s_q st)
  | j :: js' =>
      (res <-- ebgstop_iter tau j st ;;
       match res with
       | inl v => ret v
       | inr st' => ebgstop_loop tau js' st'
       end)%py
  end.

Definition ebgstop_init : est_state :=
  {| s_t := inject_Z b * theta; s_q := []; s_sumq := 0;
     s_sum_q_squared := 0; s_kk := 0; s_x := None |}.

Definition ebgstop_slave_alg : M World Q :=
  (tau <-- py_div (4 * theta) (3 * delta) ;;
   ebgstop_loop tau (xrange b) ebgstop_init)%py.
End Estimator.

Section LeapsAndBounds.
Context `{Numerics}.
Local Open Scope Q_scope.

Variables (n : Z) (epsilon delta zeta : Q) (theta_multiplier : Q).

(** Lines 36-38: the sample bound [b] of round [k]. *)
Definition round_budget (k : Z) : M World Z :=
  (arg <-- py_div (inject_Z (40 * 3 * n * k * (k + 1))) zeta ;;
   lg <-- math_log arg ;;
   quot <-- py_div (R * lg) (delta * epsilon * epsilon) ;;
   ret (Qceiling quot))%py.

(** Lines 41-44: one estimate per configuration, in order. *)
Fixpoint round_estimates (configs : list Z) (b : Z) (theta : Q) (k : Z)
  : M World (list Q) :=
  match configs with
  | [] => ret []
  | i :: rest =>
      (q_hat_i <-- ebgstop_slave_alg i b delta theta k epsilon zeta n ;;
       q_hat <-- round_estimates rest b theta k ;;
       ret (q_hat_i :: q_hat))%py
  end.

(** Lines 45-49: what a round does with its estimates: [inl] is the
    returned triple, [inr] the threshold of the next round. *)
Definition round_decision (q_hat : list Q) (theta : Q)
  : M World (Z * Q * Q + Q) :=
  (least <-- lift_opt ValueError (np_min q_hat) ;;
   if Qltb least theta then
     best_config_index <-- lift_opt ValueError (np_argmin q_hat) ;;
     estimate <-- lift_opt IndexError (py_index q_hat best_config_index) ;;
     tau <-- py_div (4 * theta) (3 * delta) ;;
     ret (inl (best_config_index, estimate, tau))
   else ret (inr (theta * theta_multiplier)))%py.

(** The [while True] loop, entered with the [theta] and [k] left by the
    previous round; [fuel] bounds the number of rounds. *)
Fixpoint leaps_and_bounds_loop (fuel : nat) (theta : Q) (k : Z)
  : M World (Z * Q * Q) :=
  match fuel with
  | O => raise OutOfFuel
  | S fuel' =>
      let k := (k + 1)%Z in
      (b <-- round_budget k ;;
       q_hat <-- round_estimates (xrange n) b theta k ;;
       verdict <-- round_decision q_hat theta ;;
       match verdict with
       | inl result => ret result
       | inr theta' => leaps_and_bounds_loop fuel' theta' k
       end)%py
  end.

Definition leaps_and_bounds (fuel : nat) (k0 : Q) : M World (Z * Q * Q) :=
  leaps_and_bounds_loop fuel (k0 * 16 / 7) 0.
End LeapsAndBounds.

(** The budget discipline of the estimator, read off the runs it issued:
    starting from the budget [remaining] and instance [j], every run is for
    configuration [i] and the next instance, its timeout is the smaller of
    the remaining budget and [tau], its elapsed time is deducted and leaves
    a non-negative budget, and a budget of exactly zero ends the estimator
    with result [theta]; a run that raises ends it with that exception. *)
Fixpoint budget_trace (i : Z) (tau theta : Q) (out : outcome Q)
    (j : Z) (remaining : Q) (evs : list run_event) : Prop :=
  match evs with
  | [] => True
  | ev :: rest =>
      ev_config ev = i /\ ev_instance ev = j /\
      ev_timeout ev = Qmin remaining tau /\
      match ev_result ev with
      | Ok (_, elapsed) =>
          (0 <= remaining - elapsed)%Q /\
          ((remaining - elapsed == 0)%Q -> rest = [] /\ out = Ok theta) /\
          budget_trace i tau theta out (j + 1) (remaining - elapsed)%Q rest
      | Raise e => rest = [] /\ out = Raise e
      end
  end.

(** Threshold escalation as the specification words it, on the first
    round of [leaps_and_bounds]: with a multiplier of at least one, the
    threshold handed to the next round is not below the current one. *)
Definition escalation_as_specified `{Numerics}
    (n : Z) (epsilon delta zeta theta_multiplier k0 : Q) (w : World) : Prop :=
  (1 <= theta_multiplier)%Q ->
  forall w1 b w2 q_hat w3 theta',
    round_budget n epsilon delta zeta 1 w = (w1, Ok b) ->
    round_estimates n epsilon delta zeta (xrange n) b (k0 * 16 / 7) 1 w1
    = (w2, Ok q_hat) ->
    round_decision delta theta_multiplier q_hat (k0 * 16 / 7) w2
    = (w3, Ok (inr theta')) ->
    (k0 * 16 / 7 <= theta')%Q.

Definition scenario_world : World :=
  {| env := scenario_env; run_log := [] |}.

(** The first Leaps-and-Bounds round on the scenario dataset, with
    [epsilon = delta = zeta = 0.9], [k0 = 1] and the flat numerics. *)
Definition scenario_round : World * outcome (list Q) :=
  @round_estimates flat_numerics 3 (9 # 10) (9 # 10) (9 # 10)
    (xrange 3) 2 (16 # 7) (0 + 1) scenario_world.
Definition estimates_of (o : outcome (list Q)) : list Q :=
  match o with Ok l => l | Raise _ => [] end.
Definition scenario_q_hat : list Q := estimates_of (snd scenario_round).

(** ** structured_procrastination.py *)

Definition C : Q := 12.

(** [heapq] on tuples [(key, i)].  Tuples compare lexicographically; the
    heap is kept here as a list sorted by that order, so that [heappop]
    takes the head: whatever the array layout of [heapq], the tuple it pops
    is the least one. *)
Definition tuple_ltb (a b : Q * Z) : bool :=
  if Qeqb (fst a) (fst b) then snd a <? snd b else Qltb (fst a) (fst b).

Fixpoint heappush (heap : list (Q * Z)) (item : Q * Z) : list (Q * Z) :=
  match heap with
  | [] => [item]
  | least :: rest =>
      if tuple_ltb item least then item :: least :: rest
      else least :: heappush rest item
  end.

Definition heappop (heap : list (Q * Z)) : option ((Q * Z) * list (Q * Z)) :=
  match heap with
  | [] => None
  | least :: rest => Some (least, rest)
  end.

(** The local variables of [structured_procrastination]; [i_star] is unbound
    until the first periodic recomputation. *)
Record sp_state : Type := mkSp {
  sp_k : list Z;
  sp_l : list Z;
  sp_q : list (list (Z * Q));
  sp_qq : list Z;
  sp_r : list (list Q);
  sp_r_sum : list Q;
  sp_heap : list (Q * Z);
  sp_current_delta : float64;
  sp_iter_count : Z;
  sp_i_star : option Z
}.

(** Lines 71-74: [while len(q[i]) < qq[i]], run [cnt] times. *)
Fixpoint sp_grow (cnt : nat) (theta : Q) (l_i : Z) (r_i : list Q)
    (q_i : list (Z * Q)) : Z * list Q * list (Z * Q) :=
  match cnt with
  | O => (l_i, r_i, q_i)
  | S cnt' =>
      let l_i := l_i + 1 in
      sp_grow cnt' theta l_i (r_i ++ [0%Q]) ((l_i - 1, theta) :: q_i)
  end.

Section StructuredProcrastination.
Context `{Numerics}.
Local Open Scope Q_scope.

Variables (n : Z) (epsilon delta zeta k0 k_bar theta_multiplier : Q).

(** Lines 36-47: the set-up loop over the configurations.  [beta] and the
    argument [3 * beta * n / zeta] of the logarithm are numpy values:
    [int(np.ceil(...))] raises OverflowError or ValueError when the
    logarithm is infinite or NaN. *)
Fixpoint sp_setup (beta : float64) (configs : list Z) (st : sp_state)
  : M World sp_state :=
  match configs with
  | [] => ret st
  | i :: rest =>
      (scale <-- py_div C (epsilon * epsilon) ;;
       l_i <-- int_ceil
                 (np_mul
                    (np_log_f64
                       (np_div (np_mul (np_mul beta 3) (inject_Z n)) zeta))
                    scale) ;;
       sp_setup beta rest
         {| sp_k := sp_k st ++ [0%Z];
            sp_l := sp_l st ++ [l_i];
            sp_q := sp_q st ++ [map (fun ll => (ll, k0)) (xrange l_i)];
            sp_qq := sp_qq st ++ [0%Z];
            sp_r := sp_r st ++ [map (fun _ => 0) (xrange l_i)];
            sp_r_sum := sp_r_sum st ++ [0];
            sp_heap := heappush (sp_heap st) (0, i);
            sp_current_delta := sp_current_delta st;
            sp_iter_count := sp_iter_count st;
            sp_i_star := sp_i_star st |})%py
  end.

Definition sp_empty : sp_state :=
  {| sp_k := []; sp_l := []; sp_q := []; sp_qq := []; sp_r := [];
     sp_r_sum := []; sp_heap := [];
     sp_current_delta := F64 1; sp_iter_count := 0; sp_i_star := None |}.

(** Lines 53-74 of the main loop: everything up to, but not including, the
    re-insertion into the heap.  Returns the configuration popped. *)
Definition sp_advance (beta : float64) (st : sp_state)
  : M World (Z * sp_state) :=
  (popped <-- lift_opt IndexError (heappop (sp_heap st)) ;;
   let i := snd (fst popped) in
   q_i <-- lift_opt IndexError (py_index (sp_q st) i) ;;
   match q_i with
   | [] => raise IndexError
   | (ll, theta) :: q_i =>
       r_i <-- lift_opt IndexError (py_index (sp_r st) i) ;;
       r_i_ll <-- lift_opt IndexError (py_index r_i ll) ;;
       kqq <-- (if Qeqb r_i_ll 0 then
                  k_i <-- lift_opt IndexError (py_index (sp_k st) i) ;;
                  let k_i := (k_i + 1)%Z in
                  k <-- lift_opt IndexError (py_store (sp_k st) i k_i) ;;
                  scale <-- py_div C (epsilon * epsilon) ;;
                  qq_i <-- int_ceil
                             (np_mul
                                (np_log_f64
                                   (np_div
                                      (np_mul
                                         (np_mul
                                            (np_mul (np_mul beta 3)
                                               (inject_Z n))
                                            (inject_Z k_i))
                                         (inject_Z k_i))
                                      zeta))
                                scale) ;;
                  qq <-- lift_opt IndexError (py_store (sp_qq st) i qq_i) ;;
                  ret (k, qq)
                else ret (sp_k st, sp_qq st)) ;;
       res <-- env_run i theta ll ;;
       let did_timeout := fst res in
       let elapsed := snd res in
       r_sum_i <-- lift_opt IndexError (py_index (sp_r_sum st) i) ;;
       let charged := if negb did_timeout then elapsed else theta in
       r_sum <-- lift_opt IndexError
                   (py_store (sp_r_sum st) i (r_sum_i + (charged - r_i_ll))) ;;
       r_i <-- lift_opt IndexError (py_store r_i ll charged) ;;
       let q_i := if negb did_timeout then q_i
                  else q_i ++ [(ll, theta_multiplier * theta)] in
       qq_i <-- lift_opt IndexError (py_index (snd kqq) i) ;;
       l_i <-- lift_opt IndexError (py_index (sp_l st) i) ;;
       let grown :=
         sp_grow (Z.to_nat (qq_i - Z.of_nat (length q_i))) theta l_i r_i q_i in
       l <-- lift_opt IndexError (py_store (sp_l st) i (fst (fst grown))) ;;
       r <-- lift_opt IndexError (py_store (sp_r st) i (snd (fst grown))) ;;
       q <-- lift_opt IndexError (py_store (sp_q st) i (snd grown)) ;;
       ret (i, {| sp_k := fst kqq; sp_l := l; sp_q := q; sp_qq := snd kqq;
                  sp_r := r; sp_r_sum := r_sum; sp_heap := snd popped;
                  sp_current_delta := sp_current_delta st;
                  sp_iter_count := (sp_iter_count st + 1)%Z;
                  sp_i_star := sp_i_star st |})
   end)%py.

(** Line 76: [heapq.heappush(heap, (r_sum[i] / k[i], i))]. *)
Definition sp_reinsert (i : Z) (st : sp_state) : M World sp_state :=
  (r_sum_i <-- lift_opt IndexError (py_index (sp_r_sum st) i) ;;
   k_i <-- lift_opt IndexError (py_index (sp_k st) i) ;;
   key <-- py_div r_sum_i (inject_Z k_i) ;;
   ret {| sp_k := sp_k st; sp_l := sp_l st; sp_q := sp_q st;
          sp_qq := sp_qq st; sp_r := sp_r st; sp_r_sum := sp_r_sum st;
          sp_heap := heappush (sp_heap st) (key, i);
          sp_current_delta := sp_current_delta st;
          sp_iter_count := sp_iter_count st;
          sp_i_star := sp_i_star st |})%py.

(** Lines 78-85: the periodic recomputation of [current_delta], a numpy
    value: dividing by [k[i_star] = 0] raises nothing and gives an
    infinity, or NaN when [qq[i_star]] is zero as well. *)
Definition sp_recompute (st : sp_state) : M World sp_state :=
  if (sp_iter_count st mod 10000 =? 0)%Z then
    (i_star <-- lift_opt ValueError (np_argmax (sp_r_sum st)) ;;
     qq_star <-- lift_opt IndexError (py_index (sp_qq st) i_star) ;;
     k_star <-- lift_opt IndexError (py_index (sp_k st) i_star) ;;
     ret {| sp_k := sp_k st; sp_l := sp_l st; sp_q := sp_q st;
            sp_qq := sp_qq st; sp_r := sp_r st; sp_r_sum := sp_r_sum st;
            sp_heap := sp_heap st;
            sp_current_delta :=
              np_div (np_mul (np_sqrt_f64 (1 + epsilon)) (inject_Z qq_star))
                     (inject_Z k_star);
            sp_iter_count := sp_iter_count st;
            sp_i_star := Some i_star |})%py
  else ret st.

(** One pass through the body of the main loop. *)
Definition sp_iter (beta : float64) (st : sp_state) : M World sp_state :=
  (adv <-- sp_advance beta st ;;
   st <-- sp_reinsert (fst adv) (snd adv) ;;
   sp_recompute st)%py.

(** [while current_delta > delta: ...] followed by the [return]; [fuel]
    bounds the number of passes.  The test is false on NaN. *)
Fixpoint sp_loop (fuel : nat) (beta : float64) (st : sp_state)
  : M World (Z * float64) :=
  if np_gt (sp_current_delta st) delta then
    match fuel with
    | O => raise OutOfFuel
    | S fuel' => (st' <-- sp_iter beta st ;; sp_loop fuel' beta st')%py
    end
  else
    (i_star <-- lift_opt UnboundLocalError (sp_i_star st) ;;
     ret (i_star, sp_current_delta st))%py.

Definition structured_procrastination (fuel : nat)
  : M World (Z * float64) :=
  (ratio <-- py_div k_bar k0 ;;
   let beta := np_log2_f64 ratio in
   st <-- sp_setup beta (xrange n) sp_empty ;;
   sp_loop fuel beta st)%py.
End StructuredProcrastination.

(** The invariant behind the priority key [r_sum[i] / k[i]]: the parallel
    lists [k] and [r] have the same length, the heap only holds
    configuration indices from [xrange(n)], and a configuration whose
    generation counter is still zero has only zero charges. *)
Definition all_zero (row : list Q) : Prop :=
  Forall (fun c => Qeqb c 0 = true) row.

Definition sp_inv (st : sp_state) : Prop :=
  length (sp_k st) = length (sp_r st) /\
  (forall item, item ∈ sp_heap st -> 0 <= snd item) /\
  (forall (j : nat) k_j r_j,
      sp_k st !! j = Some k_j -> sp_r st !! j = Some r_j ->
      1 <= k_j \/ (k_j = 0 /\ all_zero r_j)).

(** The states in which the main loop of [structured_procrastination] can
    find itself at the top of a pass: the state left by the set-up, and any
    state left by a pass started while [current_delta > delta]. *)
Inductive sp_reachable `{Numerics}
    (n : Z) (epsilon delta zeta k0 theta_multiplier : Q) (beta : float64)
  : sp_state -> Prop :=
| sp_reach_setup (w w' : World) (st : sp_state) :
    sp_setup n epsilon zeta k0 beta (xrange n) sp_empty w = (w', Ok st) ->
    sp_reachable n epsilon delta zeta k0 theta_multiplier beta st
| sp_reach_iter (w w' : World) (st st' : sp_state) :
    sp_reachable n epsilon delta zeta k0 theta_multiplier beta st ->
    np_gt (sp_current_delta st) delta = true ->
    sp_iter n epsilon zeta theta_multiplier beta st w = (w', Ok st') ->
    sp_reachable n epsilon delta zeta k0 theta_multiplier beta st'.

(** The exit condition as the specification words it: a normal return
    carries a [current_delta] that is at most [delta]. *)
Definition exit_as_specified `{Numerics}
    (n : Z) (epsilon delta zeta k0 k_bar theta_multiplier : Q)
    (fuel : nat) (w : World) : Prop :=
  forall i_star current_delta,
    snd (structured_procrastination n epsilon delta zeta k0 k_bar
           theta_multiplier fuel w)
    = Ok (i_star, current_delta) ->
    np_le current_delta delta = true.

(** Test inputs for the Structured-Procrastination selector on the
    scenario dataset, with [epsilon = delta = zeta = 0.9], [k0 = 1],
    [k_bar = 4], [theta_multiplier = 2] and the flat numerics: the state
    left by the set-up, its first pass, and a state one pass before the
    first recomputation of [current_delta]. *)
Definition sp_state_of (o : outcome sp_state) : sp_state :=
  match o with Ok st => st | Raise _ => sp_empty end.
Definition sp_pass_of (o : outcome (Z * sp_state)) : Z * sp_state :=
  match o with Ok a => a | Raise _ => (0, sp_empty) end.

Definition scenario_sp_setup : sp_state :=
  sp_state_of
    (snd (@sp_setup flat_numerics 3 (9 # 10) (9 # 10) 1 (F64 1) (xrange 3)
            sp_empty scenario_world)).

Definition scenario_sp_pass : World * outcome (Z * sp_state) :=
  @sp_advance flat_numerics 3 (9 # 10) (9 # 10) 2 (F64 1) scenario_sp_setup
    scenario_world.

Definition sp_late_state : sp_state :=
  {| sp_k := [2]; sp_l := [3];
     sp_q := [[(2, 1%Q); (0, 2%Q); (1, 2%Q)]];
     sp_qq := [1];
     sp_r := [[1; 1; 0]%Q];
     sp_r_sum := [2%Q];
     sp_heap := [(1%Q, 0)];
     sp_current_delta := F64 1;
     sp_iter_count := 9999;
     sp_i_star := None |}.

(** ** Further definitions: ledger bookkeeping and statistics *)

(** The sum of the values of a [defaultdict(float)]. *)
Definition map_sum (m : gmap Z Q) : Q :=
  map_fold (fun _ v acc => (v + acc)%Q) 0%Q m.

(** The timeout of the last call on the pair [(c, i)] in [cs], if any. *)
Fixpoint last_timeout (c i : Z) (cs : list call) : option Q :=
  match cs with
  | [] => None
  | cl :: rest =>
      match last_timeout c i rest with
      | Some t => Some t
      | None => if same_pair cl (c, 0%Q, i) then Some (call_timeout cl)
                else None
      end
  end.

(** A measurement table in which every configuration has one entry per
    instance of a non-empty pool. *)
Definition rectangular (env : Environment) : Prop :=
  0 < _instance_count env /\
  Forall (fun row => Z.of_nat (length row) = _instance_count env)
         (_results env).

(** [Environment.print_config_stats]: the three numbers it prints and the
    mapping it pickles, as a function of the ledger.  The loops counting
    the instances above a bound are [count_above].  On an empty row
    [np.mean] prints a NaN and the first fraction then divides by zero. *)
Fixpoint count_above (bound : Q) (row : list Q) (timeout_count : Z) : Z :=
  match row with
  | [] => timeout_count
  | t :: rest =>
      count_above bound rest
        (if Qltb bound t then timeout_count + 1 else timeout_count)
  end.

Record config_stats : Type := mkStats {
  stat_average : Q;
  stat_timeout_fraction : Q;
  stat_tau_fraction : option Q;
  stat_dump : gmap Z Q
}.

Definition print_config_stats (env : Environment) (config_id : Z)
    (tau : option Q) : outcome config_stats :=
  match py_index (_results env) config_id with
  | None => Raise IndexError
  | Some row =>
      match row with
      | [] => Raise ZeroDivisionError
      | _ =>
          let len := inject_Z (Z.of_nat (length row)) in
          Ok {| stat_average :=
                  (sumQ (map (fun r => Qmin (_timeout env) r) row) / len)%Q;
                stat_timeout_fraction :=
                  (inject_Z (count_above (_timeout env) row 0) / len)%Q;
                stat_tau_fraction :=
                  match tau with
                  | None => None
                  | Some tau =>
                      Some (inject_Z (count_above tau row 0) / len)%Q
                  end;
                stat_dump := _runtime_per_config env |}
      end
  end.

(** The two sums the comments of [reset] promise. *)
Definition ledger_sums (env : Environment) : Prop :=
  (forall c,
      (dd_get (_runtime_per_config env) c
       == map_sum (default ∅ (_ran_so_far env !! c)))%Q) /\
  (_total_resumed_runtime env == map_sum (_runtime_per_config env))%Q.

(** ** Further definitions: the selectors *)

(** The simulated time a logged run consumed (nothing if it raised), and
    the total over a log. *)
Definition event_elapsed (ev : run_event) : Q :=
  match ev_result ev with
  | Ok (_, elapsed) => elapsed
  | Raise _ => 0%Q
  end.
Definition spent (evs : list run_event) : Q := sumQ (map event_elapsed evs).

(** What holds of the loop variables of [ebgstop_slave_alg] at the top of
    iteration [j]: [kk] is still 0 during the first two iterations, [x] is
    bound from the third on, and [q] is non-empty after the first. *)
Definition est_ready (j : nat) (st : est_state) : Prop :=
  ((j <= 1)%nat -> s_kk st = 0) /\
  ((2 <= j)%nat -> is_Some (s_x st)) /\
  ((1 <= j)%nat -> s_q st <> []).

(** The threshold after [m] unsuccessful rounds. *)
Fixpoint escalated (theta theta_multiplier : Q) (m : nat) : Q :=
  match m with
  | O => theta
  | S m' => escalated (theta * theta_multiplier)%Q theta_multiplier m'
  end.

(** A heap list in which no later entry is smaller than an earlier one. *)
Fixpoint heap_sorted (heap : list (Q * Z)) : Prop :=
  match heap with
  | [] => True
  | least :: rest =>
      Forall (fun other => tuple_ltb other least = false) rest /\
      heap_sorted rest
  end.

(** The heap discipline of the main loop: sorted, and holding exactly one
    entry per configuration of [xrange(n)]. *)
Definition sp_heap_inv (n : Z) (st : sp_state) : Prop :=
  heap_sorted (sp_heap st) /\ map snd (sp_heap st) ≡ₚ xrange n.

(** The charge bookkeeping of the main loop: [r] and [r_sum] run in
    parallel and every [r_sum[i]] is the sum of the row [r[i]]. *)
Definition sp_sum_inv (st : sp_state) : Prop :=
  length (sp_r st) = length (sp_r_sum st) /\
  (forall (j : nat) r_j s_j,
      sp_r st !! j = Some r_j -> sp_r_sum st !! j = Some s_j ->
      (s_j == sumQ r_j)%Q).

(** The shape of the per-configuration lists of the main loop: all six
    have one entry per configuration; every queued request names a slot
    that exists in the configuration's row of [r]; a configuration with
    pending requests has [l[i] = len(r[i])]; and the queue is at least as
    long as the target [qq[i]]. *)
Definition slot_ok (r_j : list Q) (request : Z * Q) : Prop :=
  0 <= fst request < Z.of_nat (length r_j).

Definition sp_shape (n : Z) (st : sp_state) : Prop :=
  length (sp_k st) = Z.to_nat n /\
  length (sp_l st) = Z.to_nat n /\
  length (sp_q st) = Z.to_nat n /\
  length (sp_qq st) = Z.to_nat n /\
  length (sp_r st) = Z.to_nat n /\
  length (sp_r_sum st) = Z.to_nat n /\
  (forall (j : nat) q_j r_j l_j qq_j,
      sp_q st !! j = Some q_j -> sp_r st !! j = Some r_j ->
      sp_l st !! j = Some l_j -> sp_qq st !! j = Some qq_j ->
      Forall (slot_ok r_j) q_j /\
      (q_j <> [] -> l_j = Z.of_nat (length r_j)) /\
      qq_j <= Z.of_nat (length q_j)).

(** A request whose timeout is the first timeout [k0] multiplied some
    number of times by [theta_multiplier]; and the statement that every
    request of every queue is of that kind. *)
Definition geometric (k0 theta_multiplier : Q) (request : Z * Q) : Prop :=
  exists m : nat, (snd request == k0 * theta_multiplier ^ Z.of_nat m)%Q.

Definition sp_timeouts_inv (k0 theta_multiplier : Q) (st : sp_state) : Prop :=
  Forall (Forall (geometric k0 theta_multiplier)) (sp_q st).

(* ------------------------------------------------------------------ *)
(** * Properties *)

(** ** Basic facts about the Python-level helpers *)

Lemma Qltb_lt (a b : Q) : Qltb a b = true <-> (a < b)%Q.
Proof.
  unfold Qltb. rewrite negb_true_iff. split.
  - intros H. apply Qnot_le_lt. intros Hle.
    apply Qle_bool_iff in Hle. congruence.
  - intros H. destruct (Qle_bool b a) eqn:E; [|reflexivity].
    apply Qle_bool_iff in E. exfalso. apply (Qlt_not_le _ _ H E).
Qed.

Lemma Qltb_ge (a b : Q) : Qltb a b = false <-> (b <= a)%Q.
Proof.
  unfold Qltb. rewrite negb_false_iff. apply Qle_bool_iff.
Qed.

Lemma py_index_elem {A} (l : list A) (i : Z) (x : A) :
  py_index l i = Some x -> x ∈ l.
Proof.
  unfold py_index. intros H.
  repeat case_match; try discriminate;
    eapply list_elem_of_lookup_2; eassumption.
Qed.

Lemma dd2_get_set_eq m c i v : dd2_get (dd2_set m c i v) c i = v.
Proof.
  unfold dd2_get, dd2_set, dd_get.
  rewrite lookup_insert_eq. simpl. rewrite lookup_insert_eq. reflexivity.
Qed.

Lemma dd2_get_set_ne m c i v c' j :
  (c', j) <> (c, i) -> dd2_get (dd2_set m c i v) c' j = dd2_get m c' j.
Proof.
  intros Hne. unfold dd2_get, dd2_set, dd_get.
  destruct (decide (c = c')) as [->|Hc].
  - rewrite lookup_insert_eq. simpl.
    rewrite lookup_insert_ne; [reflexivity|]. congruence.
  - rewrite lookup_insert_ne by assumption. reflexivity.
Qed.

(** What a successful [run] leaves behind, field by field. *)
Lemma run_success env c t i truth :
  (t <= _timeout env)%Q ->
  ground_truth env c i = Ok truth ->
  exists env',
    run c t i env = (env', Ok (Qle_bool t truth, Qmin t truth)) /\
    _timeout env' = _timeout env /\
    _results env' = _results env /\
    _instance_count env' = _instance_count env /\
    _total_runtime env' = (_total_runtime env + Qmin t truth)%Q /\
    _total_resumed_runtime env' =
      (_total_resumed_runtime env
       + (Qmin t truth - dd2_get (_ran_so_far env) c i))%Q /\
    dd_get (_runtime_per_config env') c =
      (dd_get (_runtime_per_config env) c
       + (Qmin t truth - dd2_get (_ran_so_far env) c i))%Q /\
    _ran_so_far env' = dd2_set (_ran_so_far env) c i (Qmin t truth).
Proof.
  intros Ht Hg. unfold run.
  apply Qltb_ge in Ht. rewrite Ht, Hg.
  eexists. split; [reflexivity|]. simpl.
  repeat split; try reflexivity.
  unfold dd_get. rewrite lookup_insert_eq. reflexivity.
Qed.

(** Any exception of [run] is raised before the first assignment. *)
Lemma run_raise_unchanged env c t i env' e :
  run c t i env = (env', Raise e) -> env' = env.
Proof.
  unfold run. intros Hr.
  destruct (Qltb (_timeout env) t); [inversion Hr; reflexivity|].
  destruct (ground_truth env c i); inversion Hr; reflexivity.
Qed.

Lemma run_inv env c t i env' r :
  run c t i env = (env', Ok r) ->
  (t <= _timeout env)%Q /\ exists truth, ground_truth env c i = Ok truth.
Proof.
  unfold run. destruct (Qltb (_timeout env) t) eqn:E; [discriminate|].
  apply Qltb_ge in E.
  destruct (ground_truth env c i) eqn:G; [|discriminate].
  intros _. split; [assumption|]. eauto.
Qed.

Lemma ground_truth_no_ValueError env c i :
  ground_truth env c i <> Raise ValueError.
Proof. unfold ground_truth. repeat case_match; discriminate. Qed.

Lemma ground_truth_static env1 env2 c i :
  _results env1 = _results env2 ->
  _instance_count env1 = _instance_count env2 ->
  ground_truth env1 c i = ground_truth env2 c i.
Proof. intros Hr Hc. unfold ground_truth. rewrite Hr, Hc. reflexivity. Qed.

Lemma run_static env c t i env' o :
  run c t i env = (env', o) ->
  _timeout env' = _timeout env /\
  _results env' = _results env /\
  _instance_count env' = _instance_count env.
Proof.
  unfold run. intros Hr.
  destruct (Qltb (_timeout env) t); [inversion Hr; auto|].
  destruct (ground_truth env c i); inversion Hr; auto.
Qed.

(** ** The ledger: [run] *)

(** C2. [run] raises ValueError (the InvalidTimeout condition) exactly when
    the requested timeout exceeds the measurement ceiling, and in that case
    the ledger is left as it was: total_runtime, total_resumed_runtime, the
    per-configuration accumulator and ran_so_far are all unchanged. *)
Theorem run_invalid_timeout (env : Environment) (c : Z) (t : Q) (i : Z) :
  (snd (run c t i env) = Raise ValueError <-> (_timeout env < t)%Q) /\
  (snd (run c t i env) = Raise ValueError ->
   _total_runtime (fst (run c t i env)) = _total_runtime env /\
   _total_resumed_runtime (fst (run c t i env)) = _total_resumed_runtime env /\
   _runtime_per_config (fst (run c t i env)) = _runtime_per_config env /\
   _ran_so_far (fst (run c t i env)) = _ran_so_far env /\
   fst (run c t i env) = env).
Proof.
  split.
  - unfold run. destruct (Qltb (_timeout env) t) eqn:E.
    + apply Qltb_lt in E. simpl. tauto.
    + apply Qltb_ge in E. split.
      * destruct (ground_truth env c i) eqn:G; simpl; [discriminate|].
        intros [= ->]. exfalso. exact (ground_truth_no_ValueError _ _ _ G).
      * intros Hlt. exfalso. exact (Qlt_not_le _ _ Hlt E).
  - intros H. destruct (run c t i env) as [env' o] eqn:R. simpl in *. subst o.
    apply run_raise_unchanged in R. subst env'. repeat split.
Qed.

(** C3. With an explicit instance and a timeout within the ceiling, [run]
    returns [(timed_out, elapsed)] where [timed_out] holds exactly when the
    ground truth of the pair is at least the timeout, and [elapsed] is the
    minimum of the timeout and the ground truth. *)
Theorem run_outcome (env : Environment) (c : Z) (t : Q) (i : Z) (truth : Q) :
  (t <= _timeout env)%Q ->
  ground_truth env c i = Ok truth ->
  exists env' timed_out elapsed,
    run c t i env = (env', Ok (timed_out, elapsed)) /\
    (timed_out = true <-> (truth >= t)%Q) /\
    elapsed = Qmin t truth /\
    (elapsed <= t)%Q /\ (elapsed <= truth)%Q /\
    ((t <= truth)%Q -> elapsed = t) /\
    ((truth < t)%Q -> elapsed = truth).
Proof.
  intros Ht Hg.
  destruct (run_success env c t i truth Ht Hg) as (env' & Hrun & _).
  exists env', (Qle_bool t truth), (Qmin t truth).
  split; [exact Hrun|]. split; [apply Qle_bool_iff|].
  split; [reflexivity|].
  split; [apply Q.le_min_l|]. split; [apply Q.le_min_r|].
  unfold Qmin, GenericMinMax.gmin. split.
  - intros Hle. destruct (t ?= truth)%Q eqn:E; try reflexivity.
    rewrite <- Qgt_alt in E. exfalso. exact (Qlt_not_le _ _ E Hle).
  - intros Hlt. rewrite Qgt_alt in Hlt. rewrite Hlt. reflexivity.
Qed.

Lemma run_ran_so_far env c t i env' b e :
  run c t i env = (env', Ok (b, e)) ->
  _ran_so_far env' = dd2_set (_ran_so_far env) c i e /\
  _total_runtime env' = (_total_runtime env + e)%Q /\
  _total_resumed_runtime env' =
    (_total_resumed_runtime env + (e - dd2_get (_ran_so_far env) c i))%Q /\
  dd_get (_runtime_per_config env') c =
    (dd_get (_runtime_per_config env) c
     + (e - dd2_get (_ran_so_far env) c i))%Q /\
  exists truth, ground_truth env c i = Ok truth /\ e = Qmin t truth.
Proof.
  intros Hrun. destruct (run_inv _ _ _ _ _ _ Hrun) as [Ht [truth Hg]].
  destruct (run_success env c t i truth Ht Hg)
    as (env2 & Hrun2 & _ & _ & _ & Htot & Hres & Hper & Hran).
  rewrite Hrun in Hrun2. inversion Hrun2; subst.
  repeat split; try assumption. eauto.
Qed.

(** C9. The pair returned by [run] depends on the instance slot only through
    its residue modulo the pool size, and not on the resumption state; the
    side effects, however, are keyed by the raw slot: a run on slot [i]
    writes [ran_so_far[c][i]], is charged relative to that entry, and leaves
    every other entry (in particular that of slot [i + m]) as it was. *)
Theorem run_instance_modulo :
  (forall env1 env2 c t i i',
      _timeout env1 = _timeout env2 ->
      _results env1 = _results env2 ->
      _instance_count env1 = _instance_count env2 ->
      i mod _instance_count env1 = i' mod _instance_count env1 ->
      snd (run c t i env1) = snd (run c t i' env2)) /\
  (forall env c t i env' b e,
      run c t i env = (env', Ok (b, e)) ->
      dd2_get (_ran_so_far env') c i = e /\
      _total_resumed_runtime env' =
        (_total_resumed_runtime env + (e - dd2_get (_ran_so_far env) c i))%Q /\
      (forall c' j, (c', j) <> (c, i) ->
         dd2_get (_ran_so_far env') c' j = dd2_get (_ran_so_far env) c' j) /\
      _instance_count env <> 0 /\
      dd2_get (_ran_so_far env') c (i + _instance_count env)
        = dd2_get (_ran_so_far env) c (i + _instance_count env)).
Proof.
  split.
  - intros env1 env2 c t i i' Ht Hr Hc Hmod. unfold run.
    assert (G : ground_truth env1 c i = ground_truth env2 c i').
    { unfold ground_truth. rewrite <- Hr, <- Hc, Hmod. reflexivity. }
    rewrite <- Ht, <- G.
    destruct (Qltb (_timeout env1) t); [reflexivity|].
    destruct (ground_truth env1 c i); reflexivity.
  - intros env c t i env' b e Hrun.
    destruct (run_ran_so_far _ _ _ _ _ _ _ Hrun)
      as (Hran & _ & Hres & _ & truth & Hg & _).
    assert (Hm : _instance_count env <> 0).
    { unfold ground_truth in Hg.
      destruct (py_index (_results env) c); [|discriminate].
      destruct (_instance_count env =? 0) eqn:E; [discriminate|].
      apply Z.eqb_neq in E. exact E. }
    rewrite Hran. split; [apply dd2_get_set_eq|]. split; [exact Hres|].
    split; [intros c' j Hne; apply dd2_get_set_ne; exact Hne|].
    split; [exact Hm|].
    apply dd2_get_set_ne. intros [= Heq]. lia.
Qed.

Lemma run_instance_modulo_witness :
  snd (run 1 5%Q 2 scenario_env)
  = snd (run 1 5%Q 7 (fst (run 1 5%Q 2 scenario_env))) /\
  dd2_get (_ran_so_far (fst (run 1 5%Q 2 scenario_env))) 1 7
  = dd2_get (_ran_so_far scenario_env) 1 7.
Proof.
  destruct run_instance_modulo as [Hres Hside]. split.
  - apply Hres; vm_compute; reflexivity.
  - destruct (Hside scenario_env 1 5%Q 2 (fst (run 1 5%Q 2 scenario_env))
                true 5%Q) as (_ & _ & _ & _ & Hslot).
    + vm_compute. reflexivity.
    + exact Hslot.
Defined.

Lemma run_calls_static cs : forall env env' o,
  run_calls cs env = (env', o) ->
  _timeout env' = _timeout env /\
  _results env' = _results env /\
  _instance_count env' = _instance_count env.
Proof.
  induction cs as [|[[c t] i] cs IH]; intros env env' o H; simpl in H.
  - inversion H; auto.
  - unfold bind in H. destruct (run c t i env) as [env1 [r|e]] eqn:R.
    + apply run_static in R. apply IH in H.
      destruct R as (?&?&?), H as (?&?&?). repeat split; congruence.
    + inversion H; subst. eapply run_static; eassumption.
Qed.

Lemma run_calls_other_key cs k : forall env env',
  Forall (fun cl => call_key cl <> k) cs ->
  run_calls cs env = (env', Ok tt) ->
  dd2_get (_ran_so_far env') (fst k) (snd k)
  = dd2_get (_ran_so_far env) (fst k) (snd k).
Proof.
  induction cs as [|[[c t] i] cs IH]; intros env env' Hk H; simpl in H.
  - inversion H; reflexivity.
  - unfold bind in H. destruct (run c t i env) as [env1 [[b e]|ex]] eqn:R;
      [|discriminate].
    inversion Hk as [|? ? Hne Hrest]; subst.
    rewrite (IH _ _ Hrest H).
    destruct (run_ran_so_far _ _ _ _ _ _ _ R) as (Hran & _).
    rewrite Hran. apply dd2_get_set_ne.
    destruct k as [kc ki]. unfold call_key in Hne. simpl in *. congruence.
Qed.

(** C4. Two runs of the same pair, the second with a larger timeout that the
    ground truth still reaches, with only runs of other pairs in between:
    the second run succeeds and adds exactly [t2 - t1] to
    total_resumed_runtime and to the configuration's accumulator. *)
Theorem resumed_charge_exact
    (env0 env2 : Environment) (c i : Z) (t1 t2 truth : Q) (mid : list call) :
  ground_truth env0 c i = Ok truth ->
  (t1 < t2)%Q -> (t2 <= truth)%Q -> (t2 <= _timeout env0)%Q ->
  Forall (fun cl => call_key cl <> (c, i)) mid ->
  run_calls mid (fst (run c t1 i env0)) = (env2, Ok tt) ->
  exists env3 r,
    run c t2 i env2 = (env3, Ok r) /\
    (_total_resumed_runtime env3 - _total_resumed_runtime env2 == t2 - t1)%Q /\
    (dd_get (_runtime_per_config env3) c
     - dd_get (_runtime_per_config env2) c == t2 - t1)%Q.
Proof.
  intros Hg Hlt Hle Hceil Hmid Hcalls.
  assert (Ht1 : (t1 <= _timeout env0)%Q) by lra.
  destruct (run_success env0 c t1 i truth Ht1 Hg)
    as (env1 & Hrun1 & Hto1 & Hres1 & Hcnt1 & _ & _ & _ & Hran1).
  rewrite Hrun1 in Hcalls. simpl in Hcalls.
  destruct (run_calls_static _ _ _ _ Hcalls) as (Hto2 & Hres2 & Hcnt2).
  assert (Hg2 : ground_truth env2 c i = Ok truth).
  { rewrite <- Hg. apply ground_truth_static; congruence. }
  assert (Ht2 : (t2 <= _timeout env2)%Q) by (rewrite Hto2, Hto1; exact Hceil).
  destruct (run_success env2 c t2 i truth Ht2 Hg2)
    as (env3 & Hrun3 & _ & _ & _ & _ & Htr3 & Hper3 & _).
  exists env3, (Qle_bool t2 truth, Qmin t2 truth).
  split; [exact Hrun3|].
  pose proof (run_calls_other_key mid (c, i) _ _ Hmid Hcalls) as Hsame.
  simpl in Hsame. rewrite Hran1, dd2_get_set_eq in Hsame.
  rewrite Htr3, Hper3, Hsame.
  assert (E1 : (Qmin t1 truth == t1)%Q) by (apply Q.min_l; lra).
  assert (E2 : (Qmin t2 truth == t2)%Q) by (apply Q.min_l; lra).
  split; lra.
Qed.

(** ** The ledger: counters *)

(** C5 fails as stated: on the scenario dataset, running pair (1, 0) with
    timeout 5 and then again with timeout 3 lowers total_resumed_runtime
    from 5 to 3. *)
Lemma counters_never_decrease_fails :
  ~ counters_never_decrease scenario_env [(1, 5%Q, 0); (1, 3%Q, 0)].
Proof.
  intros H.
  destruct (H [(1, 5%Q, 0)] 1 3%Q 0 []
              (fst (run_calls [(1, 5%Q, 0)] (reset scenario_env)))
              (fst (run 1 3%Q 0
                      (fst (run_calls [(1, 5%Q, 0)] (reset scenario_env)))))
              (true, 3%Q) eq_refl) as [_ Hbad].
  - vm_compute. reflexivity.
  - vm_compute. reflexivity.
  - vm_compute in Hbad. apply Hbad. reflexivity.
Qed.

(** C5, amended. For a call with non-negative timeout and ground truth,
    total_runtime never decreases, whatever was run before; and
    total_resumed_runtime does not decrease exactly when the elapsed time of
    the call is at least the elapsed time last recorded for its pair (so a
    retry with an equal timeout is harmless, one with a smaller elapsed time
    lowers the counter). *)
Theorem counters_monotone
    (env env' : Environment) (c : Z) (t : Q) (i : Z) (truth : Q)
    (timed_out : bool) (elapsed : Q) :
  run c t i env = (env', Ok (timed_out, elapsed)) ->
  ground_truth env c i = Ok truth ->
  (0 <= t)%Q -> (0 <= truth)%Q ->
  (_total_runtime env <= _total_runtime env')%Q /\
  ((_total_resumed_runtime env <= _total_resumed_runtime env')%Q <->
   (dd2_get (_ran_so_far env) c i <= elapsed)%Q).
Proof.
  intros Hrun Hg Ht Htruth.
  destruct (run_ran_so_far _ _ _ _ _ _ _ Hrun)
    as (_ & Htot & Hres & _ & truth' & Hg' & He).
  rewrite Hg in Hg'. inversion Hg'; subst truth'.
  assert (Hpos : (0 <= elapsed)%Q).
  { subst elapsed. apply Q.min_glb; assumption. }
  rewrite Htot, Hres. split; [lra|]. split; intros; lra.
Qed.

Lemma counters_monotone_witness :
  (_total_runtime scenario_env
   <= _total_runtime (fst (run 1 5%Q 0 scenario_env)))%Q /\
  ((_total_resumed_runtime scenario_env
    <= _total_resumed_runtime (fst (run 1 5%Q 0 scenario_env)))%Q <->
   (dd2_get (_ran_so_far scenario_env) 1 0 <= 5)%Q).
Proof.
  apply (counters_monotone scenario_env _ 1 5%Q 0 10%Q true 5%Q).
  - vm_compute. reflexivity.
  - vm_compute. reflexivity.
  - vm_compute. discriminate.
  - vm_compute. discriminate.
Defined.

Lemma ground_truth_results (P : Q -> Prop) env c i truth :
  results_all P env -> ground_truth env c i = Ok truth -> P truth.
Proof.
  unfold results_all, ground_truth. intros Hall Hg.
  destruct (py_index (_results env) c) as [row|] eqn:Hrow; [|discriminate].
  destruct (_instance_count env =? 0); [discriminate|].
  destruct (py_index row (i mod _instance_count env)) as [g|] eqn:Hcell;
    [|discriminate].
  inversion Hg; subst g.
  apply py_index_elem in Hrow. apply py_index_elem in Hcell.
  rewrite Forall_forall in Hall. specialize (Hall _ Hrow).
  rewrite Forall_forall in Hall. exact (Hall _ Hcell).
Qed.

Lemma results_all_static (P : Q -> Prop) env env' :
  _results env' = _results env -> results_all P env -> results_all P env'.
Proof. unfold results_all. intros ->. auto. Qed.

(** Non-negative data: the recorded elapsed times stay non-negative and the
    resumed total never exceeds the plain total. *)
Lemma run_calls_resumed_le cs : forall env env',
  results_all (fun g => 0 <= g)%Q env ->
  timeouts_all (fun t => 0 <= t)%Q cs ->
  (forall c i, 0 <= dd2_get (_ran_so_far env) c i)%Q ->
  (_total_resumed_runtime env <= _total_runtime env)%Q ->
  run_calls cs env = (env', Ok tt) ->
  (_total_resumed_runtime env' <= _total_runtime env')%Q.
Proof.
  induction cs as [|[[c t] i] cs IH]; intros env env' Hres Hts Hran Hle H;
    simpl in H.
  - inversion H; subst. exact Hle.
  - unfold bind in H.
    destruct (run c t i env) as [env1 [[b e]|ex]] eqn:R; [|discriminate].
    inversion Hts as [|? ? Ht Hrest]; subst. unfold call_timeout in Ht.
    simpl in Ht.
    destruct (run_ran_so_far _ _ _ _ _ _ _ R)
      as (Hran1 & Htot & Hrs & _ & truth & Hg & He).
    assert (Hpos : (0 <= e)%Q).
    { subst e. apply Q.min_glb; [exact Ht|].
      exact (ground_truth_results _ _ _ _ _ Hres Hg). }
    apply (IH env1 env'); try assumption.
    + destruct (run_static _ _ _ _ _ _ R) as (_ & Hr & _).
      exact (results_all_static _ _ _ Hr Hres).
    + intros c' j. rewrite Hran1.
      destruct (decide ((c', j) = (c, i))) as [[= -> ->]|Hne].
      * rewrite dd2_get_set_eq. exact Hpos.
      * rewrite dd2_get_set_ne by exact Hne. apply Hran.
    + rewrite Htot, Hrs. specialize (Hran c i). lra.
Qed.

Lemma ledger_inv_le env hist :
  ledger_inv env hist ->
  (_total_resumed_runtime env <= _total_runtime env)%Q.
Proof.
  intros (_ & _ & Heq & Hlt).
  destruct (decide (NoDup hist)) as [Hn|Hn].
  - specialize (Heq Hn). lra.
  - specialize (Hlt Hn). lra.
Qed.

Lemma ledger_inv_step env hist c t i env1 r :
  results_all (fun g => 0 < g)%Q env ->
  (0 < t)%Q ->
  ledger_inv env hist ->
  run c t i env = (env1, Ok r) ->
  ledger_inv env1 ((c, i) :: hist).
Proof.
  intros Hres Ht Hinv R. destruct r as [b e].
  pose proof (ledger_inv_le _ _ Hinv) as Hle.
  destruct Hinv as (Hin & Hout & Heq & Hlt).
  destruct (run_ran_so_far _ _ _ _ _ _ _ R)
    as (Hran1 & Htot & Hrs & _ & truth & Hg & He).
  assert (Hpos : (0 < e)%Q).
  { subst e. apply Q.min_glb_lt; [exact Ht|].
    exact (ground_truth_results _ _ _ _ _ Hres Hg). }
  assert (Hprev : (0 <= dd2_get (_ran_so_far env) c i)%Q).
  { destruct (decide ((c, i) ∈ hist)) as [Hi|Hi].
    - specialize (Hin _ _ Hi). lra.
    - specialize (Hout _ _ Hi). lra. }
  unfold ledger_inv. split; [|split; [|split]].
  - intros c' j Hel. rewrite Hran1.
    destruct (decide ((c', j) = (c, i))) as [[= -> ->]|Hne].
    + rewrite dd2_get_set_eq. exact Hpos.
    + rewrite dd2_get_set_ne by exact Hne. apply Hin.
      apply elem_of_cons in Hel. destruct Hel; [contradiction|assumption].
  - intros c' j Hel. rewrite Hran1.
    apply not_elem_of_cons in Hel. destruct Hel as [Hne Hel].
    rewrite dd2_get_set_ne by exact Hne. apply Hout. exact Hel.
  - intros Hnd. apply NoDup_cons in Hnd. destruct Hnd as [Hfresh Hnd].
    specialize (Hout _ _ Hfresh). specialize (Heq Hnd).
    rewrite Htot, Hrs. lra.
  - intros Hnd. rewrite Htot, Hrs.
    destruct (decide ((c, i) ∈ hist)) as [Hi|Hi].
    + specialize (Hin _ _ Hi). lra.
    + assert (Hnd' : ~ NoDup hist).
      { intros Hn. apply Hnd. apply NoDup_cons. split; assumption. }
      specialize (Hlt Hnd'). lra.
Qed.

Lemma ledger_inv_run_calls cs : forall env env' hist,
  results_all (fun g => 0 < g)%Q env ->
  timeouts_all (fun t => 0 < t)%Q cs ->
  ledger_inv env hist ->
  run_calls cs env = (env', Ok tt) ->
  ledger_inv env' (rev (map call_key cs) ++ hist).
Proof.
  induction cs as [|[[c t] i] cs IH]; intros env env' hist Hres Hts Hinv H;
    simpl in H.
  - inversion H; subst. exact Hinv.
  - unfold bind in H.
    destruct (run c t i env) as [env1 [r|ex]] eqn:R; [|discriminate].
    inversion Hts as [|? ? Ht Hrest]; subst.
    simpl. rewrite <- app_assoc. simpl.
    apply (IH env1); try assumption.
    + destruct (run_static _ _ _ _ _ _ R) as (_ & Hr & _).
      exact (results_all_static _ _ _ Hr Hres).
    + eapply ledger_inv_step; eassumption.
Qed.

Lemma ledger_inv_reset env : ledger_inv (reset env) [].
Proof.
  unfold ledger_inv. split; [|split; [|split]].
  - intros c i Hel. apply elem_of_nil in Hel. contradiction.
  - intros c i _. reflexivity.
  - intros _. reflexivity.
  - intros Hnd. exfalso. apply Hnd. constructor.
Qed.

(** C1 fails as stated: on the scenario dataset, running pair (1, 0) twice
    with the same timeout 5 never retries with a larger timeout, yet
    total_resumed_runtime is 5 and total_runtime is 10. *)
Lemma accounting_as_specified_fails :
  ~ accounting_as_specified scenario_env [(1, 5%Q, 0); (1, 5%Q, 0)].
Proof.
  intros H.
  destruct (H (fst (run_calls [(1, 5%Q, 0); (1, 5%Q, 0)] (reset scenario_env))))
    as [_ [_ Heq]].
  - vm_compute. reflexivity.
  - assert (Hno : larger_retry [] [(1, 5%Q, 0); (1, 5%Q, 0)] = false)
      by (vm_compute; reflexivity).
    specialize (Heq Hno). vm_compute in Heq. discriminate Heq.
Qed.

(** C1, amended. On a freshly reset ledger, for calls with non-negative
    timeouts over non-negative ground truths, total_resumed_runtime never
    exceeds total_runtime; and when timeouts and ground truths are strictly
    positive, the two are equal exactly when no (configuration, instance
    slot) pair is queried twice, whatever the timeouts of the repeated
    query. *)
Theorem accounting_invariant
    (env0 env' : Environment) (cs : list call) :
  run_calls cs (reset env0) = (env', Ok tt) ->
  results_all (fun g => 0 <= g)%Q env0 ->
  timeouts_all (fun t => 0 <= t)%Q cs ->
  (_total_resumed_runtime env' <= _total_runtime env')%Q /\
  (results_all (fun g => 0 < g)%Q env0 ->
   timeouts_all (fun t => 0 < t)%Q cs ->
   ((_total_resumed_runtime env' == _total_runtime env')%Q <->
    NoDup (map call_key cs))).
Proof.
  intros Hrun Hres Hts. split.
  - apply (run_calls_resumed_le cs (reset env0) env'); try assumption.
    + intros c i. vm_compute. discriminate.
    + vm_compute. discriminate.
  - intros Hres' Hts'.
    pose proof (ledger_inv_run_calls cs (reset env0) env' [] Hres' Hts'
                  (ledger_inv_reset env0) Hrun) as (_ & _ & Heq & Hlt).
    rewrite app_nil_r in Heq, Hlt.
    assert (Hperm : NoDup (rev (map call_key cs)) <-> NoDup (map call_key cs)).
    { rewrite <- (Permutation_rev (map call_key cs)). reflexivity. }
    split.
    + intros E. destruct (decide (NoDup (rev (map call_key cs)))) as [Hn|Hn].
      * apply Hperm. exact Hn.
      * specialize (Hlt Hn). lra.
    + intros Hn. apply Heq. apply Hperm. exact Hn.
Qed.

Lemma accounting_invariant_witness :
  (_total_resumed_runtime
     (fst (run_calls calls_two_pairs (reset scenario_env)))
   <= _total_runtime
        (fst (run_calls calls_two_pairs (reset scenario_env))))%Q /\
  ((_total_resumed_runtime
      (fst (run_calls calls_two_pairs (reset scenario_env)))
    == _total_runtime
         (fst (run_calls calls_two_pairs (reset scenario_env))))%Q
   <-> NoDup (map call_key calls_two_pairs)).
Proof.
  destruct (accounting_invariant scenario_env
              (fst (run_calls calls_two_pairs (reset scenario_env)))
              calls_two_pairs)
    as [Hle Hiff].
  - vm_compute. reflexivity.
  - unfold results_all. simpl.
    repeat (constructor; try (vm_compute; discriminate)).
  - unfold timeouts_all.
    repeat (constructor; try (vm_compute; discriminate)).
  - split; [exact Hle|]. apply Hiff.
    + unfold results_all. simpl.
      repeat (constructor; try (vm_compute; reflexivity)).
    + unfold timeouts_all.
      repeat (constructor; try (vm_compute; reflexivity)).
Defined.

Lemma run_invalid_timeout_witness :
  snd (run 0 30%Q 0 scenario_env) = Raise ValueError /\
  fst (run 0 30%Q 0 scenario_env) = scenario_env.
Proof.
  destruct (run_invalid_timeout scenario_env 0 30%Q 0) as [Hiff Hsame].
  split.
  - apply Hiff. reflexivity.
  - apply Hsame. apply Hiff. reflexivity.
Defined.

Lemma run_outcome_witness :
  exists env' timed_out elapsed,
    run 1 5%Q 7 scenario_env = (env', Ok (timed_out, elapsed)) /\
    (timed_out = true <-> (10 >= 5)%Q) /\
    elapsed = Qmin 5 10 /\
    (elapsed <= 5)%Q /\ (elapsed <= 10)%Q /\
    ((5 <= 10)%Q -> elapsed = 5%Q) /\
    ((10 < 5)%Q -> elapsed = 10%Q).
Proof.
  apply (run_outcome scenario_env 1 5%Q 7 10%Q).
  - vm_compute. discriminate.
  - vm_compute. reflexivity.
Defined.

Lemma resumed_charge_exact_witness :
  exists env3 r,
    run 1 8%Q 0
      (fst (run_calls calls_other_pairs
              (fst (run 1%Z 5%Q 0%Z scenario_env))))
    = (env3, Ok r) /\
    (_total_resumed_runtime env3
     - _total_resumed_runtime
         (fst (run_calls calls_other_pairs
                 (fst (run 1%Z 5%Q 0%Z scenario_env))))
     == 8 - 5)%Q /\
    (dd_get (_runtime_per_config env3) 1%Z
     - dd_get (_runtime_per_config
                 (fst (run_calls calls_other_pairs
                         (fst (run 1%Z 5%Q 0%Z scenario_env))))) 1%Z
     == 8 - 5)%Q.
Proof.
  apply (resumed_charge_exact scenario_env _ 1 0 5%Q 8%Q 10%Q
           calls_other_pairs).
  - vm_compute. reflexivity.
  - vm_compute. reflexivity.
  - vm_compute. discriminate.
  - vm_compute. discriminate.
  - repeat constructor; unfold call_key; simpl; congruence.
  - vm_compute. reflexivity.
Defined.

(** ** The sequential estimator *)

Section EstimatorFacts.
Context `{Numerics}.
Variables (i : Z) (delta theta : Q) (k : Z) (epsilon zeta : Q) (n : Z).
Variable tau : Q.

Lemma py_div_world {S} (a b : Q) (w : S) : fst (py_div a b w) = w.
Proof. unfold py_div. destruct (Qeqb b 0); reflexivity. Qed.

Lemma ebgstop_schedule_world j st w :
  fst (ebgstop_schedule k zeta n j st w) = w.
Proof.
  unfold ebgstop_schedule, bind, py_div, ret, raise.
  repeat case_match; simplify_eq; reflexivity.
Qed.

Lemma ebgstop_update_world j st elapsed w :
  fst (ebgstop_update delta theta k epsilon zeta n tau j st elapsed w) = w.
Proof.
  unfold ebgstop_update, bind.
  destruct (Qeqb (s_t st - elapsed) 0); [reflexivity|].
  pose proof (ebgstop_schedule_world j st w) as Hs.
  destruct (ebgstop_schedule k zeta n j st w) as [w1 [sched|e]];
    simpl in Hs; subst w1; [|reflexivity].
  unfold lift_opt, py_div, ret, raise.
  repeat case_match; simplify_eq; reflexivity.
Qed.

Lemma ebgstop_update_zero j st elapsed w :
  (s_t st - elapsed == 0)%Q ->
  ebgstop_update delta theta k epsilon zeta n tau j st elapsed w
  = (w, Ok (inl theta)).
Proof.
  intros Hz. unfold ebgstop_update, Qeqb.
  apply Qeq_bool_iff in Hz. rewrite Hz. reflexivity.
Qed.

Lemma ebgstop_update_next j st elapsed w w' st' :
  ebgstop_update delta theta k epsilon zeta n tau j st elapsed w
  = (w', Ok (inr st')) ->
  s_t st' = (s_t st - elapsed)%Q /\ ~ (s_t st - elapsed == 0)%Q.
Proof.
  unfold ebgstop_update, bind, Qeqb.
  destruct (Qeq_bool (s_t st - elapsed) 0) eqn:E; [discriminate|].
  intros Hu. split.
  - destruct (ebgstop_schedule k zeta n j st w) as [w1 [sched|e]];
      [|discriminate].
    unfold lift_opt, py_div, ret, raise in Hu.
    repeat case_match; simplify_eq; reflexivity.
  - intros Hz. apply Qeq_bool_iff in Hz. congruence.
Qed.

Lemma ebgstop_loop_cons j js st w :
  ebgstop_loop i delta theta k epsilon zeta n tau (j :: js) st w
  = match ebgstop_iter i delta theta k epsilon zeta n tau j st w with
    | (w1, Ok (inl v)) => (w1, Ok v)
    | (w1, Ok (inr st')) =>
        ebgstop_loop i delta theta k epsilon zeta n tau js st' w1
    | (w1, Raise e) => (w1, Raise e)
    end.
Proof.
  simpl. unfold bind at 1.
  destruct (ebgstop_iter i delta theta k epsilon zeta n tau j st w)
    as [w1 [[v|st']|e]]; reflexivity.
Qed.

Lemma ebgstop_iter_idle j st w :
  Qltb 0 (s_t st) = false ->
  ebgstop_iter i delta theta k epsilon zeta n tau j st w
  = ebgstop_update delta theta k epsilon zeta n tau j st 0%Q w.
Proof.
  intros Hle. unfold ebgstop_iter, ebgstop_sample, bind. rewrite Hle.
  reflexivity.
Qed.

Lemma ebgstop_iter_run j st w :
  Qltb 0 (s_t st) = true ->
  ebgstop_iter i delta theta k epsilon zeta n tau j st w
  = match run i (Qmin (s_t st) tau) j (env w) with
    | (env1, Ok (timed_out, elapsed)) =>
        ebgstop_update delta theta k epsilon zeta n tau j st elapsed
          {| env := env1;
             run_log := run_log w
               ++ [mkEvent i (Qmin (s_t st) tau) j
                     (Ok (timed_out, elapsed))] |}
    | (env1, Raise e) =>
        ({| env := env1;
            run_log := run_log w
              ++ [mkEvent i (Qmin (s_t st) tau) j (Raise e)] |},
         Raise e)
    end.
Proof.
  intros Hpos. unfold ebgstop_iter, ebgstop_sample, bind, env_run.
  rewrite Hpos.
  destruct (run i (Qmin (s_t st) tau) j (env w)) as [env1 [[b e]|e]];
    reflexivity.
Qed.

(** Once the budget is not positive, no further run is issued. *)
Lemma ebgstop_loop_idle js : forall st w,
  (s_t st <= 0)%Q ->
  run_log (fst (ebgstop_loop i delta theta k epsilon zeta n tau js st w))
  = run_log w.
Proof.
  induction js as [|j js IH]; intros st w Hle.
  - simpl. unfold np_mean, raise, ret. destruct (s_q st); reflexivity.
  - rewrite ebgstop_loop_cons, ebgstop_iter_idle by (apply Qltb_ge; exact Hle).
    pose proof (ebgstop_update_world j st 0%Q w) as Hw.
    destruct (ebgstop_update delta theta k epsilon zeta n tau j st 0 w)
      as [w1 [[v|st']|e]] eqn:U; simpl in Hw; subst w1; try reflexivity.
    apply ebgstop_update_next in U. destruct U as [Ht _].
    apply IH. rewrite Ht. lra.
Qed.

Lemma ebgstop_loop_trace m : forall a st w,
  exists evs,
    run_log (fst (ebgstop_loop i delta theta k epsilon zeta n tau
                    (map Z.of_nat (seq a m)) st w))
    = run_log w ++ evs /\
    budget_trace i tau theta
      (snd (ebgstop_loop i delta theta k epsilon zeta n tau
              (map Z.of_nat (seq a m)) st w))
      (Z.of_nat a) (s_t st) evs.
Proof.
  induction m as [|m IH]; intros a st w.
  - exists []. rewrite app_nil_r. split; [|exact I].
    simpl. unfold np_mean, raise, ret. destruct (s_q st); reflexivity.
  - destruct (Qltb 0 (s_t st)) eqn:Hpos.
    2:{ exists []. rewrite app_nil_r. split; [|exact I].
        apply ebgstop_loop_idle. apply Qltb_ge. exact Hpos. }
    simpl seq. simpl map.
    rewrite ebgstop_loop_cons, ebgstop_iter_run by exact Hpos.
    destruct (run i (Qmin (s_t st) tau) (Z.of_nat a) (env w))
      as [env1 [[timed_out elapsed]|e]] eqn:R.
    2:{ eexists [_]. split; [reflexivity|]. simpl. auto. }
    set (ev := mkEvent i (Qmin (s_t st) tau) (Z.of_nat a)
                 (Ok (timed_out, elapsed))).
    set (w1 := {| env := env1; run_log := run_log w ++ [ev] |}).
    assert (Hel : (0 <= s_t st - elapsed)%Q).
    { destruct (run_ran_so_far _ _ _ _ _ _ _ R)
        as (_ & _ & _ & _ & truth & _ & He).
      pose proof (Q.le_min_l (Qmin (s_t st) tau) truth) as H1.
      pose proof (Q.le_min_l (s_t st) tau) as H2.
      rewrite <- He in H1. lra. }
    pose proof (ebgstop_update_world (Z.of_nat a) st elapsed w1) as Hw.
    destruct (ebgstop_update delta theta k epsilon zeta n tau
                (Z.of_nat a) st elapsed w1) as [w2 [[v|st']|e]] eqn:U;
      simpl in Hw; subst w2.
    + exists [ev]. split; [reflexivity|]. simpl.
      repeat (split; [reflexivity || exact Hel|]).
      split; [|exact I]. intros Hz.
      rewrite (ebgstop_update_zero _ _ _ _ Hz) in U. inversion U. auto.
    + destruct (ebgstop_update_next _ _ _ _ _ _ U) as [Ht Hnz].
      destruct (IH (S a) st' w1) as (evs & Hlog & Htr).
      exists (ev :: evs). split.
      * rewrite Hlog. unfold w1. simpl. rewrite <- app_assoc. reflexivity.
      * simpl. repeat (split; [reflexivity || exact Hel|]).
        split; [intros Hz; contradiction|].
        rewrite <- Ht. replace (Z.of_nat a + 1) with (Z.of_nat (S a)) by lia.
        exact Htr.
    + exists [ev]. split; [reflexivity|]. simpl.
      repeat (split; [reflexivity || exact Hel|]).
      split; [|exact I]. intros Hz.
      rewrite (ebgstop_update_zero _ _ _ _ Hz) in U. inversion U.
Qed.
(** An iteration that falls through to the next one leaves a positive
    budget, provided the budget it found was not negative. *)
Lemma ebgstop_iter_budget j st w w' st' :
  ebgstop_iter i delta theta k epsilon zeta n tau j st w
  = (w', Ok (inr st')) ->
  (0 <= s_t st)%Q -> (0 < s_t st')%Q.
Proof.
  intros Hit Hnn. destruct (Qltb 0 (s_t st)) eqn:Hpos.
  - rewrite ebgstop_iter_run in Hit by exact Hpos.
    destruct (run i (Qmin (s_t st) tau) j (env w))
      as [env1 [[timed_out elapsed]|e]] eqn:R; [|discriminate].
    destruct (run_ran_so_far _ _ _ _ _ _ _ R)
      as (_ & _ & _ & _ & truth & _ & He).
    pose proof (Q.le_min_l (Qmin (s_t st) tau) truth) as H1.
    pose proof (Q.le_min_l (s_t st) tau) as H2.
    rewrite <- He in H1.
    destruct (ebgstop_update_next _ _ _ _ _ _ Hit) as [-> Hnz].
    destruct (Qlt_le_dec 0 (s_t st - elapsed)) as [Hlt|Hle]; [exact Hlt|].
    exfalso. apply Hnz. lra.
  - apply Qltb_ge in Hpos. rewrite ebgstop_iter_idle in Hit
      by (apply Qltb_ge; exact Hpos).
    assert (Hz : (s_t st - 0 == 0)%Q) by lra.
    rewrite (ebgstop_update_zero _ _ _ _ Hz) in Hit. discriminate.
Qed.
End EstimatorFacts.

(** C6. Every run the sequential estimator issues has timeout
    [min(remaining budget, tau)] with [tau = 4*theta/(3*delta)], starting
    from the budget [b*theta]; the elapsed time of each run is deducted from
    the budget, which stays non-negative; and as soon as a deduction leaves
    exactly zero the estimator returns [theta] without a further run.  Seen
    from the loop: an iteration entered with a non-negative budget either
    returns or leaves a positive budget to the next one. *)
Theorem ebgstop_budget_discipline `{Numerics}
    (i b : Z) (delta theta : Q) (k : Z) (epsilon zeta : Q) (n : Z) :
  (forall w : World,
      exists evs,
        run_log (fst (ebgstop_slave_alg i b delta theta k epsilon zeta n w))
        = run_log w ++ evs /\
        budget_trace i (4 * theta / (3 * delta)) theta
          (snd (ebgstop_slave_alg i b delta theta k epsilon zeta n w))
          0 (inject_Z b * theta) evs) /\
  (forall tau j st w w' st',
      ebgstop_iter i delta theta k epsilon zeta n tau j st w
      = (w', Ok (inr st')) ->
      (0 <= s_t st)%Q -> (0 < s_t st')%Q).
Proof.
  split.
  - intros w. unfold ebgstop_slave_alg, bind, py_div.
    destruct (Qeqb (3 * delta) 0).
    + exists []. rewrite app_nil_r. split; [reflexivity|exact I].
    + unfold ret.
      exact (ebgstop_loop_trace i delta theta k epsilon zeta n
               (4 * theta / (3 * delta)) (Z.to_nat b) 0%nat
               (ebgstop_init b theta) w).
  - intros tau j st w w' st'.
    apply ebgstop_iter_budget.
Qed.

Lemma ebgstop_budget_discipline_witness :
  (0 < s_t {| s_t := 25 # 7; s_q := [1%Q]; s_sumq := 1;
              s_sum_q_squared := 1; s_kk := 0; s_x := None |})%Q.
Proof.
  destruct (@ebgstop_budget_discipline flat_numerics 0 2 (9 # 10) (16 # 7) 1
              (9 # 10) (9 # 10) 3) as [_ Hiter].
  apply (Hiter (640 # 189)%Q 0 (ebgstop_init 2 (16 # 7)) scenario_world
           (fst (@ebgstop_iter flat_numerics 0 (9 # 10) (16 # 7) 1 (9 # 10)
                   (9 # 10) 3 (640 # 189) 0 (ebgstop_init 2 (16 # 7))
                   scenario_world))).
  - vm_compute. reflexivity.
  - vm_compute. discriminate.
Defined.

(** Two runs of the estimator on the scenario dataset.  Configuration 1
    (ground truth 10) with [b = 2], [theta = 1], [delta = 1/3]: the budget
    is 2, [tau] is 4, the single run has timeout 2 and uses the budget up,
    and the estimator returns [theta]. *)
Example ebgstop_budget_exhausted :
  let res := @ebgstop_slave_alg flat_numerics 1 2 (1 # 3) 1 1 (9 # 10)
               (9 # 10) 3 scenario_world in
  snd res = Ok 1%Q /\
  map (fun ev => (ev_timeout ev, ev_instance ev, ev_result ev))
      (run_log (fst res))
  = [(Qmin (inject_Z 2 * 1) (4 * 1 / (3 * (1 # 3))), 0, Ok (true, 2%Q))].
Proof. vm_compute. split; reflexivity. Qed.

(** Configuration 0 (ground truth 1) with [b = 2], [theta = 16/7],
    [delta = 0.9]: two runs, each of elapsed time 1, and the mean 1 is
    returned. *)
Example ebgstop_two_runs :
  let res := @ebgstop_slave_alg flat_numerics 0 2 (9 # 10) (16 # 7) 1
               (9 # 10) (9 # 10) 3 scenario_world in
  snd res = Ok (2 # 2)%Q /\
  map (fun ev => (ev_instance ev, ev_result ev)) (run_log (fst res))
  = [(0, Ok (false, 1%Q)); (1, Ok (false, 1%Q))].
Proof. vm_compute. split; reflexivity. Qed.

(** ** The Leaps-and-Bounds round loop *)

Lemma first_extremum_min (l : list Q) : forall idx bi bv,
  let res := first_extremum Qltb l idx bi bv in
  (snd res <= bv)%Q /\
  Forall (fun e => (snd res <= e)%Q) l /\
  ((fst res = bi /\ snd res = bv) \/
   exists p : nat,
     fst res = idx + Z.of_nat p /\ l !! p = Some (snd res) /\
     (snd res < bv)%Q /\
     forall p' e, (p' < p)%nat -> l !! p' = Some e -> (snd res < e)%Q).
Proof.
  induction l as [|a rest IH]; intros idx bi bv; simpl.
  - split; [lra|]. split; [constructor|]. left. auto.
  - destruct (Qltb a bv) eqn:E.
    + apply Qltb_lt in E.
      destruct (IH (idx + 1) idx a) as (Hle & Hall & Hidx).
      split; [lra|]. split; [constructor; assumption|].
      right. destruct Hidx as [[Hi Hv]|(p & Hi & Hv & Hlt & Hfirst)].
      * exists 0%nat. rewrite Hi, Hv. simpl.
        split; [lia|]. split; [reflexivity|]. split; [exact E|].
        intros p' e Hp. lia.
      * exists (S p). split; [lia|]. split; [exact Hv|]. split; [lra|].
        intros [|p'] e Hp He; simpl in He.
        -- inversion He; subst e. exact Hlt.
        -- apply (Hfirst p' e); [lia|exact He].
    + apply Qltb_ge in E.
      destruct (IH (idx + 1) bi bv) as (Hle & Hall & Hidx).
      split; [exact Hle|]. split; [constructor; [lra|assumption]|].
      destruct Hidx as [[Hi Hv]|(p & Hi & Hv & Hlt & Hfirst)].
      * left. auto.
      * right. exists (S p). split; [lia|]. split; [exact Hv|].
        split; [exact Hlt|].
        intros [|p'] e Hp He; simpl in He.
        -- inversion He; subst e. lra.
        -- apply (Hfirst p' e); [lia|exact He].
Qed.

(** [np.argmin] and [np.min] on a non-empty list: the index is valid, holds
    the minimum, and is the first index that does. *)
Lemma np_argmin_spec (l : list Q) :
  l <> [] ->
  exists best least,
    np_argmin l = Some best /\ np_min l = Some least /\
    py_index l best = Some least /\
    Forall (fun e => (least <= e)%Q) l /\
    (forall j e, 0 <= j < best -> py_index l j = Some e -> (least < e)%Q).
Proof.
  destruct l as [|a rest]; [congruence|]. intros _.
  unfold np_argmin, np_min.
  pose proof (first_extremum_min rest 1 0 a) as (Hle & Hall & Hidx).
  set (res := first_extremum Qltb rest 1 0 a) in *.
  exists (fst res), (snd res).
  split; [reflexivity|]. split; [reflexivity|].
  destruct Hidx as [[Hi Hv]|(p & Hi & Hv & Hlt & Hfirst)].
  - rewrite Hi, Hv. split; [reflexivity|].
    split; [constructor; [lra|rewrite <- Hv; exact Hall]|].
    intros j e Hj. lia.
  - assert (Hp : (p < length rest)%nat) by (eapply lookup_lt_Some; exact Hv).
    split.
    { rewrite Hi. unfold py_index. simpl length.
      replace ((0 <=? 1 + Z.of_nat p)
               && (1 + Z.of_nat p <? Z.of_nat (S (length rest)))) with true
        by (symmetry; apply andb_true_iff; split;
            [apply Z.leb_le|apply Z.ltb_lt]; lia).
      replace (Z.to_nat (1 + Z.of_nat p)) with (S p) by lia.
      exact Hv. }
    split; [constructor; [lra|exact Hall]|].
    intros j e Hj Hje. unfold py_index in Hje. simpl length in Hje.
    replace ((0 <=? j) && (j <? Z.of_nat (S (length rest)))) with true in Hje
      by (symmetry; apply andb_true_iff; split;
          [apply Z.leb_le|apply Z.ltb_lt]; lia).
    destruct (Z.to_nat j) as [|j'] eqn:Ej; simpl in Hje.
    + inversion Hje; subst e. exact Hlt.
    + apply (Hfirst j' e); [lia|exact Hje].
Qed.

Section LeapsFacts.
Context `{Numerics}.
Variables (n : Z) (epsilon delta zeta theta_multiplier : Q).

Lemma min_below_iff (q_hat : list Q) (theta least : Q) :
  least ∈ q_hat ->
  Forall (fun e => (least <= e)%Q) q_hat ->
  (Qltb least theta = true <-> Exists (fun e => (e < theta)%Q) q_hat).
Proof.
  intros Hin Hall. rewrite Qltb_lt. split.
  - intros Hlt. apply Exists_exists. exists least. split; assumption.
  - intros Hex. apply Exists_exists in Hex. destruct Hex as (e & He & Hlt).
    rewrite Forall_forall in Hall. specialize (Hall e He). lra.
Qed.

Lemma round_decision_spec (q_hat : list Q) (theta : Q) (w : World) :
  q_hat <> [] ->
  ~ (3 * delta == 0)%Q ->
  (Exists (fun e => (e < theta)%Q) q_hat ->
   exists best est,
     round_decision delta theta_multiplier q_hat theta w
     = (w, Ok (inl (best, est, (4 * theta / (3 * delta))%Q))) /\
     py_index q_hat best = Some est /\
     Forall (fun e => (est <= e)%Q) q_hat /\
     (forall j e, 0 <= j < best -> py_index q_hat j = Some e ->
                  (est < e)%Q)) /\
  (~ Exists (fun e => (e < theta)%Q) q_hat ->
   round_decision delta theta_multiplier q_hat theta w
   = (w, Ok (inr (theta * theta_multiplier)%Q))).
Proof.
  intros Hne Hd.
  destruct (np_argmin_spec q_hat Hne)
    as (best & least & Harg & Hmin & Hidx & Hall & Hfirst).
  pose proof (min_below_iff q_hat theta least
                (py_index_elem _ _ _ Hidx) Hall) as Hiff.
  assert (Hdz : Qeqb (3 * delta) 0 = false).
  { unfold Qeqb. destruct (Qeq_bool (3 * delta) 0) eqn:E; [|reflexivity].
    apply Qeq_bool_iff in E. contradiction. }
  unfold round_decision, bind. rewrite Hmin. simpl.
  split.
  - intros Hex. apply Hiff in Hex. rewrite Hex, Harg. simpl.
    rewrite Hidx. simpl. unfold py_div. rewrite Hdz.
    exists best, least. auto.
  - intros Hex. destruct (Qltb least theta) eqn:E; [|reflexivity].
    exfalso. apply Hex, Hiff. reflexivity.
Qed.

Lemma round_budget_ok (k : Z) (w w1 : World) (b : Z) :
  round_budget n epsilon delta zeta k w = (w1, Ok b) ->
  w1 = w /\ ~ (3 * delta == 0)%Q.
Proof.
  unfold round_budget, bind, py_div, math_log, ret, raise.
  intros Hb. repeat case_match; simplify_eq.
  split; [reflexivity|].
  match goal with
  | E : Qeqb (delta * epsilon * epsilon) 0 = false |- _ =>
      unfold Qeqb in E; intros Hz;
      assert (Hz' : (delta * epsilon * epsilon == 0)%Q) by nra;
      apply Qeq_bool_iff in Hz'; congruence
  end.
Qed.

Lemma round_estimates_length (configs : list Z) (b : Z) (theta : Q) (k : Z) :
  forall w w' q_hat,
    round_estimates n epsilon delta zeta configs b theta k w
    = (w', Ok q_hat) ->
    length q_hat = length configs.
Proof.
  induction configs as [|i rest IH]; intros w w' q_hat Hr; simpl in Hr.
  - inversion Hr. reflexivity.
  - unfold bind in Hr.
    destruct (ebgstop_slave_alg i b delta theta k epsilon zeta n w)
      as [w1 [v|e]]; [|discriminate].
    destruct (round_estimates n epsilon delta zeta rest b theta k w1)
      as [w2 [l|e]] eqn:E; [|discriminate].
    inversion Hr; subst. simpl. f_equal. eapply IH. exact E.
Qed.
End LeapsFacts.

(** C7 fails as stated in its last clause: with [k0 = -1] the first
    threshold is [-16/7], no estimate is below it, and the multiplier 5/4
    hands the next round the smaller threshold [-20/7]. *)
Lemma escalation_as_specified_fails :
  ~ @escalation_as_specified coarse_numerics
      3 (9 # 10) (9 # 10) (9 # 10) (5 # 4) (-1) scenario_world.
Proof.
  intros Hspec.
  assert (Hmult : (1 <= 5 # 4)%Q) by (vm_compute; discriminate).
  pose (w2 := fst (@round_estimates coarse_numerics 3 (9 # 10) (9 # 10)
                     (9 # 10) (xrange 3) 381 (-1 * 16 / 7) 1 scenario_world)).
  pose (q_hat := estimates_of
                    (snd (@round_estimates coarse_numerics 3 (9 # 10)
                            (9 # 10) (9 # 10) (xrange 3) 381
                            (-1 * 16 / 7) 1 scenario_world))).
  specialize (Hspec Hmult scenario_world 381 w2 q_hat w2
                (-1 * 16 / 7 * (5 # 4))%Q).
  assert (Hbad : (-1 * 16 / 7 <= -1 * 16 / 7 * (5 # 4))%Q).
  { apply Hspec; vm_compute; reflexivity. }
  vm_compute in Hbad. apply Hbad. reflexivity.
Qed.

(** C7, amended. In a round whose estimates were computed, the loop returns
    exactly when some estimate is strictly below the round's [theta]; it
    then returns the first index of the minimum estimate, that estimate, and
    [4*theta/(3*delta)]; otherwise the next round starts with
    [theta * theta_multiplier], which for a multiplier of at least one and a
    non-negative [theta] is not below [theta] (and is again non-negative). *)
Theorem leaps_round `{Numerics}
    (n : Z) (epsilon delta zeta theta_multiplier : Q)
    (fuel : nat) (theta : Q) (k : Z) (w w1 w2 : World) (b : Z)
    (q_hat : list Q) :
  0 < n ->
  round_budget n epsilon delta zeta (k + 1) w = (w1, Ok b) ->
  round_estimates n epsilon delta zeta (xrange n) b theta (k + 1) w1
  = (w2, Ok q_hat) ->
  (Exists (fun e => (e < theta)%Q) q_hat ->
   exists best est,
     leaps_and_bounds_loop n epsilon delta zeta theta_multiplier
       (S fuel) theta k w
     = (w2, Ok (best, est, (4 * theta / (3 * delta))%Q)) /\
     py_index q_hat best = Some est /\
     Forall (fun e => (est <= e)%Q) q_hat /\
     (forall j e, 0 <= j < best -> py_index q_hat j = Some e -> (est < e)%Q)) /\
  (~ Exists (fun e => (e < theta)%Q) q_hat ->
   leaps_and_bounds_loop n epsilon delta zeta theta_multiplier
     (S fuel) theta k w
   = leaps_and_bounds_loop n epsilon delta zeta theta_multiplier
       fuel (theta * theta_multiplier)%Q (k + 1) w2) /\
  ((1 <= theta_multiplier)%Q -> (0 <= theta)%Q ->
   (theta <= theta * theta_multiplier)%Q /\
   (0 <= theta * theta_multiplier)%Q).
Proof.
  intros Hn Hb Hest.
  destruct (round_budget_ok _ _ _ _ _ _ _ _ Hb) as [Hw Hd].
  assert (Hne : q_hat <> []).
  { apply round_estimates_length in Hest.
    unfold xrange in Hest. rewrite length_map, length_seq in Hest.
    destruct q_hat; [simpl in Hest; lia|discriminate]. }
  destruct (round_decision_spec delta theta_multiplier q_hat theta w2 Hne Hd)
    as [Hret Hnext].
  assert (Hloop :
    leaps_and_bounds_loop n epsilon delta zeta theta_multiplier
      (S fuel) theta k w
    = match round_decision delta theta_multiplier q_hat theta w2 with
      | (w3, Ok (inl result)) => (w3, Ok result)
      | (w3, Ok (inr theta')) =>
          leaps_and_bounds_loop n epsilon delta zeta theta_multiplier
            fuel theta' (k + 1) w3
      | (w3, Raise e) => (w3, Raise e)
      end).
  { simpl. unfold bind at 1. rewrite Hb.
    unfold bind at 1. rewrite Hest. unfold bind at 1.
    destruct (round_decision delta theta_multiplier q_hat theta w2)
      as [w3 [[res|theta']|e]]; reflexivity. }
  split; [|split].
  - intros Hex. destruct (Hret Hex) as (best & est & Hdec & Hrest).
    exists best, est. rewrite Hloop, Hdec. split; [reflexivity|exact Hrest].
  - intros Hex. rewrite Hloop, (Hnext Hex). reflexivity.
  - intros Hm Ht. split; nra.
Qed.

Lemma leaps_round_witness :
  (Exists (fun e => (e < 16 # 7)%Q) scenario_q_hat ->
   exists best est,
     @leaps_and_bounds_loop flat_numerics 3 (9 # 10) (9 # 10) (9 # 10)
       (5 # 4) 1 (16 # 7) 0 scenario_world
     = (fst scenario_round, Ok (best, est, (4 * (16 # 7) / (3 * (9 # 10)))%Q)) /\
     py_index scenario_q_hat best = Some est /\
     Forall (fun e => (est <= e)%Q) scenario_q_hat /\
     (forall j e, 0 <= j < best -> py_index scenario_q_hat j = Some e ->
                  (est < e)%Q)) /\
  (~ Exists (fun e => (e < 16 # 7)%Q) scenario_q_hat ->
   @leaps_and_bounds_loop flat_numerics 3 (9 # 10) (9 # 10) (9 # 10)
     (5 # 4) 1 (16 # 7) 0 scenario_world
   = @leaps_and_bounds_loop flat_numerics 3 (9 # 10) (9 # 10) (9 # 10)
       (5 # 4) 0 ((16 # 7) * (5 # 4))%Q (0 + 1) (fst scenario_round)) /\
  ((1 <= 5 # 4)%Q -> (0 <= 16 # 7)%Q ->
   ((16 # 7) <= (16 # 7) * (5 # 4))%Q /\ (0 <= (16 # 7) * (5 # 4))%Q).
Proof.
  apply (@leaps_round flat_numerics 3 (9 # 10) (9 # 10) (9 # 10) (5 # 4)
           0%nat (16 # 7) 0 scenario_world scenario_world
           (fst scenario_round) 2 scenario_q_hat).
  - lia.
  - vm_compute. reflexivity.
  - vm_compute. reflexivity.
Defined.

(** The scenario round does return configuration 0 with estimate 1. *)
Example leaps_scenario_returns :
  snd (@leaps_and_bounds flat_numerics 3 (9 # 10) (9 # 10) (9 # 10)
         (5 # 4) 1 1 scenario_world)
  = Ok (0, (2 # 2)%Q, (640 # 189)%Q).
Proof. vm_compute. reflexivity. Qed.

(** ** Structured Procrastination *)

Lemma py_index_nonneg {A} (l : list A) (i : Z) (x : A) :
  0 <= i -> py_index l i = Some x -> l !! Z.to_nat i = Some x.
Proof.
  intros Hi. unfold py_index.
  destruct ((0 <=? i) && (i <? Z.of_nat (length l))); [auto|].
  destruct ((- Z.of_nat (length l) <=? i) && (i <? 0)) eqn:E; [|discriminate].
  apply andb_true_iff in E. destruct E as [_ E]. apply Z.ltb_lt in E. lia.
Qed.

Lemma py_index_lookup {A} (l : list A) (i : Z) (x : A) :
  0 <= i -> l !! Z.to_nat i = Some x -> py_index l i = Some x.
Proof.
  intros Hi Hl. unfold py_index.
  pose proof (lookup_lt_Some _ _ _ Hl) as Hlt.
  replace ((0 <=? i) && (i <? Z.of_nat (length l))) with true; [exact Hl|].
  symmetry. apply andb_true_iff. split; [apply Z.leb_le|apply Z.ltb_lt]; lia.
Qed.

Lemma py_store_nonneg {A} (l l' : list A) (i : Z) (x : A) :
  0 <= i -> py_store l i x = Some l' ->
  l' = <[Z.to_nat i := x]> l /\ (Z.to_nat i < length l)%nat.
Proof.
  intros Hi. unfold py_store.
  destruct ((0 <=? i) && (i <? Z.of_nat (length l))) eqn:E.
  - apply andb_true_iff in E. destruct E as [_ E]. apply Z.ltb_lt in E.
    intros [= <-]. split; [reflexivity|lia].
  - destruct ((- Z.of_nat (length l) <=? i) && (i <? 0)) eqn:E2;
      [|discriminate].
    apply andb_true_iff in E2. destruct E2 as [_ E2]. apply Z.ltb_lt in E2.
    lia.
Qed.

Lemma elem_of_heappush (heap : list (Q * Z)) (item x : Q * Z) :
  x ∈ heappush heap item -> x = item \/ x ∈ heap.
Proof.
  induction heap as [|least rest IH]; simpl.
  - intros Hx. apply list_elem_of_singleton in Hx. auto.
  - destruct (tuple_ltb item least).
    + intros Hx. apply elem_of_cons in Hx. tauto.
    + intros Hx. apply elem_of_cons in Hx. destruct Hx as [->|Hx].
      * right. apply elem_of_cons. auto.
      * destruct (IH Hx) as [->|Hin]; [auto|].
        right. apply elem_of_cons. auto.
Qed.

(** Inversion of the monad operations on a normal result. *)
Lemma bind_ok {S A B} (m : M S A) (f : A -> M S B) (s s' : S) (b : B) :
  bind m f s = (s', Ok b) ->
  exists s1 a, m s = (s1, Ok a) /\ f a s1 = (s', Ok b).
Proof.
  unfold bind. destruct (m s) as [s1 [a|e]]; [eauto|discriminate].
Qed.

Lemma lift_opt_ok {S A} (e : exn) (o : option A) (s s' : S) (a : A) :
  lift_opt e o s = (s', Ok a) -> o = Some a /\ s' = s.
Proof.
  destruct o; unfold lift_opt, ret, raise; intros [= ]; subst; auto.
Qed.

Lemma ret_ok {S A} (a a' : A) (s s' : S) :
  ret a s = (s', Ok a') -> a' = a /\ s' = s.
Proof. unfold ret. intros [= ]; subst; auto. Qed.

Lemma py_div_ok {S} (a b q : Q) (s s' : S) :
  py_div a b s = (s', Ok q) -> Qeqb b 0 = false /\ q = (a / b)%Q /\ s' = s.
Proof.
  unfold py_div, ret, raise. destruct (Qeqb b 0); intros [= ]; subst; auto.
Qed.

Lemma int_ceil_ok {S} (x : float64) (z : Z) (s s' : S) :
  int_ceil x s = (s', Ok z) -> exists q, x = F64 q /\ z = Qceiling q /\ s' = s.
Proof.
  destruct x; unfold int_ceil, ret, raise; intros [= ]; subst; eauto.
Qed.

Ltac bind_step H :=
  let w := fresh "w" in
  let a := fresh "a" in
  let Hm := fresh "Hm" in
  apply bind_ok in H; destruct H as (w & a & Hm & H);
  try (apply lift_opt_ok in Hm; destruct Hm as [Hm ->]).

Section ProcrastinationFacts.
Context `{Numerics}.
Variables (n : Z) (epsilon delta zeta k0 k_bar theta_multiplier : Q).
Variable beta : float64.

Lemma sp_advance_inv st w w1 i st1 :
  sp_advance n epsilon zeta theta_multiplier beta st w = (w1, Ok (i, st1)) ->
  exists key r_i ll r_i_ll,
    sp_heap st = (key, i) :: sp_heap st1 /\
    py_index (sp_r st) i = Some r_i /\
    py_index r_i ll = Some r_i_ll /\
    (if Qeqb r_i_ll 0
     then exists k_i, py_index (sp_k st) i = Some k_i /\
                      py_store (sp_k st) i (k_i + 1) = Some (sp_k st1)
     else sp_k st1 = sp_k st) /\
    (exists r_new, py_store (sp_r st) i r_new = Some (sp_r st1)) /\
    (exists v, py_store (sp_r_sum st) i v = Some (sp_r_sum st1)).
Proof.
  unfold sp_advance. intros Hadv.
  bind_step Hadv. bind_step Hadv.
  destruct a0 as [|[ll theta] q_i]; [discriminate|].
  bind_step Hadv. bind_step Hadv.
  bind_step Hadv. bind_step Hadv.
  do 8 bind_step Hadv.
  apply ret_ok in Hadv. destruct Hadv as [Heq ->].
  destruct a as [[key i0] heap']. simpl in *.
  inversion Heq; subst; clear Heq. simpl.
  exists key, a0, ll, a1.
  split.
  { unfold heappop in Hm. destruct (sp_heap st); inversion Hm. reflexivity. }
  split; [assumption|]. split; [assumption|].
  split.
  { destruct (Qeqb a1 0).
    - do 5 bind_step Hm3. apply ret_ok in Hm3. destruct Hm3 as [-> _].
      simpl. eauto.
    - apply ret_ok in Hm3. destruct Hm3 as [-> _]. reflexivity. }
  split; eauto.
Qed.

Lemma sp_setup_inv configs : forall st w w' st',
  Forall (fun i => 0 <= i) configs ->
  sp_inv st ->
  sp_setup n epsilon zeta k0 beta configs st w = (w', Ok st') ->
  sp_inv st'.
Proof.
  induction configs as [|i rest IH]; intros st w w' st' Hpos Hinv Hs;
    simpl in Hs.
  - apply ret_ok in Hs. destruct Hs as [-> _]. exact Hinv.
  - bind_step Hs. apply py_div_ok in Hm. destruct Hm as (_ & -> & ->).
    bind_step Hs. apply int_ceil_ok in Hm.
    destruct Hm as (log_val & _ & -> & ->).
    inversion Hpos as [|? ? Hi Hrest]; subst.
    eapply IH; [exact Hrest| |exact Hs].
    destruct Hinv as (Hlen & Hheap & Hk).
    unfold sp_inv. simpl. split; [|split].
    + rewrite !length_app. simpl. lia.
    + intros item Hin. apply elem_of_heappush in Hin.
      destruct Hin as [->|Hin]; [exact Hi|apply Hheap; exact Hin].
    + intros j k_j r_j Hkj Hrj.
      destruct (decide (j < length (sp_k st))%nat) as [Hlt|Hge].
      * rewrite lookup_app_l in Hkj by exact Hlt.
        rewrite lookup_app_l in Hrj by lia.
        eapply Hk; eassumption.
      * rewrite lookup_app_r in Hkj by lia.
        rewrite lookup_app_r in Hrj by lia.
        rewrite <- Hlen in Hrj.
        destruct (j - length (sp_k st))%nat as [|j']; simpl in Hkj, Hrj;
          [|rewrite lookup_nil in Hkj; discriminate].
        inversion Hkj; inversion Hrj; subst.
        right. split; [reflexivity|].
        unfold all_zero. apply Forall_forall. intros c Hc.
        apply list_elem_of_fmap in Hc. destruct Hc as (? & -> & _).
        reflexivity.
Qed.

Lemma sp_empty_inv : sp_inv sp_empty.
Proof.
  unfold sp_inv. simpl. split; [reflexivity|]. split.
  - intros item Hin. apply elem_of_nil in Hin. contradiction.
  - intros j k_j r_j Hkj. rewrite lookup_nil in Hkj. discriminate.
Qed.

(** After the part of a pass that precedes the re-insertion, the popped
    configuration has a generation counter of at least one. *)
Lemma sp_advance_counter st w w1 i st1 :
  sp_inv st ->
  sp_advance n epsilon zeta theta_multiplier beta st w = (w1, Ok (i, st1)) ->
  0 <= i /\
  (exists k_i, py_index (sp_k st1) i = Some k_i /\ 1 <= k_i) /\
  (exists r_sum_i, py_index (sp_r_sum st1) i = Some r_sum_i) /\
  sp_inv st1.
Proof.
  intros (Hlen & Hheap & Hk) Hadv.
  destruct (sp_advance_inv _ _ _ _ _ Hadv)
    as (key & r_i & ll & r_i_ll & Hh & Hri & Hrill & Hkk & [r_new Hr]
        & [v Hsum]).
  assert (Hi : 0 <= i).
  { apply (Hheap (key, i)). rewrite Hh. apply elem_of_cons. auto. }
  apply (py_index_nonneg _ _ _ Hi) in Hri.
  destruct (py_store_nonneg _ _ _ _ Hi Hr) as [Hr1 Hrlen].
  destruct (py_store_nonneg _ _ _ _ Hi Hsum) as [Hs1 Hslen].
  destruct (lookup_lt_is_Some_2 (sp_k st) (Z.to_nat i)) as [k_old Hkold];
    [lia|].
  assert (Hk1 : exists k_new, 1 <= k_new /\
            ((sp_k st1 = <[Z.to_nat i := k_new]> (sp_k st))
             \/ (sp_k st1 = sp_k st /\ k_new = k_old))).
  { destruct (Qeqb r_i_ll 0) eqn:Ez.
    - destruct Hkk as (k_i & Hki & Hst).
      apply (py_index_nonneg _ _ _ Hi) in Hki.
      rewrite Hkold in Hki. inversion Hki; subst k_i.
      destruct (py_store_nonneg _ _ _ _ Hi Hst) as [Hk1 _].
      exists (k_old + 1). split; [|left; exact Hk1].
      destruct (Hk _ _ _ Hkold Hri) as [Hge|[-> _]]; lia.
    - exists k_old. split; [|right; auto].
      destruct (Hk _ _ _ Hkold Hri) as [Hge|[_ Hzero]]; [exact Hge|].
      exfalso. apply py_index_elem in Hrill.
      unfold all_zero in Hzero. rewrite Forall_forall in Hzero.
      specialize (Hzero _ Hrill). congruence. }
  destruct Hk1 as (k_new & Hge & Hk1).
  assert (Hknew : sp_k st1 !! Z.to_nat i = Some k_new).
  { destruct Hk1 as [->|[-> ->]]; [|exact Hkold].
    apply list_lookup_insert_eq. lia. }
  assert (Hklen : length (sp_k st1) = length (sp_k st)).
  { destruct Hk1 as [->|[-> _]]; [apply length_insert|reflexivity]. }
  split; [exact Hi|]. split.
  { exists k_new. split; [|exact Hge]. apply py_index_lookup; assumption. }
  split.
  { exists v. apply py_index_lookup; [exact Hi|]. rewrite Hs1.
    apply list_lookup_insert_eq. exact Hslen. }
  unfold sp_inv. split; [|split].
  - rewrite Hklen, Hr1, length_insert. exact Hlen.
  - intros item Hin. apply Hheap. rewrite Hh. apply elem_of_cons. auto.
  - intros j k_j r_j Hkj Hrj.
    destruct (decide (j = Z.to_nat i)) as [->|Hne].
    + rewrite Hknew in Hkj. inversion Hkj; subst. left. exact Hge.
    + rewrite Hr1, list_lookup_insert_ne in Hrj by congruence.
      destruct Hk1 as [Hk1|[Hk1 _]]; rewrite Hk1 in Hkj.
      * rewrite list_lookup_insert_ne in Hkj by congruence.
        eapply Hk; eassumption.
      * eapply Hk; eassumption.
Qed.

Lemma sp_reinsert_ok i st w k_i r_sum_i :
  py_index (sp_r_sum st) i = Some r_sum_i ->
  py_index (sp_k st) i = Some k_i ->
  1 <= k_i ->
  exists st',
    sp_reinsert i st w = (w, Ok st') /\
    sp_heap st' = heappush (sp_heap st) ((r_sum_i / inject_Z k_i)%Q, i) /\
    sp_k st' = sp_k st /\ sp_r st' = sp_r st /\
    sp_current_delta st' = sp_current_delta st /\
    sp_iter_count st' = sp_iter_count st.
Proof.
  intros Hs Hk Hge. unfold sp_reinsert, bind. rewrite Hs, Hk. simpl.
  unfold py_div.
  assert (Hnz : Qeqb (inject_Z k_i) 0 = false).
  { unfold Qeqb. destruct (Qeq_bool (inject_Z k_i) 0) eqn:E; [|reflexivity].
    apply Qeq_bool_iff in E. unfold Qeq in E. simpl in E. lia. }
  rewrite Hnz. eexists. split; [reflexivity|]. simpl. auto.
Qed.

Lemma sp_reinsert_inv i st w w' st' :
  0 <= i -> sp_inv st -> sp_reinsert i st w = (w', Ok st') -> sp_inv st'.
Proof.
  intros Hi (Hlen & Hheap & Hk) Hre. unfold sp_reinsert in Hre.
  do 3 bind_step Hre. apply ret_ok in Hre. destruct Hre as [-> _].
  unfold sp_inv. simpl. split; [exact Hlen|]. split; [|exact Hk].
  intros item Hin. apply elem_of_heappush in Hin.
  destruct Hin as [->|Hin]; [exact Hi|apply Hheap; exact Hin].
Qed.

Lemma sp_recompute_inv st w w' st' :
  sp_inv st -> sp_recompute epsilon st w = (w', Ok st') -> sp_inv st'.
Proof.
  intros Hinv Hre. unfold sp_recompute in Hre.
  destruct (sp_iter_count st mod 10000 =? 0).
  - do 3 bind_step Hre. apply ret_ok in Hre. destruct Hre as [-> _].
    exact Hinv.
  - apply ret_ok in Hre. destruct Hre as [-> _]. exact Hinv.
Qed.

Lemma sp_iter_inv st w w' st' :
  sp_inv st ->
  sp_iter n epsilon zeta theta_multiplier beta st w = (w', Ok st') ->
  sp_inv st'.
Proof.
  intros Hinv Hit. unfold sp_iter in Hit.
  bind_step Hit. bind_step Hit. destruct a as [i st1]. simpl in *.
  destruct (sp_advance_counter _ _ _ _ _ Hinv Hm) as (Hi & _ & _ & Hinv1).
  eapply sp_recompute_inv; [|exact Hit].
  eapply sp_reinsert_inv; eassumption.
Qed.

Lemma sp_reachable_inv st :
  sp_reachable n epsilon delta zeta k0 theta_multiplier beta st -> sp_inv st.
Proof.
  induction 1 as [w w' st Hs|w w' st st' _ IH _ Hit].
  - eapply sp_setup_inv; [|exact sp_empty_inv|exact Hs].
    unfold xrange. apply Forall_forall. intros i Hin.
    apply list_elem_of_fmap in Hin. destruct Hin as (m & -> & _). lia.
  - eapply sp_iter_inv; eassumption.
Qed.
End ProcrastinationFacts.

(** C10. In every state the main loop can reach, once a pass has popped
    configuration [i] and arrived at the re-insertion, [k[i]] is at least 1
    (the first slot popped for a configuration has charge zero, which
    increments its counter), so the key [r_sum[i] / k[i]] is computed
    without a division by zero and the re-insertion succeeds. *)
Theorem sp_key_division_safe `{Numerics}
    (n : Z) (epsilon delta zeta k0 theta_multiplier : Q) (beta : float64)
    (st st1 : sp_state) (w w1 : World) (i : Z) :
  sp_reachable n epsilon delta zeta k0 theta_multiplier beta st ->
  sp_advance n epsilon zeta theta_multiplier beta st w = (w1, Ok (i, st1)) ->
  (exists k_i, py_index (sp_k st1) i = Some k_i /\ 1 <= k_i) /\
  snd (sp_reinsert i st1 w1) <> Raise ZeroDivisionError /\
  (exists st2, sp_reinsert i st1 w1 = (w1, Ok st2) /\ sp_k st2 = sp_k st1).
Proof.
  intros Hreach Hadv.
  pose proof (sp_reachable_inv _ _ _ _ _ _ _ _ Hreach) as Hinv.
  destruct (sp_advance_counter _ _ _ _ _ _ _ _ _ _ Hinv Hadv)
    as (_ & (k_i & Hk & Hge) & (r_sum_i & Hs) & _).
  destruct (sp_reinsert_ok i st1 w1 k_i r_sum_i Hs Hk Hge)
    as (st2 & Hre & _ & Hk2 & _).
  split; [eauto|]. split.
  - rewrite Hre. simpl. discriminate.
  - exists st2. auto.
Qed.

Lemma sp_key_division_safe_witness :
  (exists k_i,
      py_index (sp_k (snd (sp_pass_of (snd scenario_sp_pass)))) 0 = Some k_i
      /\ 1 <= k_i) /\
  snd (sp_reinsert 0 (snd (sp_pass_of (snd scenario_sp_pass)))
         (fst scenario_sp_pass)) <> Raise ZeroDivisionError /\
  (exists st2,
      sp_reinsert 0 (snd (sp_pass_of (snd scenario_sp_pass)))
        (fst scenario_sp_pass) = (fst scenario_sp_pass, Ok st2) /\
      sp_k st2 = sp_k (snd (sp_pass_of (snd scenario_sp_pass)))).
Proof.
  apply (@sp_key_division_safe flat_numerics 3 (9 # 10) (9 # 10) (9 # 10)
           1 2 (F64 1) scenario_sp_setup _ scenario_world _ 0).
  - apply (@sp_reach_setup flat_numerics 3 (9 # 10) (9 # 10) (9 # 10) 1 2 (F64 1)
             scenario_world scenario_world).
    vm_compute. reflexivity.
  - vm_compute. reflexivity.
Defined.

(** C8. The main loop leaves only through its exit test, and that test is
    [current_delta > delta]: whenever the loop, or
    [structured_procrastination] as a whole, returns normally, the
    returned [current_delta] is not greater than [delta], which means that
    it is at most [delta] or that it is NaN; and while the last computed
    [current_delta] exceeds [delta] the loop takes another pass instead of
    returning. *)
Theorem sp_exit_not_above_delta `{Numerics}
    (n : Z) (epsilon delta zeta k0 k_bar theta_multiplier : Q) :
  (forall fuel beta st w w' i_star current_delta,
      sp_loop n epsilon delta zeta theta_multiplier fuel beta st w
      = (w', Ok (i_star, current_delta)) ->
      np_gt current_delta delta = false /\
      (current_delta = NaN \/ np_le current_delta delta = true)) /\
  (forall fuel w w' i_star current_delta,
      structured_procrastination n epsilon delta zeta k0 k_bar
        theta_multiplier fuel w
      = (w', Ok (i_star, current_delta)) ->
      np_gt current_delta delta = false /\
      (current_delta = NaN \/ np_le current_delta delta = true)) /\
  (forall fuel beta st w,
      np_gt (sp_current_delta st) delta = true ->
      sp_loop n epsilon delta zeta theta_multiplier (S fuel) beta st w
      = bind (sp_iter n epsilon zeta theta_multiplier beta st)
          (sp_loop n epsilon delta zeta theta_multiplier fuel beta) w).
Proof.
  assert (Hle : forall cd,
      np_gt cd delta = false -> cd = NaN \/ np_le cd delta = true).
  { intros [q| | |] E; simpl in E |- *.
    - right. apply Qle_bool_iff. apply Qltb_ge. exact E.
    - discriminate.
    - right. reflexivity.
    - left. reflexivity. }
  assert (Hloop : forall fuel beta st w w' i_star current_delta,
      sp_loop n epsilon delta zeta theta_multiplier fuel beta st w
      = (w', Ok (i_star, current_delta)) ->
      np_gt current_delta delta = false).
  { induction fuel as [|fuel IH]; intros beta st w w' i_star cd Hl;
      simpl in Hl; destruct (np_gt (sp_current_delta st) delta) eqn:E.
    - discriminate.
    - bind_step Hl. apply ret_ok in Hl. destruct Hl as [[= -> ->] _].
      exact E.
    - bind_step Hl. eapply IH. exact Hl.
    - bind_step Hl. apply ret_ok in Hl. destruct Hl as [[= -> ->] _].
      exact E. }
  split; [|split].
  - intros fuel beta st w w' i_star cd Hl.
    pose proof (Hloop _ _ _ _ _ _ _ Hl) as E. auto.
  - intros fuel w w' i_star cd Hsp. unfold structured_procrastination in Hsp.
    bind_step Hsp. bind_step Hsp.
    pose proof (Hloop _ _ _ _ _ _ _ Hsp) as E. auto.
  - intros fuel beta st w Hgt. simpl. rewrite Hgt. reflexivity.
Qed.

(** A run that leaves the loop on a NaN: on the scenario dataset with
    [epsilon = delta = zeta = 0.9], [k0 = -1], [k_bar = -4] and
    [theta_multiplier = 2], configuration 0 keeps a negative key and is the
    only one ever popped; at pass 10000 the configuration with the largest
    [r_sum] is configuration 1, whose [qq] and [k] are both zero, and the
    call returns [(1, nan)]. *)
Lemma sp_negative_k0_returns_nan :
  snd (@structured_procrastination coarse_numerics 3 (9 # 10) (9 # 10)
         (9 # 10) (-1) (-4) 2 (Z.to_nat 10000) scenario_world)
  = Ok (1, NaN).
Proof. vm_compute. reflexivity. Qed.

(** The claim as worded fails on that run: NaN is not at most [delta]. *)
Lemma exit_as_specified_fails :
  ~ @exit_as_specified coarse_numerics 3 (9 # 10) (9 # 10) (9 # 10)
      (-1) (-4) 2 (Z.to_nat 10000) scenario_world.
Proof.
  intros Hspec. apply Bool.diff_false_true.
  exact (Hspec 1 NaN sp_negative_k0_returns_nan).
Qed.

Lemma sp_exit_not_above_delta_witness :
  snd (@sp_loop flat_numerics 1 (9 # 10) (9 # 10) (9 # 10) 2 1 (F64 1)
         sp_late_state scenario_world) = Ok (0, F64 (19 # 30)) /\
  np_gt (F64 (19 # 30)) (9 # 10) = false /\
  (F64 (19 # 30) = NaN \/ np_le (F64 (19 # 30)) (9 # 10) = true).
Proof.
  assert (Hrun : @sp_loop flat_numerics 1 (9 # 10) (9 # 10) (9 # 10) 2 1
                   (F64 1) sp_late_state scenario_world
                 = (fst (@sp_loop flat_numerics 1 (9 # 10) (9 # 10) (9 # 10)
                           2 1 (F64 1) sp_late_state scenario_world),
                    Ok (0, F64 (19 # 30)))).
  { vm_compute. reflexivity. }
  split.
  - rewrite Hrun. reflexivity.
  - destruct (@sp_exit_not_above_delta flat_numerics 1 (9 # 10) (9 # 10)
                (9 # 10) 1 4 2) as [Hloop _].
    exact (Hloop _ _ _ _ _ _ _ Hrun).
Defined.

(* ------------------------------------------------------------------ *)
(** * Further properties of the ledger *)

(** X1. Whatever was run on a ledger, [reset] brings it back to the state
    [reset] gives the ledger it started from: both counters are zero, every
    resumption entry and per-configuration accumulator reads zero, and the
    measurement data is the same. *)
Theorem reset_forgets_runs (env : Environment) (cs : list call) :
  reset (fst (run_calls cs env)) = reset env /\
  _total_runtime (reset (fst (run_calls cs env))) = 0%Q /\
  _total_resumed_runtime (reset (fst (run_calls cs env))) = 0%Q /\
  (forall c i,
      dd2_get (_ran_so_far (reset (fst (run_calls cs env)))) c i = 0%Q) /\
  (forall c,
      dd_get (_runtime_per_config (reset (fst (run_calls cs env)))) c = 0%Q).
Proof.
  destruct (run_calls cs env) as [env' o] eqn:E. simpl.
  destruct (run_calls_static _ _ _ _ E) as (Ht & Hr & Hc).
  split; [unfold reset; rewrite Ht, Hr, Hc; reflexivity|].
  repeat split.
Qed.

(** X2. On a rectangular table, [run] accepts every integer as instance
    slot, negative or beyond the pool: for a configuration index in range
    and a timeout within the ceiling it returns normally, and the result is
    that of the slot's residue modulo the pool size. *)
Theorem run_accepts_any_slot
    (env : Environment) (c : Z) (t : Q) (i : Z) :
  rectangular env ->
  0 <= c < get_num_configs env ->
  (t <= _timeout env)%Q ->
  exists env' truth,
    ground_truth env c (i mod _instance_count env) = Ok truth /\
    run c t i env = (env', Ok (Qle_bool t truth, Qmin t truth)) /\
    rectangular env'.
Proof.
  intros [Hm Hrect] Hc Ht. unfold get_num_configs in Hc.
  destruct (lookup_lt_is_Some_2 (_results env) (Z.to_nat c)) as [row Hrow];
    [lia|].
  assert (Hlen : Z.of_nat (length row) = _instance_count env).
  { rewrite Forall_forall in Hrect. apply Hrect.
    eapply list_elem_of_lookup_2. exact Hrow. }
  pose proof (Z.mod_pos_bound i (_instance_count env) Hm) as Hmod.
  destruct (lookup_lt_is_Some_2 row (Z.to_nat (i mod _instance_count env)))
    as [truth Htruth]; [lia|].
  assert (Hg : forall j, j mod _instance_count env = i mod _instance_count env ->
                         ground_truth env c j = Ok truth).
  { intros j Hj. unfold ground_truth.
    rewrite (py_index_lookup _ _ _ (proj1 Hc) Hrow).
    destruct (_instance_count env =? 0) eqn:E;
      [apply Z.eqb_eq in E; lia|].
    rewrite Hj, (py_index_lookup _ _ _ (proj1 Hmod) Htruth). reflexivity. }
  destruct (run_success env c t i truth Ht (Hg i eq_refl))
    as (env' & Hrun & _ & Hres & Hcnt & _).
  exists env', truth. split; [|split].
  - apply Hg. apply Z.mod_mod. lia.
  - exact Hrun.
  - unfold rectangular. rewrite Hres, Hcnt. split; assumption.
Qed.

Lemma run_accepts_any_slot_witness :
  exists env' truth,
    ground_truth scenario_env 2 (-3 mod _instance_count scenario_env)
    = Ok truth /\
    run 2 7%Q (-3) scenario_env = (env', Ok (Qle_bool 7 truth, Qmin 7 truth)) /\
    rectangular env'.
Proof.
  apply (run_accepts_any_slot scenario_env 2 7%Q (-3)).
  - split; [reflexivity|]. repeat constructor.
  - unfold get_num_configs. simpl. lia.
  - vm_compute. discriminate.
Defined.

(** X3. Once a pair has run to completion (its ground truth is below the
    timeout), running it again with any timeout that still covers the
    ground truth is free in the resumed accounting: the call is charged
    zero, reports no timeout and the same elapsed time, while total_runtime
    grows by the ground truth once more. *)
Theorem completed_pair_rerun_free
    (env0 env2 : Environment) (c i : Z) (t1 t2 truth : Q) (mid : list call) :
  ground_truth env0 c i = Ok truth ->
  (truth < t1)%Q -> (truth < t2)%Q ->
  (t1 <= _timeout env0)%Q -> (t2 <= _timeout env0)%Q ->
  Forall (fun cl => call_key cl <> (c, i)) mid ->
  run_calls mid (fst (run c t1 i env0)) = (env2, Ok tt) ->
  exists env3,
    run c t2 i env2 = (env3, Ok (false, truth)) /\
    (_total_resumed_runtime env3 == _total_resumed_runtime env2)%Q /\
    (dd_get (_runtime_per_config env3) c
     == dd_get (_runtime_per_config env2) c)%Q /\
    (_total_runtime env3 == _total_runtime env2 + truth)%Q.
Proof.
  intros Hg Hlt1 Hlt2 Hc1 Hc2 Hmid Hcalls.
  destruct (run_success env0 c t1 i truth Hc1 Hg)
    as (env1 & Hrun1 & Hto1 & Hres1 & Hcnt1 & _ & _ & _ & Hran1).
  rewrite Hrun1 in Hcalls. simpl in Hcalls.
  destruct (run_calls_static _ _ _ _ Hcalls) as (Hto2 & Hres2 & Hcnt2).
  assert (Hg2 : ground_truth env2 c i = Ok truth).
  { rewrite <- Hg. apply ground_truth_static; congruence. }
  assert (Ht2 : (t2 <= _timeout env2)%Q) by (rewrite Hto2, Hto1; exact Hc2).
  destruct (run_success env2 c t2 i truth Ht2 Hg2)
    as (env3 & Hrun3 & _ & _ & _ & Htot3 & Htr3 & Hper3 & _).
  pose proof (run_calls_other_key mid (c, i) _ _ Hmid Hcalls) as Hsame.
  simpl in Hsame. rewrite Hran1, dd2_get_set_eq in Hsame.
  assert (Emin : forall t, (truth < t)%Q -> Qmin t truth = truth).
  { intros t Hlt. unfold Qmin, GenericMinMax.gmin.
    rewrite Qgt_alt in Hlt. rewrite Hlt. reflexivity. }
  assert (Eb : Qle_bool t2 truth = false).
  { destruct (Qle_bool t2 truth) eqn:E; [|reflexivity].
    apply Qle_bool_iff in E. lra. }
  rewrite (Emin t2 Hlt2), Eb in Hrun3.
  rewrite (Emin t2 Hlt2), Hsame, (Emin t1 Hlt1) in Htr3, Hper3.
  rewrite (Emin t2 Hlt2) in Htot3.
  exists env3. split; [exact Hrun3|].
  rewrite Htr3, Hper3, Htot3. repeat split; lra.
Qed.

Lemma completed_pair_rerun_free_witness :
  exists env3,
    run 0 9%Q 1 (fst (run_calls calls_other_pairs
                        (fst (run 0 3%Q 1 scenario_env))))
    = (env3, Ok (false, 1%Q)) /\
    (_total_resumed_runtime env3
     == _total_resumed_runtime
          (fst (run_calls calls_other_pairs
                  (fst (run 0%Z 3%Q 1%Z scenario_env)))))%Q /\
    (dd_get (_runtime_per_config env3) 0
     == dd_get (_runtime_per_config
                  (fst (run_calls calls_other_pairs
                          (fst (run 0%Z 3%Q 1%Z scenario_env))))) 0%Z)%Q /\
    (_total_runtime env3
     == _total_runtime
          (fst (run_calls calls_other_pairs
                  (fst (run 0%Z 3%Q 1%Z scenario_env)))) + 1)%Q.
Proof.
  apply (completed_pair_rerun_free scenario_env _ 0 1 3%Q 9%Q 1%Q
           calls_other_pairs).
  - vm_compute. reflexivity.
  - vm_compute. reflexivity.
  - vm_compute. reflexivity.
  - vm_compute. discriminate.
  - vm_compute. discriminate.
  - repeat constructor; unfold call_key; simpl; congruence.
  - vm_compute. reflexivity.
Defined.

(** X4. After a sequence of calls, the resumption entry of a pair holds the
    elapsed time of the last call on that pair, that is the minimum of that
    call's timeout and the ground truth (not the largest timeout tried); a
    pair that was not called keeps its entry. *)
Theorem ran_so_far_last_elapsed (cs : list call) :
  forall (env env' : Environment) (c i : Z),
    run_calls cs env = (env', Ok tt) ->
    match last_timeout c i cs with
    | Some t =>
        exists truth,
          ground_truth env c i = Ok truth /\
          dd2_get (_ran_so_far env') c i = Qmin t truth
    | None =>
        dd2_get (_ran_so_far env') c i = dd2_get (_ran_so_far env) c i
    end.
Proof.
  induction cs as [|[[c0 t0] i0] rest IH]; intros env env' c i Hrun;
    simpl in Hrun.
  - inversion Hrun; subst. reflexivity.
  - destruct (bind_ok _ _ _ _ _ Hrun) as (env1 & [b e] & R & Hrest).
    specialize (IH env1 env' c i Hrest). simpl.
    destruct (run_static _ _ _ _ _ _ R) as (_ & Hres & Hcnt).
    destruct (last_timeout c i rest) as [t|].
    + destruct IH as (truth & Hg & Hv). exists truth. split; [|exact Hv].
      rewrite <- Hg. apply ground_truth_static; congruence.
    + destruct (run_ran_so_far _ _ _ _ _ _ _ R)
        as (Hran & _ & _ & _ & truth & Hg & He).
      unfold same_pair, call_timeout. simpl.
      destruct ((c0 =? c) && (i0 =? i)) eqn:E.
      * apply andb_true_iff in E. destruct E as [Ec Ei].
        apply Z.eqb_eq in Ec, Ei. subst c0 i0.
        exists truth. split; [exact Hg|].
        rewrite IH, Hran, dd2_get_set_eq. exact He.
      * rewrite IH, Hran. apply dd2_get_set_ne.
        intros [= -> ->]. rewrite !Z.eqb_refl in E. discriminate.
Qed.

Lemma ran_so_far_last_elapsed_witness :
  exists truth,
    ground_truth scenario_env 1 1 = Ok truth /\
    dd2_get (_ran_so_far (fst (run_calls calls_other_pairs scenario_env))) 1 1
    = Qmin 9 truth.
Proof.
  apply (ran_so_far_last_elapsed calls_other_pairs scenario_env
           (fst (run_calls calls_other_pairs scenario_env)) 1 1).
  vm_compute. reflexivity.
Defined.

Lemma map_sum_empty : map_sum ∅ = 0%Q.
Proof. unfold map_sum. apply map_fold_empty. Qed.

Lemma map_sum_insert_fresh (m : gmap Z Q) (k : Z) (v : Q) :
  m !! k = None -> (map_sum (<[k := v]> m) == v + map_sum m)%Q.
Proof.
  intros Hk. unfold map_sum.
  apply (map_fold_insert Qeq (fun _ v acc => (v + acc)%Q)).
  - intros j z a b Hab. rewrite Hab. reflexivity.
  - intros j1 j2 z1 z2 y _ _ _. ring.
  - exact Hk.
Qed.

Lemma map_sum_insert (m : gmap Z Q) (k : Z) (v : Q) :
  (map_sum (<[k := v]> m) == map_sum m + (v - dd_get m k))%Q.
Proof.
  unfold dd_get. destruct (m !! k) as [old|] eqn:E; simpl.
  - rewrite <- (insert_delete_eq m k v).
    rewrite <- (insert_delete_id m k old E) at 2.
    rewrite !map_sum_insert_fresh by apply lookup_delete_eq. ring.
  - rewrite map_sum_insert_fresh by exact E. ring.
Qed.

Lemma ledger_sums_run env c t i env' o :
  ledger_sums env -> run c t i env = (env', o) -> ledger_sums env'.
Proof.
  intros [Hrow Htot] R. destruct o as [[b e]|ex].
  2:{ apply run_raise_unchanged in R. subst env'. split; assumption. }
  destruct (run_inv _ _ _ _ _ _ R) as [Ht [truth Hg]].
  unfold run in R. apply Qltb_ge in Ht. rewrite Ht, Hg in R.
  inversion R; subst; clear R. unfold ledger_sums. simpl. split.
  - intros c'. unfold dd2_set, dd_get at 1.
    destruct (decide (c = c')) as [->|Hne].
    + rewrite !lookup_insert_eq. simpl.
      rewrite map_sum_insert, (Hrow c'). unfold dd2_get. reflexivity.
    + rewrite !lookup_insert_ne by exact Hne. apply Hrow.
  - rewrite map_sum_insert, Htot. ring.
Qed.

Lemma ledger_sums_run_calls cs : forall env env' o,
  ledger_sums env -> run_calls cs env = (env', o) -> ledger_sums env'.
Proof.
  induction cs as [|[[c t] i] rest IH]; intros env env' o Hs Hrun;
    simpl in Hrun.
  - inversion Hrun; subst. exact Hs.
  - unfold bind in Hrun. destruct (run c t i env) as [env1 [r|ex]] eqn:R.
    + eapply IH; [|exact Hrun]. eapply ledger_sums_run; eassumption.
    + inversion Hrun; subst. eapply ledger_sums_run; eassumption.
Qed.

(** X5. On a ledger that was reset, after any sequence of calls (also one
    that ended in an exception), the accumulator of every configuration is
    the sum of the resumption entries of that configuration over all
    instance slots, and total_resumed_runtime is the sum of the
    per-configuration accumulators. *)
Theorem resumed_totals_are_sums (env0 : Environment) (cs : list call) :
  (forall c,
      (dd_get (_runtime_per_config (fst (run_calls cs (reset env0)))) c
       == map_sum (default ∅
                     (_ran_so_far (fst (run_calls cs (reset env0))) !! c)))%Q)
  /\
  (_total_resumed_runtime (fst (run_calls cs (reset env0)))
   == map_sum (_runtime_per_config (fst (run_calls cs (reset env0)))))%Q.
Proof.
  destruct (run_calls cs (reset env0)) as [env' o] eqn:E. simpl.
  apply (ledger_sums_run_calls cs (reset env0) env' o); [|exact E].
  split.
  - intros c. simpl. unfold dd_get. rewrite !lookup_empty. simpl.
    rewrite map_sum_empty. reflexivity.
  - simpl. rewrite map_sum_empty. reflexivity.
Qed.

(** ** Statistics *)

Lemma sumQ_acc (l : list Q) : forall a, (fold_left Qplus l a == a + sumQ l)%Q.
Proof.
  unfold sumQ. induction l as [|x l IH]; intros a; simpl.
  - ring.
  - rewrite (IH (a + x)%Q), (IH (0 + x)%Q). ring.
Qed.

Lemma sumQ_cons (x : Q) (l : list Q) : (sumQ (x :: l) == x + sumQ l)%Q.
Proof. unfold sumQ at 1. simpl. rewrite sumQ_acc. ring. Qed.

Lemma sumQ_capped_le (ceiling : Q) (row : list Q) :
  (sumQ (map (fun r => Qmin ceiling r) row)
   <= inject_Z (Z.of_nat (length row)) * ceiling)%Q.
Proof.
  induction row as [|r row IH].
  - unfold sumQ. simpl. change (inject_Z (Z.of_nat 0)) with 0%Q. lra.
  - simpl map. rewrite sumQ_cons. simpl length.
    rewrite Nat2Z.inj_succ. unfold Z.succ. rewrite inject_Z_plus.
    pose proof (Q.le_min_l ceiling r). change (inject_Z 1) with 1%Q. lra.
Qed.

Lemma sumQ_capped_all (ceiling : Q) (row : list Q) :
  Forall (fun r => (ceiling < r)%Q) row ->
  (sumQ (map (fun r => Qmin ceiling r) row)
   == inject_Z (Z.of_nat (length row)) * ceiling)%Q.
Proof.
  induction 1 as [|r row Hr _ IH].
  - unfold sumQ. simpl. change (inject_Z (Z.of_nat 0)) with 0%Q. lra.
  - simpl map. rewrite sumQ_cons, IH. simpl length.
    rewrite Nat2Z.inj_succ. unfold Z.succ. rewrite inject_Z_plus.
    rewrite (Q.min_l ceiling r) by lra. change (inject_Z 1) with 1%Q. lra.
Qed.

Lemma count_above_bounds (bound : Q) (row : list Q) : forall acc,
  acc <= count_above bound row acc <= acc + Z.of_nat (length row).
Proof.
  induction row as [|t row IH]; intros acc; simpl count_above.
  - simpl. lia.
  - simpl length.
    destruct (Qltb bound t); [specialize (IH (acc + 1))|specialize (IH acc)];
      lia.
Qed.

Lemma count_above_all (bound : Q) (row : list Q) : forall acc,
  Forall (fun r => (bound < r)%Q) row ->
  count_above bound row acc = acc + Z.of_nat (length row).
Proof.
  induction row as [|t row IH]; intros acc Hall; simpl count_above.
  - simpl. lia.
  - inversion Hall as [|? ? Ht Hrest]; subst.
    apply Qltb_lt in Ht. rewrite Ht, (IH _ Hrest). simpl length. lia.
Qed.

Lemma count_above_antitone (b1 b2 : Q) (row : list Q) : forall acc1 acc2,
  (b1 <= b2)%Q -> acc2 <= acc1 ->
  count_above b2 row acc2 <= count_above b1 row acc1.
Proof.
  induction row as [|t row IH]; intros acc1 acc2 Hb Hacc; simpl.
  - exact Hacc.
  - apply IH; [exact Hb|].
    destruct (Qltb b2 t) eqn:E2; destruct (Qltb b1 t) eqn:E1; try lia.
    apply Qltb_lt in E2. apply Qltb_ge in E1. lra.
Qed.

Lemma Qdiv_len_bounds (num : Z) (len : nat) :
  0 <= num <= Z.of_nat len -> (0 < len)%nat ->
  (0 <= inject_Z num / inject_Z (Z.of_nat len) <= 1)%Q.
Proof.
  intros Hn Hl.
  assert (Hpos : (0 < inject_Z (Z.of_nat len))%Q).
  { rewrite <- (Zlt_Qlt 0). lia. }
  assert (H0 : (0 <= inject_Z num)%Q) by (rewrite <- (Zle_Qle 0); lia).
  assert (H1 : (inject_Z num <= inject_Z (Z.of_nat len))%Q)
    by (rewrite <- Zle_Qle; lia).
  split.
  - apply Qle_shift_div_l; [exact Hpos|]. lra.
  - apply Qle_shift_div_r; [exact Hpos|]. lra.
Qed.

Lemma print_config_stats_ok env c tau row :
  py_index (_results env) c = Some row -> row <> [] ->
  print_config_stats env c tau
  = Ok {| stat_average :=
            (sumQ (map (fun r => Qmin (_timeout env) r) row)
             / inject_Z (Z.of_nat (length row)))%Q;
          stat_timeout_fraction :=
            (inject_Z (count_above (_timeout env) row 0)
             / inject_Z (Z.of_nat (length row)))%Q;
          stat_tau_fraction :=
            match tau with
            | None => None
            | Some tau =>
                Some (inject_Z (count_above tau row 0)
                      / inject_Z (Z.of_nat (length row)))%Q
            end;
          stat_dump := _runtime_per_config env |}.
Proof.
  intros Hrow Hne. unfold print_config_stats. rewrite Hrow.
  destruct row; [congruence|reflexivity].
Qed.

Lemma length_pos_of_ne {A} (row : list A) : row <> [] -> (0 < length row)%nat.
Proof. destruct row; [congruence|simpl; lia]. Qed.

(** X6. [print_config_stats] raises IndexError for a configuration index
    out of range and ZeroDivisionError for a configuration without
    instances.  Otherwise the fraction of instances above the ceiling lies
    in [0, 1], the capped average does not exceed the ceiling, the mapping
    written out is the per-configuration accumulator; and when every
    instance exceeds the ceiling the fraction is 1 (100%) and the capped
    average is the ceiling. *)
Theorem print_config_stats_values
    (env : Environment) (c : Z) (tau : option Q) :
  (py_index (_results env) c = None ->
   print_config_stats env c tau = Raise IndexError) /\
  (py_index (_results env) c = Some [] ->
   print_config_stats env c tau = Raise ZeroDivisionError) /\
  (forall row,
      py_index (_results env) c = Some row -> row <> [] ->
      exists s,
        print_config_stats env c tau = Ok s /\
        (0 <= stat_timeout_fraction s <= 1)%Q /\
        (stat_average s <= _timeout env)%Q /\
        stat_dump s = _runtime_per_config env /\
        (Forall (fun r => (_timeout env < r)%Q) row ->
         (stat_timeout_fraction s == 1)%Q /\
         (stat_average s == _timeout env)%Q)).
Proof.
  split; [|split].
  - intros Hn. unfold print_config_stats. rewrite Hn. reflexivity.
  - intros Hn. unfold print_config_stats. rewrite Hn. reflexivity.
  - intros row Hrow Hne. eexists. split;
      [apply print_config_stats_ok; eassumption|]. simpl.
    pose proof (length_pos_of_ne row Hne) as Hlen.
    assert (Hpos : (0 < inject_Z (Z.of_nat (length row)))%Q).
    { rewrite <- (Zlt_Qlt 0). lia. }
    split; [|split; [|split; [reflexivity|]]].
    + apply Qdiv_len_bounds; [|exact Hlen].
      pose proof (count_above_bounds (_timeout env) row 0). lia.
    + apply Qle_shift_div_r; [exact Hpos|].
      rewrite Qmult_comm. apply sumQ_capped_le.
    + intros Hall. split.
      * rewrite (count_above_all _ _ 0 Hall), Z.add_0_l.
        unfold Qdiv. apply Qmult_inv_r. lra.
      * rewrite (sumQ_capped_all _ _ Hall).
        unfold Qdiv. rewrite (Qmult_comm (inject_Z _)), <- Qmult_assoc.
        rewrite Qmult_inv_r by lra. ring.
Qed.

Lemma print_config_stats_values_witness :
  exists s,
    print_config_stats
      {| _timeout := 4; _results := scenario_results; _instance_count := 5;
         _total_runtime := 0; _total_resumed_runtime := 0;
         _runtime_per_config := ∅; _ran_so_far := ∅ |} 1 (Some 7%Q)
    = Ok s /\
    (0 <= stat_timeout_fraction s <= 1)%Q /\
    (stat_average s <= 4)%Q /\
    stat_dump s = ∅ /\
    (Forall (fun r => (4 < r)%Q) [10; 10; 10; 10; 10]%Q ->
     (stat_timeout_fraction s == 1)%Q /\ (stat_average s == 4)%Q).
Proof.
  destruct (print_config_stats_values
              {| _timeout := 4; _results := scenario_results;
                 _instance_count := 5;
                 _total_runtime := 0; _total_resumed_runtime := 0;
                 _runtime_per_config := ∅; _ran_so_far := ∅ |} 1 (Some 7%Q))
    as (_ & _ & Hok).
  apply (Hok [10; 10; 10; 10; 10]%Q).
  - reflexivity.
  - discriminate.
Defined.

(** X7. The optional third statistic: without [tau] nothing is reported;
    with [tau] it is a fraction in [0, 1] that does not grow when [tau]
    grows, and for [tau] equal to the ceiling it is the timeout fraction. *)
Theorem print_config_stats_tau
    (env : Environment) (c : Z) (row : list Q) (tau1 tau2 : Q) :
  py_index (_results env) c = Some row -> row <> [] ->
  (tau1 <= tau2)%Q ->
  exists s0 s1 s2 f1 f2,
    print_config_stats env c None = Ok s0 /\
    print_config_stats env c (Some tau1) = Ok s1 /\
    print_config_stats env c (Some tau2) = Ok s2 /\
    stat_tau_fraction s0 = None /\
    stat_tau_fraction s1 = Some f1 /\
    stat_tau_fraction s2 = Some f2 /\
    (0 <= f2)%Q /\ (f2 <= f1)%Q /\ (f1 <= 1)%Q /\
    (tau1 = _timeout env -> f1 = stat_timeout_fraction s1).
Proof.
  intros Hrow Hne Hle.
  pose proof (length_pos_of_ne row Hne) as Hlen.
  do 5 eexists.
  split; [apply print_config_stats_ok; eassumption|].
  split; [apply print_config_stats_ok; eassumption|].
  split; [apply print_config_stats_ok; eassumption|].
  simpl. split; [reflexivity|]. split; [reflexivity|].
  split; [reflexivity|].
  pose proof (count_above_bounds tau1 row 0) as B1.
  pose proof (count_above_bounds tau2 row 0) as B2.
  pose proof (count_above_antitone tau1 tau2 row 0 0 Hle ltac:(lia)) as Hmono.
  split; [apply Qdiv_len_bounds; [lia|exact Hlen]|].
  split; [|split; [apply Qdiv_len_bounds; [lia|exact Hlen]|]].
  - unfold Qdiv. apply Qmult_le_compat_r; [rewrite <- Zle_Qle; exact Hmono|].
    apply Qinv_le_0_compat. rewrite <- (Zle_Qle 0). lia.
  - intros ->. reflexivity.
Qed.

Lemma print_config_stats_tau_witness :
  exists s0 s1 s2 f1 f2,
    print_config_stats scenario_env 2 None = Ok s0 /\
    print_config_stats scenario_env 2 (Some 3%Q) = Ok s1 /\
    print_config_stats scenario_env 2 (Some 6%Q) = Ok s2 /\
    stat_tau_fraction s0 = None /\
    stat_tau_fraction s1 = Some f1 /\
    stat_tau_fraction s2 = Some f2 /\
    (0 <= f2)%Q /\ (f2 <= f1)%Q /\ (f1 <= 1)%Q /\
    (3%Q = _timeout scenario_env -> f1 = stat_timeout_fraction s1).
Proof.
  apply (print_config_stats_tau scenario_env 2 [5; 5; 5; 5; 5]%Q 3%Q 6%Q).
  - reflexivity.
  - discriminate.
  - vm_compute. discriminate.
Defined.

(** X8. The statistics are a query over the measurement data only: after
    any sequence of [run] calls the three numbers (or the exception) are
    those of the ledger before the calls; only the mapping written out
    follows the per-configuration accumulator. *)
Theorem print_config_stats_history
    (env : Environment) (cs : list call) (c : Z) (tau : option Q) :
  print_config_stats (fst (run_calls cs env)) c tau
  = match print_config_stats env c tau with
    | Ok s =>
        Ok {| stat_average := stat_average s;
              stat_timeout_fraction := stat_timeout_fraction s;
              stat_tau_fraction := stat_tau_fraction s;
              stat_dump := _runtime_per_config (fst (run_calls cs env)) |}
    | Raise e => Raise e
    end.
Proof.
  destruct (run_calls cs env) as [env' o] eqn:E. simpl.
  destruct (run_calls_static _ _ _ _ E) as (Ht & Hr & _).
  unfold print_config_stats. rewrite Hr, Ht.
  destruct (py_index (_results env) c) as [[|r row]|]; reflexivity.
Qed.

(* ------------------------------------------------------------------ *)
(** * Further properties of the sequential estimator *)

Lemma spent_cons (ev : run_event) (evs : list run_event) :
  (spent (ev :: evs) == event_elapsed ev + spent evs)%Q.
Proof. unfold spent. simpl map. apply sumQ_cons. Qed.

Lemma spent_nil : (spent [] == 0)%Q.
Proof. reflexivity. Qed.

Section EstimatorBudget.
Context `{Numerics}.
Variables (i : Z) (delta theta : Q) (k : Z) (epsilon zeta : Q) (n : Z).
Variable tau : Q.

(** The runs of the loop over [j = a, ..., a+m-1]: at most [m] of them, for
    configuration [i] and instances in that range, each with a timeout of
    at most [tau]; started on a non-negative budget they consume no more
    than the budget. *)
Lemma ebgstop_loop_spent m : forall a st w,
  exists evs,
    run_log (fst (ebgstop_loop i delta theta k epsilon zeta n tau
                    (map Z.of_nat (seq a m)) st w))
    = run_log w ++ evs /\
    (length evs <= m)%nat /\
    Forall (fun ev => ev_config ev = i /\
                      Z.of_nat a <= ev_instance ev < Z.of_nat (a + m) /\
                      (ev_timeout ev <= tau)%Q) evs /\
    ((0 <= s_t st)%Q -> (spent evs <= s_t st)%Q).
Proof.
  induction m as [|m IH]; intros a st w.
  - exists []. rewrite app_nil_r. split.
    + simpl. unfold np_mean, raise, ret. destruct (s_q st); reflexivity.
    + split; [simpl; lia|]. split; [constructor|]. intros Ht. exact Ht.
  - destruct (Qltb 0 (s_t st)) eqn:Hpos.
    2:{ exists []. rewrite app_nil_r. split.
        - apply ebgstop_loop_idle. apply Qltb_ge. exact Hpos.
        - split; [simpl; lia|]. split; [constructor|]. intros Ht. exact Ht. }
    simpl seq. simpl map.
    rewrite ebgstop_loop_cons, ebgstop_iter_run by exact Hpos.
    assert (Hev : forall r,
               ev_config (mkEvent i (Qmin (s_t st) tau) (Z.of_nat a) r) = i /\
               Z.of_nat a
               <= ev_instance (mkEvent i (Qmin (s_t st) tau) (Z.of_nat a) r)
               < Z.of_nat (a + S m) /\
               (ev_timeout (mkEvent i (Qmin (s_t st) tau) (Z.of_nat a) r)
                <= tau)%Q).
    { intros r. simpl. split; [reflexivity|]. split; [lia|].
      apply Q.le_min_r. }
    apply Qltb_lt in Hpos.
    destruct (run i (Qmin (s_t st) tau) (Z.of_nat a) (env w))
      as [env1 [[timed_out elapsed]|e]] eqn:R.
    2:{ eexists [_]. split; [reflexivity|]. split; [simpl; lia|].
        split; [constructor; [apply Hev|constructor]|].
        intros _. rewrite spent_cons, spent_nil.
        unfold event_elapsed. simpl. lra. }
    set (ev := mkEvent i (Qmin (s_t st) tau) (Z.of_nat a)
                 (Ok (timed_out, elapsed))).
    set (w1 := {| env := env1; run_log := run_log w ++ [ev] |}).
    assert (Hel : (elapsed <= s_t st)%Q).
    { destruct (run_ran_so_far _ _ _ _ _ _ _ R)
        as (_ & _ & _ & _ & truth & _ & He).
      pose proof (Q.le_min_l (Qmin (s_t st) tau) truth) as H1.
      pose proof (Q.le_min_l (s_t st) tau) as H2.
      rewrite <- He in H1. lra. }
    assert (Hone : (spent [ev] <= s_t st)%Q).
    { rewrite spent_cons, spent_nil. unfold event_elapsed. simpl. lra. }
    pose proof (ebgstop_update_world delta theta k epsilon zeta n tau
                  (Z.of_nat a) st elapsed w1) as Hw.
    destruct (ebgstop_update delta theta k epsilon zeta n tau
                (Z.of_nat a) st elapsed w1) as [w2 [[v|st']|e]] eqn:U;
      simpl in Hw; subst w2.
    + exists [ev]. split; [reflexivity|]. split; [simpl; lia|].
      split; [constructor; [apply Hev|constructor]|]. intros _. exact Hone.
    + destruct (ebgstop_update_next _ _ _ _ _ _ _ _ _ _ _ _ _ U) as [Ht _].
      destruct (IH (S a) st' w1) as (evs & Hlog & Hlen & Hall & Hsp).
      exists (ev :: evs). split; [|split; [|split]].
      * rewrite Hlog. unfold w1. simpl. rewrite <- app_assoc. reflexivity.
      * simpl. lia.
      * constructor; [apply Hev|].
        eapply Forall_impl; [exact Hall|].
        intros e' (Hc & Hi & Hto). split; [exact Hc|]. split; [lia|exact Hto].
      * intros _. rewrite spent_cons. unfold event_elapsed at 1. simpl.
        rewrite Ht in Hsp. assert (Hnn : (0 <= s_t st - elapsed)%Q) by lra.
        specialize (Hsp Hnn). lra.
    + exists [ev]. split; [reflexivity|]. split; [simpl; lia|].
      split; [constructor; [apply Hev|constructor]|]. intros _. exact Hone.
Qed.
End EstimatorBudget.

(** X9. The estimator honours both of its budgets: it issues at most [b]
    runs, all for its own configuration, on instance slots within
    [0, b), and each with a timeout of at most [tau = 4*theta/(3*delta)];
    and when the time budget [b*theta] is not negative, the simulated time
    its runs consume in total does not exceed it. *)
Theorem ebgstop_within_budget `{Numerics}
    (i b : Z) (delta theta : Q) (k : Z) (epsilon zeta : Q) (n : Z)
    (w : World) :
  exists evs,
    run_log (fst (ebgstop_slave_alg i b delta theta k epsilon zeta n w))
    = run_log w ++ evs /\
    (length evs <= Z.to_nat b)%nat /\
    Forall (fun ev => ev_config ev = i /\
                      0 <= ev_instance ev < b /\
                      (ev_timeout ev <= 4 * theta / (3 * delta))%Q) evs /\
    ((0 <= inject_Z b * theta)%Q -> (spent evs <= inject_Z b * theta)%Q).
Proof.
  unfold ebgstop_slave_alg, bind, py_div.
  destruct (Qeqb (3 * delta) 0).
  - exists []. rewrite app_nil_r. split; [reflexivity|].
    split; [simpl; lia|]. split; [constructor|]. intros Hb. exact Hb.
  - unfold ret.
    destruct (ebgstop_loop_spent i delta theta k epsilon zeta n
                (4 * theta / (3 * delta)) (Z.to_nat b) 0%nat
                (ebgstop_init b theta) w) as (evs & Hlog & Hlen & Hall & Hsp).
    exists evs. split; [exact Hlog|]. split; [exact Hlen|].
    split; [|exact Hsp].
    eapply Forall_impl; [exact Hall|].
    intros ev (Hc & Hi & Hto). split; [exact Hc|]. split; [lia|exact Hto].
Qed.

Lemma ebgstop_within_budget_witness :
  exists evs,
    run_log (fst (@ebgstop_slave_alg flat_numerics 0 2 (9 # 10) (16 # 7) 1
                    (9 # 10) (9 # 10) 3 scenario_world))
    = run_log scenario_world ++ evs /\
    (spent evs <= inject_Z 2 * (16 # 7))%Q.
Proof.
  destruct (@ebgstop_within_budget flat_numerics 0 2 (9 # 10) (16 # 7) 1
              (9 # 10) (9 # 10) 3 scenario_world)
    as (evs & Hlog & _ & _ & Hsp).
  exists evs. split; [exact Hlog|]. apply Hsp. vm_compute. discriminate.
Defined.

Lemma rectangular_ground_truth (env : Environment) (c : Z) :
  rectangular env -> 0 <= c < get_num_configs env ->
  forall j, exists truth, ground_truth env c j = Ok truth.
Proof.
  intros [Hm Hrect] Hc j. unfold get_num_configs in Hc.
  destruct (lookup_lt_is_Some_2 (_results env) (Z.to_nat c)) as [row Hrow];
    [lia|].
  assert (Hlen : Z.of_nat (length row) = _instance_count env).
  { rewrite Forall_forall in Hrect. apply Hrect.
    eapply list_elem_of_lookup_2. exact Hrow. }
  pose proof (Z.mod_pos_bound j (_instance_count env) Hm) as Hmod.
  destruct (lookup_lt_is_Some_2 row (Z.to_nat (j mod _instance_count env)))
    as [truth Htruth]; [lia|].
  exists truth. unfold ground_truth.
  rewrite (py_index_lookup _ _ _ (proj1 Hc) Hrow).
  destruct (_instance_count env =? 0) eqn:E; [apply Z.eqb_eq in E; lia|].
  rewrite (py_index_lookup _ _ _ (proj1 Hmod) Htruth). reflexivity.
Qed.

Lemma Qeqb_inject_Z_nonzero (z : Z) : z <> 0 -> Qeqb (inject_Z z) 0 = false.
Proof.
  intros Hz. unfold Qeqb. destruct (Qeq_bool (inject_Z z) 0) eqn:E;
    [|reflexivity].
  apply Qeq_bool_iff in E. unfold Qeq in E. simpl in E. lia.
Qed.

Lemma Qeqb_nonzero (a : Q) : ~ (a == 0)%Q -> Qeqb a 0 = false.
Proof.
  intros Ha. unfold Qeqb. destruct (Qeq_bool a 0) eqn:E; [|reflexivity].
  apply Qeq_bool_iff in E. contradiction.
Qed.

Section EstimatorTotal.
Context `{Numerics}.
Variables (i : Z) (delta theta : Q) (k : Z) (epsilon zeta : Q) (n : Z).
Variable tau : Q.
Hypothesis zeta_nonzero : ~ (zeta == 0)%Q.
Hypothesis n_pos : 0 < n.
Hypothesis k_pos : 0 < k.

Lemma ebgstop_schedule_ok (j : nat) (st : est_state) (w : World) :
  est_ready j st ->
  exists sched,
    ebgstop_schedule k zeta n (Z.of_nat j) st w = (w, Ok sched) /\
    (j = 0%nat -> fst sched = 0) /\
    ((1 <= j)%nat -> is_Some (snd sched)).
Proof.
  intros (Hkk & Hx & _). unfold ebgstop_schedule.
  destruct (Qltb (inject_Z (Qfloor (Qpower beta (s_kk st))))
              (inject_Z (Z.of_nat j + 1))) eqn:Fire.
  - unfold bind, py_div. rewrite (Qeqb_nonzero _ zeta_nonzero).
    unfold ret. eexists. split; [reflexivity|]. simpl. split.
    + intros ->. rewrite Hkk in Fire by lia. vm_compute in Fire.
      discriminate.
    + intros _. eauto.
  - unfold ret. eexists. split; [reflexivity|]. simpl. split.
    + intros ->. apply Hkk. lia.
    + intros Hj. destruct (decide (j = 1%nat)) as [->|Hne].
      * rewrite Hkk in Fire by lia. vm_compute in Fire. discriminate.
      * apply Hx. lia.
Qed.

Lemma ebgstop_update_ok (j : nat) (st : est_state) (elapsed : Q) (w : World) :
  est_ready j st ->
  exists res,
    ebgstop_update delta theta k epsilon zeta n tau (Z.of_nat j) st elapsed w
    = (w, Ok res) /\
    (forall st', res = inr st' -> est_ready (S j) st').
Proof.
  intros Hready. unfold ebgstop_update.
  destruct (Qeqb (s_t st - elapsed) 0).
  { eexists. split; [reflexivity|]. intros st' [=]. }
  destruct (ebgstop_schedule_ok j st w Hready) as (sched & Hs & Hk0 & Hx1).
  unfold bind at 1. rewrite Hs.
  assert (Hnext : est_ready (S j)
            {| s_t := (s_t st - elapsed)%Q; s_q := s_q st ++ [elapsed];
               s_sumq := (s_sumq st + elapsed)%Q;
               s_sum_q_squared :=
                 (s_sum_q_squared st + elapsed * elapsed)%Q;
               s_kk := fst sched; s_x := snd sched |}).
  { unfold est_ready. simpl. split; [|split].
    - intros Hj. apply Hk0. lia.
    - intros Hj. apply Hx1. lia.
    - intros _. destruct (s_q st); discriminate. }
  destruct (0 <? Z.of_nat j) eqn:Hj.
  2:{ eexists. split; [reflexivity|]. intros st' [= <-]. exact Hnext. }
  apply Z.ltb_lt in Hj.
  destruct (Hx1 ltac:(lia)) as [x Hx]. unfold bind at 1.
  rewrite Hx in Hnext |- *. simpl.
  match goal with
  | |- context [if ?c then _ else _] => destruct c
  end.
  { eexists. split; [reflexivity|]. intros st' [=]. }
  unfold bind at 1, py_div.
  rewrite Qeqb_inject_Z_nonzero.
  2:{ assert (0 < n * k) by (apply Z.mul_pos_pos; lia).
      assert (0 < n * k * (k + 1)) by (apply Z.mul_pos_pos; lia).
      assert (0 < n * k * (k + 1) * Z.of_nat j)
        by (apply Z.mul_pos_pos; lia).
      assert (0 < n * k * (k + 1) * Z.of_nat j * (Z.of_nat j + 1))
        by (apply Z.mul_pos_pos; lia).
      lia. }
  unfold ret at 1.
  match goal with
  | |- context [if ?c then _ else _] => destruct c
  end.
  - eexists. split; [reflexivity|]. intros st' [=].
  - eexists. split; [reflexivity|]. intros st' [= <-]. exact Hnext.
Qed.

Lemma ebgstop_loop_returns m : forall a st w,
  est_ready a st ->
  (0 < a \/ 0 < m)%nat ->
  (tau <= _timeout (env w))%Q ->
  (forall j, exists truth, ground_truth (env w) i j = Ok truth) ->
  exists w' v,
    ebgstop_loop i delta theta k epsilon zeta n tau
      (map Z.of_nat (seq a m)) st w = (w', Ok v).
Proof.
  induction m as [|m IH]; intros a st w Hready Ham Hceil Hgt.
  - simpl. destruct Hready as (_ & _ & Hq). unfold np_mean.
    destruct (s_q st) eqn:E; [exfalso; apply Hq; [lia|reflexivity]|].
    unfold ret. eauto.
  - simpl seq. simpl map. rewrite ebgstop_loop_cons.
    destruct (Qltb 0 (s_t st)) eqn:Hpos.
    + rewrite ebgstop_iter_run by exact Hpos.
      destruct (Hgt (Z.of_nat a)) as [truth Hg].
      assert (Hto : (Qmin (s_t st) tau <= _timeout (env w))%Q).
      { pose proof (Q.le_min_r (s_t st) tau). lra. }
      destruct (run_success _ _ _ _ _ Hto Hg)
        as (env1 & Hrun & Ht1 & Hr1 & Hc1 & _).
      rewrite Hrun.
      match goal with
      | |- context [ebgstop_update _ _ _ _ _ _ _ _ _ ?el ?w1] =>
          destruct (ebgstop_update_ok a st el w1 Hready)
            as (res & Hu & Hnext); rewrite Hu
      end.
      destruct res as [v|st']; [eauto|].
      apply IH; [apply Hnext; reflexivity|lia| |].
      * simpl. rewrite Ht1. exact Hceil.
      * intros j. simpl. destruct (Hgt j) as [tr Htr]. exists tr.
        rewrite <- Htr. apply ground_truth_static; assumption.
    + rewrite ebgstop_iter_idle by exact Hpos.
      destruct (ebgstop_update_ok a st 0%Q w Hready) as (res & Hu & Hnext).
      rewrite Hu. destruct res as [v|st']; [eauto|].
      apply IH; [apply Hnext; reflexivity|lia|exact Hceil|exact Hgt].
Qed.
End EstimatorTotal.

(** X10. The estimator always returns an estimate (no exception, no read of
    an unbound [x], no mean of an empty list) when it is given at least one
    sample ([b > 0]), non-zero [delta] and [zeta], positive [n] and [k], a
    configuration index in range on a rectangular table, and a per-run cap
    [tau = 4*theta/(3*delta)] within the measurement ceiling. *)
Theorem ebgstop_returns `{Numerics}
    (i b : Z) (delta theta : Q) (k : Z) (epsilon zeta : Q) (n : Z)
    (w : World) :
  0 < b -> 0 < n -> 0 < k ->
  ~ (delta == 0)%Q -> ~ (zeta == 0)%Q ->
  rectangular (env w) ->
  0 <= i < get_num_configs (env w) ->
  (4 * theta / (3 * delta) <= _timeout (env w))%Q ->
  exists w' v,
    ebgstop_slave_alg i b delta theta k epsilon zeta n w = (w', Ok v).
Proof.
  intros Hb Hn Hk Hd Hz Hrect Hi Hceil.
  unfold ebgstop_slave_alg, bind, py_div.
  rewrite Qeqb_nonzero by (intros E; apply Hd; lra).
  unfold ret.
  apply (ebgstop_loop_returns i delta theta k epsilon zeta n _ Hz Hn Hk
           (Z.to_nat b) 0%nat).
  - unfold est_ready, ebgstop_init. simpl. split; [reflexivity|].
    split; intros; lia.
  - lia.
  - exact Hceil.
  - apply rectangular_ground_truth; assumption.
Qed.

Lemma ebgstop_returns_witness :
  exists w' v,
    @ebgstop_slave_alg flat_numerics 0 2 (9 # 10) (16 # 7) 1 (9 # 10)
      (9 # 10) 3 scenario_world = (w', Ok v).
Proof.
  apply (@ebgstop_returns flat_numerics 0 2 (9 # 10) (16 # 7) 1 (9 # 10)
           (9 # 10) 3 scenario_world); try lia.
  - vm_compute. discriminate.
  - vm_compute. discriminate.
  - split; [reflexivity|]. repeat constructor.
  - unfold get_num_configs. simpl. lia.
  - vm_compute. discriminate.
Defined.

(* ------------------------------------------------------------------ *)
(** * Further properties of the Leaps-and-Bounds selector *)

Lemma np_argmin_range (l : list Q) (best : Z) :
  np_argmin l = Some best -> 0 <= best < Z.of_nat (length l).
Proof.
  destruct l as [|a rest]; [discriminate|]. unfold np_argmin.
  intros [= <-].
  pose proof (first_extremum_min rest 1 0 a) as (_ & _ & Hidx).
  destruct Hidx as [[Hi _]|(p & Hi & Hv & _)].
  - rewrite Hi. simpl length. lia.
  - apply lookup_lt_Some in Hv. rewrite Hi. simpl length. lia.
Qed.

Section LeapsResult.
Context `{Numerics}.
Variables (n : Z) (epsilon delta zeta theta_multiplier : Q).

Lemma round_decision_return q_hat theta w w' best est tau :
  round_decision delta theta_multiplier q_hat theta w
  = (w', Ok (inl (best, est, tau))) ->
  w' = w /\ 0 <= best < Z.of_nat (length q_hat) /\
  py_index q_hat best = Some est /\
  Forall (fun e => (est <= e)%Q) q_hat /\
  (est < theta)%Q /\ tau = (4 * theta / (3 * delta))%Q /\
  ~ (delta == 0)%Q.
Proof.
  unfold round_decision. intros Hd.
  bind_step Hd.
  destruct (Qltb a theta) eqn:Hlt.
  2:{ apply ret_ok in Hd. destruct Hd as [[=] _]. }
  do 2 bind_step Hd. bind_step Hd.
  apply py_div_ok in Hm2. destruct Hm2 as (Hnz & -> & ->).
  apply ret_ok in Hd. destruct Hd as [[= -> -> ->] ->].
  assert (Hne : q_hat <> []) by (intros ->; discriminate).
  destruct (np_argmin_spec q_hat Hne)
    as (best' & least & Harg & Hmin & Hidx & Hall & _).
  rewrite Hm0 in Harg. rewrite Hm in Hmin.
  inversion Harg; inversion Hmin; subst best' least.
  rewrite Hm1 in Hidx. inversion Hidx; subst a.
  split; [reflexivity|]. split; [apply np_argmin_range; exact Hm0|].
  split; [exact Hm1|]. split; [exact Hall|].
  split; [apply Qltb_lt; exact Hlt|]. split; [reflexivity|].
  intros Hz. unfold Qeqb in Hnz.
  assert (Hz' : (3 * delta == 0)%Q) by lra.
  apply Qeq_bool_iff in Hz'. congruence.
Qed.

Lemma round_decision_continue q_hat theta w w' theta' :
  round_decision delta theta_multiplier q_hat theta w
  = (w', Ok (inr theta')) ->
  w' = w /\ theta' = (theta * theta_multiplier)%Q.
Proof.
  unfold round_decision. intros Hd.
  bind_step Hd.
  destruct (Qltb a theta) eqn:Hlt.
  - do 2 bind_step Hd. bind_step Hd.
    apply ret_ok in Hd. destruct Hd as [[=] _].
  - apply ret_ok in Hd. destruct Hd as [[= ->] ->]. auto.
Qed.

Lemma leaps_loop_result fuel : forall theta k w w' best est tau,
  leaps_and_bounds_loop n epsilon delta zeta theta_multiplier fuel theta k w
  = (w', Ok (best, est, tau)) ->
  0 <= best < n /\
  exists m,
    (m < fuel)%nat /\
    tau = (4 * escalated theta theta_multiplier m / (3 * delta))%Q /\
    (est < escalated theta theta_multiplier m)%Q.
Proof.
  induction fuel as [|fuel IH]; intros theta k w w' best est tau Hl;
    simpl in Hl; [discriminate|].
  do 3 bind_step Hl.
  destruct a1 as [[[best' est'] tau']|theta'].
  - apply ret_ok in Hl. destruct Hl as [[= -> -> ->] ->].
    destruct (round_decision_return _ _ _ _ _ _ _ Hm1)
      as (_ & Hrange & _ & _ & Hlt & Htau & _).
    apply round_estimates_length in Hm0.
    unfold xrange in Hm0. rewrite length_map, length_seq in Hm0.
    split; [lia|]. exists 0%nat. simpl. split; [lia|]. auto.
  - destruct (round_decision_continue _ _ _ _ _ Hm1) as [-> ->].
    destruct (IH _ _ _ _ _ _ _ Hl) as (Hrange & m & Hm' & Htau & Hlt).
    split; [exact Hrange|]. exists (S m). simpl. split; [lia|]. auto.
Qed.
End LeapsResult.

(** X11. Whenever [leaps_and_bounds] returns [(i, estimate, tau)], [i] is a
    valid configuration index, and for the number [m] of rounds that went
    by without a winner (fewer than the rounds allowed), with
    [theta = (16*k0/7) * theta_multiplier^m] the threshold of the last
    round: [tau] is [4*theta/(3*delta)] and the estimate is strictly below
    [theta]. *)
Theorem leaps_and_bounds_result `{Numerics}
    (n : Z) (epsilon delta zeta theta_multiplier : Q) (fuel : nat) (k0 : Q)
    (w w' : World) (best : Z) (est tau : Q) :
  leaps_and_bounds n epsilon delta zeta theta_multiplier fuel k0 w
  = (w', Ok (best, est, tau)) ->
  0 <= best < n /\
  exists m,
    (m < fuel)%nat /\
    (escalated (k0 * 16 / 7) theta_multiplier m
     == k0 * 16 / 7 * theta_multiplier ^ Z.of_nat m)%Q /\
    tau = (4 * escalated (k0 * 16 / 7) theta_multiplier m / (3 * delta))%Q /\
    (est < escalated (k0 * 16 / 7) theta_multiplier m)%Q.
Proof.
  intros Hl. unfold leaps_and_bounds in Hl.
  destruct (leaps_loop_result _ _ _ _ _ _ _ _ _ _ _ _ _ Hl)
    as (Hrange & m & Hm & Htau & Hlt).
  split; [exact Hrange|]. exists m. split; [exact Hm|].
  split; [|split; assumption].
  clear. generalize (k0 * 16 / 7)%Q as theta.
  induction m as [|m IH]; intros theta.
  - simpl. ring.
  - simpl escalated. rewrite IH.
    rewrite Nat2Z.inj_succ. unfold Z.succ.
    rewrite Qpower_plus' by lia. simpl (theta_multiplier ^ 1)%Q. ring.
Qed.

Lemma leaps_and_bounds_result_witness :
  0 <= 0 < 3 /\
  exists m,
    (m < 1)%nat /\
    (escalated (1 * 16 / 7) (5 # 4) m == 1 * 16 / 7 * (5 # 4) ^ Z.of_nat m)%Q /\
    (640 # 189)%Q = (4 * escalated (1 * 16 / 7) (5 # 4) m / (3 * (9 # 10)))%Q /\
    (2 # 2 < escalated (1 * 16 / 7) (5 # 4) m)%Q.
Proof.
  apply (@leaps_and_bounds_result flat_numerics 3 (9 # 10) (9 # 10) (9 # 10)
           (5 # 4) 1 1 scenario_world
           (fst (@leaps_and_bounds flat_numerics 3 (9 # 10) (9 # 10) (9 # 10)
                   (5 # 4) 1 1 scenario_world))).
  vm_compute. reflexivity.
Defined.

(* ------------------------------------------------------------------ *)
(** * Further properties of the Structured-Procrastination selector *)

Section ProcrastinationLoop.
Context `{Numerics}.
Variables (n : Z) (epsilon delta zeta k0 k_bar theta_multiplier : Q).
Variable beta : float64.

Lemma sp_setup_fields configs : forall st w w' st',
  sp_setup n epsilon zeta k0 beta configs st w = (w', Ok st') ->
  w' = w /\
  sp_current_delta st' = sp_current_delta st /\
  sp_iter_count st' = sp_iter_count st /\
  sp_i_star st' = sp_i_star st.
Proof.
  induction configs as [|i rest IH]; intros st w w' st' Hs; simpl in Hs.
  - apply ret_ok in Hs. destruct Hs as [-> ->]. auto.
  - bind_step Hs. apply py_div_ok in Hm. destruct Hm as (_ & -> & ->).
    bind_step Hs. apply int_ceil_ok in Hm.
    destruct Hm as (log_val & _ & -> & ->).
    destruct (IH _ _ _ _ Hs) as (-> & Hd & Hc & Hi). simpl in *. auto.
Qed.

Lemma sp_setup_ok configs : forall st w q,
  ~ (epsilon * epsilon == 0)%Q ->
  np_mul (np_log_f64 (np_div (np_mul (np_mul beta 3) (inject_Z n)) zeta))
         (C / (epsilon * epsilon)) = F64 q ->
  exists st', sp_setup n epsilon zeta k0 beta configs st w = (w, Ok st').
Proof.
  induction configs as [|i rest IH]; intros st w q He Hx; simpl.
  - unfold ret. eauto.
  - unfold bind, py_div. rewrite (Qeqb_nonzero _ He). unfold ret.
    rewrite Hx. simpl. eapply IH; eassumption.
Qed.

Lemma sp_setup_raise i rest st w e :
  ~ (epsilon * epsilon == 0)%Q ->
  int_ceil
    (np_mul (np_log_f64 (np_div (np_mul (np_mul beta 3) (inject_Z n)) zeta))
            (C / (epsilon * epsilon))) w = (w, Raise e) ->
  sp_setup n epsilon zeta k0 beta (i :: rest) st w = (w, Raise e).
Proof.
  intros He Hx. simpl. unfold bind, py_div. rewrite (Qeqb_nonzero _ He).
  unfold ret. rewrite Hx. reflexivity.
Qed.

(** The effect of one pass on the log, the pass counter and the values
    the exit test and the [return] read. *)
Lemma sp_advance_effect st w w1 i st1 :
  sp_advance n epsilon zeta theta_multiplier beta st w = (w1, Ok (i, st1)) ->
  (exists ev, run_log w1 = run_log w ++ [ev]) /\
  sp_iter_count st1 = sp_iter_count st + 1 /\
  sp_current_delta st1 = sp_current_delta st /\
  sp_i_star st1 = sp_i_star st.
Proof.
  unfold sp_advance. intros Hadv.
  bind_step Hadv. bind_step Hadv.
  destruct a0 as [|[ll theta] q_i]; [discriminate|].
  bind_step Hadv. bind_step Hadv. bind_step Hadv.
  assert (Hw : w0 = w).
  { destruct (Qeqb a1 0).
    - do 5 bind_step Hm3.
      match goal with
      | Hc : int_ceil _ _ = _ |- _ =>
          apply int_ceil_ok in Hc; destruct Hc as (? & _ & _ & ->)
      end.
      match goal with
      | Hd : py_div _ _ _ = _ |- _ =>
          apply py_div_ok in Hd; destruct Hd as (_ & _ & ->)
      end.
      apply ret_ok in Hm3. destruct Hm3 as [_ ->]. reflexivity.
    - apply ret_ok in Hm3. destruct Hm3 as [_ ->]. reflexivity. }
  subst w0. clear Hm3.
  bind_step Hadv. do 8 bind_step Hadv.
  apply ret_ok in Hadv. destruct Hadv as [Heq ->].
  inversion Heq; subst; clear Heq. simpl.
  unfold env_run in Hm3. inversion Hm3; subst; clear Hm3. simpl.
  split; [eauto|]. auto.
Qed.

Lemma sp_reinsert_effect i st w w' st' :
  sp_reinsert i st w = (w', Ok st') ->
  w' = w /\
  (exists key, sp_heap st' = heappush (sp_heap st) (key, i)) /\
  sp_k st' = sp_k st /\ sp_l st' = sp_l st /\ sp_q st' = sp_q st /\
  sp_qq st' = sp_qq st /\ sp_r st' = sp_r st /\
  sp_r_sum st' = sp_r_sum st /\
  sp_iter_count st' = sp_iter_count st /\
  sp_current_delta st' = sp_current_delta st /\
  sp_i_star st' = sp_i_star st.
Proof.
  unfold sp_reinsert. intros Hre. do 3 bind_step Hre.
  apply py_div_ok in Hm1. destruct Hm1 as (_ & _ & ->).
  apply ret_ok in Hre. destruct Hre as [-> ->]. simpl.
  split; [reflexivity|]. split; [eauto|]. repeat split.
Qed.

Lemma sp_recompute_effect st w w' st' :
  sp_recompute epsilon st w = (w', Ok st') ->
  w' = w /\
  sp_heap st' = sp_heap st /\
  sp_k st' = sp_k st /\ sp_l st' = sp_l st /\ sp_q st' = sp_q st /\
  sp_qq st' = sp_qq st /\ sp_r st' = sp_r st /\
  sp_r_sum st' = sp_r_sum st /\
  sp_iter_count st' = sp_iter_count st /\
  (sp_iter_count st mod 10000 <> 0 -> st' = st).
Proof.
  unfold sp_recompute. intros Hre.
  destruct (sp_iter_count st mod 10000 =? 0) eqn:E.
  - do 3 bind_step Hre. apply ret_ok in Hre. destruct Hre as [-> ->].
    simpl. repeat split. apply Z.eqb_eq in E. intros Hne. contradiction.
  - apply ret_ok in Hre. destruct Hre as [-> ->]. repeat split.
Qed.

Lemma sp_iter_effect st w w' st' :
  sp_iter n epsilon zeta theta_multiplier beta st w = (w', Ok st') ->
  (exists ev, run_log w' = run_log w ++ [ev]) /\
  sp_iter_count st' = sp_iter_count st + 1 /\
  ((sp_iter_count st + 1) mod 10000 <> 0 ->
   sp_current_delta st' = sp_current_delta st /\
   sp_i_star st' = sp_i_star st).
Proof.
  unfold sp_iter. intros Hit. bind_step Hit. bind_step Hit.
  destruct a as [i st1]. simpl in *.
  destruct (sp_advance_effect _ _ _ _ _ Hm) as (Hlog & Hc1 & Hd1 & Hs1).
  destruct (sp_reinsert_effect _ _ _ _ _ Hm0)
    as (-> & _ & _ & _ & _ & _ & _ & _ & Hc2 & Hd2 & Hs2).
  destruct (sp_recompute_effect _ _ _ _ Hit)
    as (-> & _ & _ & _ & _ & _ & _ & _ & Hc3 & Hsame).
  split; [exact Hlog|]. split; [congruence|].
  intros Hmod. rewrite Hsame by (rewrite Hc2, Hc1; exact Hmod).
  split; congruence.
Qed.

(** A normal return of the loop comes right after a recomputation: the
    passes made since the loop was entered bring the pass counter to a
    positive multiple of 10000, each pass having issued exactly one run. *)
Lemma sp_loop_passes fuel : forall st w w' i_star current_delta,
  sp_loop n epsilon delta zeta theta_multiplier fuel beta st w
  = (w', Ok (i_star, current_delta)) ->
  0 <= sp_iter_count st ->
  (np_gt (sp_current_delta st) delta = false ->
   sp_iter_count st mod 10000 = 0 /\ 0 < sp_iter_count st) ->
  exists passes : nat,
    (passes <= fuel)%nat /\
    length (run_log w') = (length (run_log w) + passes)%nat /\
    (sp_iter_count st + Z.of_nat passes) mod 10000 = 0 /\
    0 < sp_iter_count st + Z.of_nat passes.
Proof.
  induction fuel as [|fuel IH]; intros st w w' i_star cd Hl Hnn Hexit;
    simpl in Hl; destruct (np_gt (sp_current_delta st) delta) eqn:E;
    try discriminate.
  - bind_step Hl. apply ret_ok in Hl. destruct Hl as [_ ->].
    exists 0%nat. rewrite Z.add_0_r, Nat.add_0_r.
    destruct (Hexit eq_refl). auto.
  - bind_step Hl.
    destruct (sp_iter_effect _ _ _ _ Hm) as ([ev Hlog] & Hc & Hsame).
    destruct (IH _ _ _ _ _ Hl) as (p & Hp & Hlen & Hmod & Hpos).
    + lia.
    + intros Hex. rewrite Hc.
      destruct (Z.eq_dec ((sp_iter_count st + 1) mod 10000) 0) as [Hz|Hnz].
      * split; [exact Hz|lia].
      * destruct (Hsame Hnz) as [Hd _]. rewrite Hd in Hex. congruence.
    + exists (S p). split; [lia|]. rewrite Hlen, Hlog, length_app. simpl.
      split; [lia|]. rewrite Hc in Hmod, Hpos.
      replace (sp_iter_count st + Z.of_nat (S p))
        with (sp_iter_count st + 1 + Z.of_nat p) by lia.
      auto.
  - bind_step Hl. apply ret_ok in Hl. destruct Hl as [_ ->].
    exists 0%nat. rewrite Z.add_0_r, Nat.add_0_r.
    destruct (Hexit eq_refl). split; [lia|]. auto.
Qed.
End ProcrastinationLoop.

(** X12. With [delta >= 1] the main loop is never entered, no run is
    issued and [structured_procrastination] cannot return normally.  For
    non-zero [k0] and [epsilon], positive [zeta] and [k_bar / k0]: with no
    configuration, or with [log2(k_bar / k0) > 0], the set-up succeeds and
    the [return] reads [i_star] before any assignment (UnboundLocalError);
    with [log2(k_bar / k0) = 0] the first [int(np.ceil(...))] of the
    set-up is applied to [-inf] (OverflowError), and with
    [log2(k_bar / k0) < 0] to NaN (ValueError). *)
Theorem sp_delta_at_least_one `{Numerics}
    (n : Z) (epsilon delta zeta k0 k_bar theta_multiplier : Q)
    (fuel : nat) (w : World) :
  (1 <= delta)%Q ->
  ~ (k0 == 0)%Q -> ~ (epsilon == 0)%Q ->
  (0 < zeta)%Q -> (0 < k_bar / k0)%Q ->
  structured_procrastination n epsilon delta zeta k0 k_bar theta_multiplier
    fuel w
  = (w, Raise (if n <=? 0 then UnboundLocalError
               else if Qltb 0 (np_log2 (k_bar / k0)) then UnboundLocalError
               else if Qeqb (np_log2 (k_bar / k0)) 0 then OverflowError
               else ValueError)).
Proof.
  intros Hd Hk He Hz Hratio.
  unfold structured_procrastination, bind at 1, py_div.
  rewrite (Qeqb_nonzero _ Hk). unfold ret at 1. unfold np_log2_f64.
  rewrite (proj2 (Qltb_lt _ _) Hratio).
  set (b := np_log2 (k_bar / k0)).
  assert (He2 : ~ (epsilon * epsilon == 0)%Q) by nra.
  assert (Hscale : (0 < C / (epsilon * epsilon))%Q).
  { apply Qlt_shift_div_l; [nra|]. unfold C. lra. }
  assert (Hreturn : forall st,
             sp_setup n epsilon zeta k0 (F64 b) (xrange n) sp_empty w
             = (w, Ok st) ->
             bind (sp_setup n epsilon zeta k0 (F64 b) (xrange n) sp_empty)
               (sp_loop n epsilon delta zeta theta_multiplier fuel (F64 b)) w
             = (w, Raise UnboundLocalError)).
  { intros st Hs. unfold bind. rewrite Hs.
    destruct (sp_setup_fields _ _ _ _ _ _ _ _ _ _ Hs) as (_ & Hcd & _ & Hi).
    simpl in Hcd, Hi.
    assert (Hexit : np_gt (sp_current_delta st) delta = false).
    { rewrite Hcd. simpl. apply Qltb_ge. exact Hd. }
    destruct fuel; simpl; rewrite Hexit, Hi; reflexivity. }
  destruct (n <=? 0) eqn:En.
  { apply Z.leb_le in En. apply (Hreturn sp_empty).
    unfold xrange. replace (Z.to_nat n) with 0%nat by lia. reflexivity. }
  apply Z.leb_gt in En.
  assert (Hcons : exists i rest, xrange n = i :: rest).
  { unfold xrange. destruct (Z.to_nat n) as [|m] eqn:Em; [lia|].
    simpl. eauto. }
  destruct Hcons as (i & rest & Hx).
  assert (Hn : (0 < inject_Z n)%Q).
  { change 0%Q with (inject_Z 0). rewrite <- Zlt_Qlt. exact En. }
  assert (Hzne : Qeqb zeta 0 = false).
  { apply Qeqb_nonzero. intros E. rewrite E in Hz. lra. }
  assert (Harg : (b * 3 * inject_Z n / zeta
                  == b * (3 * inject_Z n / zeta))%Q).
  { unfold Qdiv. ring. }
  assert (Hc : (0 < 3 * inject_Z n / zeta)%Q).
  { apply Qlt_shift_div_l; [exact Hz|]. lra. }
  destruct (Qltb 0 b) eqn:Eb.
  - apply Qltb_lt in Eb.
    assert (Hpos : Qltb 0 (b * 3 * inject_Z n / zeta) = true).
    { apply Qltb_lt. rewrite Harg. nra. }
    destruct (sp_setup_ok n epsilon zeta k0 (F64 b) (xrange n) sp_empty w
                (np_log (b * 3 * inject_Z n / zeta) * (C / (epsilon * epsilon)))
                He2) as [st Hs].
    { simpl np_mul. unfold np_div. rewrite Hzne. unfold np_log_f64.
      rewrite Hpos. reflexivity. }
    exact (Hreturn st Hs).
  - apply Qltb_ge in Eb.
    assert (Hneg : Qltb 0 (b * 3 * inject_Z n / zeta) = false).
    { apply Qltb_ge. rewrite Harg. nra. }
    unfold bind at 1. rewrite Hx.
    destruct (Qeqb b 0) eqn:Ez.
    + apply Qeq_bool_iff in Ez.
      assert (Hzero : Qeqb (b * 3 * inject_Z n / zeta) 0 = true).
      { apply Qeq_bool_iff. rewrite Harg, Ez. ring. }
      rewrite (sp_setup_raise n epsilon zeta k0 (F64 b) i rest sp_empty w
                 OverflowError He2); [reflexivity|].
      simpl np_mul. unfold np_div. rewrite Hzne. unfold np_log_f64.
      rewrite Hneg, Hzero. simpl np_mul.
      rewrite (proj2 (Qltb_lt _ _) Hscale). reflexivity.
    + assert (Hnz : Qeqb (b * 3 * inject_Z n / zeta) 0 = false).
      { apply Qeqb_nonzero. rewrite Harg. intros E.
        assert (Hb : ~ (b == 0)%Q).
        { intros Eb0. apply Qeq_bool_iff in Eb0. unfold Qeqb in Ez.
          congruence. }
        apply Hb. nra. }
      rewrite (sp_setup_raise n epsilon zeta k0 (F64 b) i rest sp_empty w
                 ValueError He2); [reflexivity|].
      simpl np_mul. unfold np_div. rewrite Hzne. unfold np_log_f64.
      rewrite Hneg, Hnz. reflexivity.
Qed.

Lemma sp_delta_at_least_one_witness :
  @structured_procrastination flat_numerics 3 (9 # 10) 1 (9 # 10) 1 4 2
    5 scenario_world
  = (scenario_world, Raise UnboundLocalError).
Proof.
  apply (@sp_delta_at_least_one flat_numerics 3 (9 # 10) 1 (9 # 10) 1 4 2
           5 scenario_world).
  - vm_compute. discriminate.
  - vm_compute. discriminate.
  - vm_compute. discriminate.
  - vm_compute. reflexivity.
  - vm_compute. reflexivity.
Defined.

(** The same call with [k_bar = k0], under the coarse numerics: the
    logarithm of the set-up is that of zero. *)
Example sp_delta_at_least_one_overflow :
  @structured_procrastination coarse_numerics 3 (9 # 10) 1 (9 # 10) 1 1 2
    5 scenario_world
  = (scenario_world, Raise OverflowError).
Proof. vm_compute. reflexivity. Qed.

(** X13. Every pass of the main loop issues exactly one run, and the loop
    returns normally only right after a periodic recomputation: entered
    with [current_delta > delta], it returns after a positive number of
    passes that brings the pass counter to a multiple of 10000.  Hence with
    [delta < 1], when [structured_procrastination] returns normally the
    number of runs it issued is a positive multiple of 10000. *)
Theorem sp_returns_after_recomputation `{Numerics}
    (n : Z) (epsilon delta zeta k0 k_bar theta_multiplier : Q) :
  (forall fuel beta st w w' i_star current_delta,
      sp_loop n epsilon delta zeta theta_multiplier fuel beta st w
      = (w', Ok (i_star, current_delta)) ->
      0 <= sp_iter_count st ->
      np_gt (sp_current_delta st) delta = true ->
      exists passes : Z,
        0 < passes <= Z.of_nat fuel /\
        Z.of_nat (length (run_log w'))
        = Z.of_nat (length (run_log w)) + passes /\
        (sp_iter_count st + passes) mod 10000 = 0) /\
  (forall fuel w w' i_star current_delta,
      (delta < 1)%Q ->
      structured_procrastination n epsilon delta zeta k0 k_bar
        theta_multiplier fuel w
      = (w', Ok (i_star, current_delta)) ->
      exists rounds : Z,
        0 < rounds /\
        10000 * rounds <= Z.of_nat fuel /\
        Z.of_nat (length (run_log w'))
        = Z.of_nat (length (run_log w)) + 10000 * rounds).
Proof.
  assert (Hloop : forall fuel beta st w w' i_star current_delta,
      sp_loop n epsilon delta zeta theta_multiplier fuel beta st w
      = (w', Ok (i_star, current_delta)) ->
      0 <= sp_iter_count st ->
      np_gt (sp_current_delta st) delta = true ->
      exists passes : Z,
        0 < passes <= Z.of_nat fuel /\
        Z.of_nat (length (run_log w'))
        = Z.of_nat (length (run_log w)) + passes /\
        (sp_iter_count st + passes) mod 10000 = 0).
  { intros fuel beta st w w' i_star cd Hl Hnn Hgt.
    destruct (sp_loop_passes _ _ _ _ _ _ _ _ _ _ _ _ Hl Hnn)
      as (p & Hp & Hlen & Hmod & Hpos); [congruence|].
    exists (Z.of_nat p). split; [|split; [lia|exact Hmod]].
    split; [|lia].
    destruct p as [|p]; [|lia]. exfalso.
    destruct fuel; simpl in Hl; rewrite Hgt in Hl; [discriminate|].
    bind_step Hl.
    destruct (sp_iter_effect _ _ _ _ _ _ _ _ _ Hm) as ([ev Hlog] & _).
    assert (Hge : (length (run_log w0) <= length (run_log w'))%nat).
    { destruct (np_gt (sp_current_delta a) delta) eqn:E.
      - assert (Hnn' : 0 <= sp_iter_count a).
        { destruct (sp_iter_effect _ _ _ _ _ _ _ _ _ Hm) as (_ & Hc & _).
          lia. }
        destruct (sp_loop_passes _ _ _ _ _ _ _ _ _ _ _ _ Hl Hnn')
          as (p' & _ & Hlen' & _); [congruence|]. lia.
      - destruct fuel; simpl in Hl; rewrite E in Hl; bind_step Hl;
          apply ret_ok in Hl; destruct Hl as [_ ->]; lia. }
    rewrite Hlog, length_app in Hge. simpl in Hge. lia. }
  split; [exact Hloop|].
  intros fuel w w' i_star cd Hd Hsp.
  unfold structured_procrastination in Hsp.
  bind_step Hsp. apply py_div_ok in Hm. destruct Hm as (_ & -> & ->).
  bind_step Hsp.
  destruct (sp_setup_fields _ _ _ _ _ _ _ _ _ _ Hm) as (-> & Hcd & Hc & _).
  simpl in Hcd, Hc.
  destruct (Hloop _ _ _ _ _ _ _ Hsp) as (p & Hp & Hlen & Hmod).
  - rewrite Hc. lia.
  - rewrite Hcd. simpl. apply Qltb_lt. exact Hd.
  - rewrite Hc in Hmod. simpl in Hmod.
    exists (p / 10000).
    assert (Hdiv : p = 10000 * (p / 10000))
      by (apply Z.div_exact; [lia|exact Hmod]).
    split; [|split]; lia.
Qed.

Lemma sp_returns_after_recomputation_witness :
  exists passes : Z,
    0 < passes <= Z.of_nat 1 /\
    Z.of_nat (length (run_log
                        (fst (@sp_loop flat_numerics 1 (9 # 10) (9 # 10)
                                (9 # 10) 2 1 (F64 1) sp_late_state
                                scenario_world))))
    = Z.of_nat (length (run_log scenario_world)) + passes /\
    (sp_iter_count sp_late_state + passes) mod 10000 = 0.
Proof.
  destruct (@sp_returns_after_recomputation flat_numerics 1 (9 # 10)
              (9 # 10) (9 # 10) 1 4 2) as [Hloop _].
  apply (Hloop 1%nat (F64 1) sp_late_state scenario_world _ 0
           (F64 (19 # 30))).
  - vm_compute. reflexivity.
  - vm_compute. discriminate.
  - vm_compute. reflexivity.
Defined.

(** ** The heap discipline *)

Lemma tuple_ltb_spec (a b : Q * Z) :
  tuple_ltb a b = true <->
  ((fst a == fst b)%Q /\ snd a < snd b) \/ (fst a < fst b)%Q.
Proof.
  unfold tuple_ltb, Qeqb.
  destruct (Qeq_bool (fst a) (fst b)) eqn:E.
  - apply Qeq_bool_iff in E. rewrite Z.ltb_lt. split.
    + intros Hlt. left. auto.
    + intros [[_ Hlt]|Hlt]; [exact Hlt|lra].
  - rewrite Qltb_lt. split.
    + intros Hlt. right. exact Hlt.
    + intros [[Heq _]|Hlt]; [|exact Hlt].
      apply Qeq_bool_iff in Heq. congruence.
Qed.

Lemma tuple_ltb_false (a b : Q * Z) :
  tuple_ltb a b = false <->
  (fst b < fst a)%Q \/ ((fst a == fst b)%Q /\ snd b <= snd a).
Proof.
  destruct (tuple_ltb a b) eqn:E.
  - apply tuple_ltb_spec in E. split; [discriminate|].
    intros [Hlt|[Heq Hle]]; destruct E as [[Heq' Hlt']|Hlt']; lra || lia.
  - split; [|reflexivity]. intros _.
    destruct (Qlt_le_dec (fst b) (fst a)) as [Hlt|Hle]; [left; exact Hlt|].
    right.
    assert (Hn : ~ (((fst a == fst b)%Q /\ snd a < snd b)
                    \/ (fst a < fst b)%Q)).
    { intros Hs. apply tuple_ltb_spec in Hs. congruence. }
    destruct (Qeq_dec (fst a) (fst b)) as [Heq|Hne].
    + split; [exact Heq|]. destruct (Z_lt_le_dec (snd a) (snd b)); [|lia].
      exfalso. apply Hn. left. auto.
    + exfalso. apply Hn. right.
      destruct (Qlt_le_dec (fst a) (fst b)) as [Hlt|Hge]; [exact Hlt|].
      exfalso. apply Hne. lra.
Qed.

Lemma tuple_ltb_asym (a b : Q * Z) :
  tuple_ltb a b = true -> tuple_ltb b a = false.
Proof.
  intros Hab. apply tuple_ltb_spec in Hab. apply tuple_ltb_false.
  destruct Hab as [[Heq Hlt]|Hlt]; [right; split; [lra|lia]|left; exact Hlt].
Qed.

Lemma tuple_ltb_trans (item least other : Q * Z) :
  tuple_ltb item least = true -> tuple_ltb other least = false ->
  tuple_ltb other item = false.
Proof.
  intros H1 H2. apply tuple_ltb_spec in H1. apply tuple_ltb_false in H2.
  apply tuple_ltb_false.
  destruct H1 as [[Heq Hlt]|Hlt]; destruct H2 as [Hlt2|[Heq2 Hle2]].
  - left. lra.
  - right. split; [lra|lia].
  - left. lra.
  - left. lra.
Qed.

Lemma heappush_perm (heap : list (Q * Z)) (item : Q * Z) :
  heappush heap item ≡ₚ item :: heap.
Proof.
  induction heap as [|least rest IH]; simpl.
  - reflexivity.
  - destruct (tuple_ltb item least); [reflexivity|].
    rewrite IH. apply perm_swap.
Qed.

Lemma heappush_sorted (heap : list (Q * Z)) (item : Q * Z) :
  heap_sorted heap -> heap_sorted (heappush heap item).
Proof.
  induction heap as [|least rest IH]; simpl.
  - intros _. split; [constructor|exact I].
  - intros [Hall Hs]. destruct (tuple_ltb item least) eqn:E.
    + simpl. split; [|split; assumption].
      constructor; [apply tuple_ltb_asym; exact E|].
      eapply Forall_impl; [exact Hall|]. intros other Ho.
      eapply tuple_ltb_trans; eassumption.
    + simpl. split; [|apply IH; exact Hs].
      apply Forall_forall. intros other Hin.
      apply elem_of_heappush in Hin. destruct Hin as [->|Hin]; [exact E|].
      rewrite Forall_forall in Hall. apply Hall. exact Hin.
Qed.

Section ProcrastinationHeap.
Context `{Numerics}.
Variables (n : Z) (epsilon delta zeta k0 theta_multiplier : Q).
Variable beta : float64.

Lemma sp_setup_heap configs : forall st w w' st',
  heap_sorted (sp_heap st) ->
  sp_setup n epsilon zeta k0 beta configs st w = (w', Ok st') ->
  heap_sorted (sp_heap st') /\
  map snd (sp_heap st') ≡ₚ map snd (sp_heap st) ++ configs.
Proof.
  induction configs as [|i rest IH]; intros st w w' st' Hsorted Hs;
    simpl in Hs.
  - apply ret_ok in Hs. destruct Hs as [-> _]. rewrite app_nil_r. auto.
  - bind_step Hs. apply py_div_ok in Hm. destruct Hm as (_ & -> & ->).
    bind_step Hs. apply int_ceil_ok in Hm.
    destruct Hm as (log_val & _ & -> & ->).
    apply IH in Hs; [|simpl; apply heappush_sorted; exact Hsorted].
    destruct Hs as [Hs Hperm]. split; [exact Hs|].
    rewrite Hperm. simpl sp_heap. rewrite heappush_perm. simpl map.
    rewrite (Permutation_middle (map snd (sp_heap st)) rest i).
    reflexivity.
Qed.

Lemma sp_iter_heap st w w' st' :
  sp_heap_inv n st ->
  sp_iter n epsilon zeta theta_multiplier beta st w = (w', Ok st') ->
  sp_heap_inv n st'.
Proof.
  intros [Hsorted Hperm] Hit. unfold sp_iter in Hit.
  bind_step Hit. bind_step Hit. destruct a as [i st1]. simpl in *.
  destruct (sp_advance_inv _ _ _ _ _ _ _ _ _ _ Hm)
    as (key & _ & _ & _ & Hh & _).
  destruct (sp_reinsert_effect _ _ _ _ _ Hm0) as (_ & [key' Hh'] & _).
  destruct (sp_recompute_effect _ _ _ _ _ Hit) as (_ & Hh'' & _).
  rewrite Hh in Hsorted, Hperm. simpl in Hsorted, Hperm.
  unfold sp_heap_inv. rewrite Hh'', Hh'. split.
  - apply heappush_sorted. apply Hsorted.
  - rewrite heappush_perm. simpl. exact Hperm.
Qed.

Lemma sp_reachable_heap st :
  sp_reachable n epsilon delta zeta k0 theta_multiplier beta st ->
  sp_heap_inv n st.
Proof.
  induction 1 as [w w' st Hs|w w' st st' _ IH _ Hit].
  - apply sp_setup_heap in Hs; [|exact I]. exact Hs.
  - eapply sp_iter_heap; eassumption.
Qed.
End ProcrastinationHeap.

(** X14. In every state the main loop reaches, the heap holds exactly one
    entry per configuration of [xrange(n)]: no configuration is missing,
    none is duplicated, and the heap does not grow. *)
Theorem sp_heap_one_entry_per_config `{Numerics}
    (n : Z) (epsilon delta zeta k0 theta_multiplier : Q) (beta : float64)
    (st : sp_state) :
  sp_reachable n epsilon delta zeta k0 theta_multiplier beta st ->
  map snd (sp_heap st) ≡ₚ xrange n /\
  NoDup (map snd (sp_heap st)) /\
  length (sp_heap st) = Z.to_nat n.
Proof.
  intros Hreach.
  destruct (sp_reachable_heap _ _ _ _ _ _ _ _ Hreach) as [_ Hperm].
  split; [exact Hperm|]. split.
  - rewrite Hperm. unfold xrange.
    apply (NoDup_fmap_2 Z.of_nat). apply NoDup_seq.
  - rewrite <- (length_map snd), Hperm. unfold xrange.
    rewrite length_map, length_seq. reflexivity.
Qed.

(** X15. In every state the main loop reaches, the configuration a pass
    pops is the one at the least heap entry: no entry left in the heap
    compares below the popped [(key, i)], keys first and configuration
    index on equal keys. *)
Theorem sp_pops_least `{Numerics}
    (n : Z) (epsilon delta zeta k0 theta_multiplier : Q) (beta : float64)
    (st st1 : sp_state) (w w1 : World) (i : Z) :
  sp_reachable n epsilon delta zeta k0 theta_multiplier beta st ->
  sp_advance n epsilon zeta theta_multiplier beta st w = (w1, Ok (i, st1)) ->
  exists key,
    sp_heap st = (key, i) :: sp_heap st1 /\
    Forall (fun other =>
              (key < fst other)%Q \/
              ((fst other == key)%Q /\ i < snd other)) (sp_heap st1).
Proof.
  intros Hreach Hadv.
  destruct (sp_reachable_heap _ _ _ _ _ _ _ _ Hreach) as [Hsorted Hperm].
  destruct (sp_advance_inv _ _ _ _ _ _ _ _ _ _ Hadv)
    as (key & _ & _ & _ & Hh & _).
  exists key. split; [exact Hh|].
  rewrite Hh in Hsorted, Hperm. destruct Hsorted as [Hall _].
  assert (Hnd : NoDup (i :: map snd (sp_heap st1))).
  { simpl in Hperm. rewrite Hperm. unfold xrange.
    apply (NoDup_fmap_2 Z.of_nat). apply NoDup_seq. }
  apply NoDup_cons in Hnd. destruct Hnd as [Hfresh _].
  apply Forall_forall. intros other Hin.
  rewrite Forall_forall in Hall. specialize (Hall _ Hin).
  apply tuple_ltb_false in Hall. simpl in Hall.
  destruct Hall as [Hlt|[Heq Hle]]; [left; exact Hlt|].
  right. split; [exact Heq|].
  assert (snd other <> i).
  { intros <-. apply Hfresh. apply list_elem_of_fmap. eauto. }
  lia.
Qed.

Lemma sp_heap_one_entry_per_config_witness :
  map snd (sp_heap scenario_sp_setup) ≡ₚ xrange 3 /\
  NoDup (map snd (sp_heap scenario_sp_setup)) /\
  length (sp_heap scenario_sp_setup) = Z.to_nat 3.
Proof.
  apply (@sp_heap_one_entry_per_config flat_numerics 3 (9 # 10) (9 # 10)
           (9 # 10) 1 2 (F64 1) scenario_sp_setup).
  apply (@sp_reach_setup flat_numerics 3 (9 # 10) (9 # 10) (9 # 10) 1 2 (F64 1)
           scenario_world scenario_world).
  vm_compute. reflexivity.
Defined.

Lemma sp_pops_least_witness :
  exists key,
    sp_heap scenario_sp_setup
    = (key, 0) :: sp_heap (snd (sp_pass_of (snd scenario_sp_pass))) /\
    Forall (fun other =>
              (key < fst other)%Q \/
              ((fst other == key)%Q /\ 0 < snd other))
           (sp_heap (snd (sp_pass_of (snd scenario_sp_pass)))).
Proof.
  apply (@sp_pops_least flat_numerics 3 (9 # 10) (9 # 10) (9 # 10) 1 2 (F64 1)
           scenario_sp_setup _ scenario_world (fst scenario_sp_pass) 0).
  - apply (@sp_reach_setup flat_numerics 3 (9 # 10) (9 # 10) (9 # 10) 1 2 (F64 1)
             scenario_world scenario_world).
    vm_compute. reflexivity.
  - vm_compute. reflexivity.
Defined.

(** ** The charge bookkeeping *)

Lemma sumQ_app (l1 l2 : list Q) : (sumQ (l1 ++ l2) == sumQ l1 + sumQ l2)%Q.
Proof.
  induction l1 as [|x l1 IH]; simpl app.
  - unfold sumQ at 2. simpl. ring.
  - rewrite !sumQ_cons, IH. ring.
Qed.

Lemma sumQ_insert (l : list Q) : forall (p : nat) (x old : Q),
  l !! p = Some old -> (sumQ (<[p := x]> l) == sumQ l + (x - old))%Q.
Proof.
  induction l as [|y l IH]; intros p x old Hp.
  - rewrite lookup_nil in Hp. discriminate.
  - destruct p as [|p]; simpl in Hp |- *.
    + inversion Hp; subst. rewrite !sumQ_cons. ring.
    + rewrite !sumQ_cons, (IH _ _ _ Hp). ring.
Qed.

Lemma py_store_sum (l l' : list Q) (i : Z) (x old : Q) :
  py_index l i = Some old -> py_store l i x = Some l' ->
  (sumQ l' == sumQ l + (x - old))%Q.
Proof.
  unfold py_index, py_store.
  destruct ((0 <=? i) && (i <? Z.of_nat (length l))).
  - intros Hold [= <-]. apply sumQ_insert. exact Hold.
  - destruct ((- Z.of_nat (length l) <=? i) && (i <? 0)); [|discriminate].
    intros Hold [= <-]. apply sumQ_insert. exact Hold.
Qed.

Lemma sp_grow_row_sum (cnt : nat) : forall theta l_i r_i q_i,
  (sumQ (snd (fst (sp_grow cnt theta l_i r_i q_i))) == sumQ r_i)%Q.
Proof.
  induction cnt as [|cnt IH]; intros theta l_i r_i q_i; simpl.
  - reflexivity.
  - rewrite IH, sumQ_app. unfold sumQ at 2. simpl. ring.
Qed.

Section ProcrastinationCharges.
Context `{Numerics}.
Variables (n : Z) (epsilon delta zeta k0 theta_multiplier : Q).
Variable beta : float64.

Lemma sp_advance_charges st w w1 i st1 :
  sp_advance n epsilon zeta theta_multiplier beta st w = (w1, Ok (i, st1)) ->
  exists r_i ll old charged r_i1 r_sum_i cnt theta l_i q_i,
    py_index (sp_r st) i = Some r_i /\
    py_index r_i ll = Some old /\
    py_store r_i ll charged = Some r_i1 /\
    py_index (sp_r_sum st) i = Some r_sum_i /\
    py_store (sp_r_sum st) i (r_sum_i + (charged - old))%Q
    = Some (sp_r_sum st1) /\
    py_store (sp_r st) i (snd (fst (sp_grow cnt theta l_i r_i1 q_i)))
    = Some (sp_r st1).
Proof.
  unfold sp_advance. intros Hadv.
  bind_step Hadv. bind_step Hadv.
  destruct a0 as [|[ll theta] q_i]; [discriminate|].
  bind_step Hadv. bind_step Hadv. bind_step Hadv. clear Hm3.
  bind_step Hadv. do 8 bind_step Hadv.
  apply ret_ok in Hadv. destruct Hadv as [Heq ->].
  inversion Heq; subst; clear Heq. simpl.
  do 10 eexists. repeat split; eassumption.
Qed.

Lemma sp_iter_sum st w w' st' :
  sp_inv st -> sp_sum_inv st ->
  sp_iter n epsilon zeta theta_multiplier beta st w = (w', Ok st') ->
  sp_sum_inv st'.
Proof.
  intros (_ & Hheap & _) [Hlen Hsum] Hit. unfold sp_iter in Hit.
  bind_step Hit. bind_step Hit. destruct a as [i st1]. simpl in *.
  destruct (sp_advance_inv _ _ _ _ _ _ _ _ _ _ Hm)
    as (key & _ & _ & _ & Hh & _).
  assert (Hi : 0 <= i).
  { apply (Hheap (key, i)). rewrite Hh. apply elem_of_cons. auto. }
  destruct (sp_advance_charges _ _ _ _ _ Hm)
    as (r_i & ll & old & charged & r_i1 & r_sum_i & cnt & theta & l_i & q_i
        & Hri & Hold & Hst & Hsi & Hs1 & Hr1).
  destruct (sp_reinsert_effect _ _ _ _ _ Hm0)
    as (_ & _ & _ & _ & _ & _ & Hr2 & Hs2 & _).
  destruct (sp_recompute_effect _ _ _ _ _ Hit)
    as (_ & _ & _ & _ & _ & _ & Hr3 & Hs3 & _).
  destruct (py_store_nonneg _ _ _ _ Hi Hs1) as [Es _].
  destruct (py_store_nonneg _ _ _ _ Hi Hr1) as [Er Hrl].
  apply (py_index_nonneg _ _ _ Hi) in Hri, Hsi.
  unfold sp_sum_inv. rewrite Hr3, Hs3, Hr2, Hs2, Er, Es.
  split; [rewrite !length_insert; exact Hlen|].
  intros j r_j s_j Hrj Hsj.
  destruct (decide (j = Z.to_nat i)) as [->|Hne].
  - rewrite list_lookup_insert_eq in Hrj by exact Hrl.
    rewrite list_lookup_insert_eq in Hsj by lia.
    inversion Hrj; inversion Hsj; subst.
    rewrite sp_grow_row_sum, (py_store_sum _ _ _ _ _ Hold Hst).
    rewrite (Hsum _ _ _ Hri Hsi). reflexivity.
  - rewrite list_lookup_insert_ne in Hrj by congruence.
    rewrite list_lookup_insert_ne in Hsj by congruence.
    eapply Hsum; eassumption.
Qed.

Lemma sp_setup_sum configs : forall st w w' st',
  sp_sum_inv st ->
  sp_setup n epsilon zeta k0 beta configs st w = (w', Ok st') ->
  sp_sum_inv st'.
Proof.
  induction configs as [|i rest IH]; intros st w w' st' Hinv Hs;
    simpl in Hs.
  - apply ret_ok in Hs. destruct Hs as [-> _]. exact Hinv.
  - bind_step Hs. apply py_div_ok in Hm. destruct Hm as (_ & -> & ->).
    bind_step Hs. apply int_ceil_ok in Hm.
    destruct Hm as (log_val & _ & -> & ->).
    eapply IH; [|exact Hs]. destruct Hinv as [Hlen Hsum].
    unfold sp_sum_inv. simpl. split.
    + rewrite !length_app. simpl. lia.
    + intros j r_j s_j Hrj Hsj.
      destruct (decide (j < length (sp_r st))%nat) as [Hlt|Hge].
      * rewrite lookup_app_l in Hrj by exact Hlt.
        rewrite lookup_app_l in Hsj by lia.
        eapply Hsum; eassumption.
      * rewrite lookup_app_r in Hrj by lia.
        rewrite lookup_app_r in Hsj by lia.
        rewrite <- Hlen in Hsj.
        destruct (j - length (sp_r st))%nat as [|j']; simpl in Hrj, Hsj;
          [|rewrite lookup_nil in Hrj; discriminate].
        inversion Hrj; inversion Hsj; subst.
        match goal with
        | |- context [xrange ?z] => generalize (xrange z)
        end.
        intros l. induction l as [|x l IHl].
        -- reflexivity.
        -- simpl map. rewrite sumQ_cons, <- IHl. ring.
Qed.

Lemma sp_reachable_sum st :
  sp_reachable n epsilon delta zeta k0 theta_multiplier beta st ->
  sp_sum_inv st.
Proof.
  induction 1 as [w w' st Hs|w w' st st' Hreach IH _ Hit].
  - eapply sp_setup_sum; [|exact Hs]. split; [reflexivity|].
    intros j r_j s_j Hrj. simpl in Hrj. rewrite lookup_nil in Hrj.
    discriminate.
  - eapply sp_iter_sum; [|exact IH|exact Hit].
    eapply sp_reachable_inv. exact Hreach.
Qed.
End ProcrastinationCharges.

(** X16. In every state the main loop reaches, [r_sum[i]] is the sum of the
    charges [r[i][.]] of configuration [i], for every configuration: the
    incremental updates of [r_sum] never drift from the rows of [r]. *)
Theorem sp_r_sum_is_row_sum `{Numerics}
    (n : Z) (epsilon delta zeta k0 theta_multiplier : Q) (beta : float64)
    (st : sp_state) (i : Z) (r_i : list Q) (r_sum_i : Q) :
  sp_reachable n epsilon delta zeta k0 theta_multiplier beta st ->
  0 <= i ->
  py_index (sp_r st) i = Some r_i ->
  py_index (sp_r_sum st) i = Some r_sum_i ->
  (r_sum_i == sumQ r_i)%Q.
Proof.
  intros Hreach Hi Hr Hs.
  destruct (sp_reachable_sum _ _ _ _ _ _ _ _ Hreach) as [_ Hsum].
  apply (py_index_nonneg _ _ _ Hi) in Hr, Hs.
  eapply Hsum; eassumption.
Qed.

Lemma sp_r_sum_is_row_sum_witness :
  (0 + (1 - 0) == sumQ [1])%Q.
Proof.
  apply (@sp_r_sum_is_row_sum flat_numerics 3 (9 # 10) (9 # 10) (9 # 10)
           1 2 (F64 1)
           (sp_state_of
              (snd (@sp_iter flat_numerics 3 (9 # 10) (9 # 10) 2 (F64 1)
                      scenario_sp_setup scenario_world))) 0).
  - apply (@sp_reach_iter flat_numerics 3 (9 # 10) (9 # 10) (9 # 10) 1 2 (F64 1)
             scenario_world
             (fst (@sp_iter flat_numerics 3 (9 # 10) (9 # 10) 2 (F64 1)
                     scenario_sp_setup scenario_world))
             scenario_sp_setup).
    + apply (@sp_reach_setup flat_numerics 3 (9 # 10) (9 # 10) (9 # 10)
               1 2 (F64 1) scenario_world scenario_world).
      vm_compute. reflexivity.
    + vm_compute. reflexivity.
    + vm_compute. reflexivity.
  - lia.
  - vm_compute. reflexivity.
  - vm_compute. reflexivity.
Defined.

(** ** What can make a pass fail *)

Lemma bind_of_ok {S A B} (m : M S A) (f : A -> M S B) (s s1 : S) (a : A) :
  m s = (s1, Ok a) -> bind m f s = f a s1.
Proof. intros Hm. unfold bind. rewrite Hm. reflexivity. Qed.

Lemma bind_of_raise {S A B} (m : M S A) (f : A -> M S B) (s s1 : S) e :
  m s = (s1, Raise e) -> bind m f s = (s1, Raise e).
Proof. intros Hm. unfold bind. rewrite Hm. reflexivity. Qed.

Lemma lift_opt_some {S A} (e : exn) (o : option A) (a : A) (s : S) :
  o = Some a -> lift_opt e o s = (s, Ok a).
Proof. intros ->. reflexivity. Qed.

Lemma py_store_ok {A} (l : list A) (i : Z) (x : A) :
  0 <= i -> (Z.to_nat i < length l)%nat ->
  py_store l i x = Some (<[Z.to_nat i := x]> l).
Proof.
  intros Hi Hlt. unfold py_store.
  replace ((0 <=? i) && (i <? Z.of_nat (length l))) with true; [reflexivity|].
  symmetry. apply andb_true_iff. split; [apply Z.leb_le|apply Z.ltb_lt]; lia.
Qed.

Lemma py_index_ok {A} (l : list A) (i : Z) :
  0 <= i -> (Z.to_nat i < length l)%nat ->
  exists x, py_index l i = Some x /\ l !! Z.to_nat i = Some x.
Proof.
  intros Hi Hlt. destruct (lookup_lt_is_Some_2 l (Z.to_nat i) Hlt) as [x Hx].
  exists x. split; [apply py_index_lookup; assumption|exact Hx].
Qed.

Lemma first_extremum_range (better : Q -> Q -> bool) (l : list Q) :
  forall idx bi bv,
    fst (first_extremum better l idx bi bv) = bi \/
    idx <= fst (first_extremum better l idx bi bv)
        < idx + Z.of_nat (length l).
Proof.
  induction l as [|a rest IH]; intros idx bi bv; simpl first_extremum.
  - left. reflexivity.
  - simpl length. destruct (better a bv).
    + right. destruct (IH (idx + 1) idx a) as [->|Hr]; lia.
    + destruct (IH (idx + 1) bi bv) as [->|Hr]; [left; reflexivity|].
      right. lia.
Qed.

Lemma np_argmax_range (l : list Q) :
  l <> [] ->
  exists best, np_argmax l = Some best /\ 0 <= best < Z.of_nat (length l).
Proof.
  destruct l as [|a rest]; [congruence|]. intros _. unfold np_argmax.
  eexists. split; [reflexivity|]. simpl length.
  destruct (first_extremum_range (fun x y => Qltb y x) rest 1 0 a)
    as [->|Hr]; lia.
Qed.

(** The growth loop, started with [l_i] equal to the length of the row. *)
Lemma sp_grow_shape (cnt : nat) : forall theta l_i r_i q_i,
  l_i = Z.of_nat (length r_i) ->
  Forall (slot_ok r_i) q_i ->
  let grown := sp_grow cnt theta l_i r_i q_i in
  fst (fst grown) = Z.of_nat (length (snd (fst grown))) /\
  Forall (slot_ok (snd (fst grown))) (snd grown) /\
  length (snd grown) = (length q_i + cnt)%nat.
Proof.
  induction cnt as [|cnt IH]; intros theta l_i r_i q_i Hl Hq; simpl.
  - split; [exact Hl|]. split; [exact Hq|]. lia.
  - destruct (IH theta (l_i + 1) (r_i ++ [0%Q])
                ((l_i + 1 - 1, theta) :: q_i)) as (H1 & H2 & H3).
    + rewrite length_app. simpl. lia.
    + constructor.
      * unfold slot_ok. simpl. rewrite length_app. simpl. lia.
      * eapply Forall_impl; [exact Hq|]. intros [s t]. unfold slot_ok.
        simpl. rewrite length_app. simpl. lia.
    + split; [exact H1|]. split; [exact H2|]. rewrite H3. simpl. lia.
Qed.

Lemma xrange_elem (z x : Z) : x ∈ xrange z -> 0 <= x < z.
Proof.
  unfold xrange. intros Hin. apply list_elem_of_fmap in Hin.
  destruct Hin as (m & -> & Hm). apply elem_of_seq in Hm. lia.
Qed.

Lemma xrange_length (z : Z) : length (xrange z) = Z.to_nat z.
Proof. unfold xrange. rewrite length_map, length_seq. reflexivity. Qed.

(** The logarithm of the sample bounds: its argument is finite and
    positive whenever the set-up got through a configuration, and it stays
    so when multiplied by a squared counter. *)
Lemma np_mul_finite (x : float64) (y q : Q) :
  np_mul x y = F64 q -> exists p, x = F64 p /\ q = (p * y)%Q.
Proof.
  destruct x as [p| | |]; simpl.
  - intros [= <-]. eauto.
  - destruct (Qltb 0 y); [discriminate|]. destruct (Qltb y 0); discriminate.
  - destruct (Qltb 0 y); [discriminate|]. destruct (Qltb y 0); discriminate.
  - discriminate.
Qed.

Lemma np_div_finite (x : float64) (y q : Q) :
  np_div x y = F64 q ->
  exists p, x = F64 p /\ Qeqb y 0 = false /\ q = (p / y)%Q.
Proof.
  destruct x as [p| | |]; simpl.
  - destruct (Qeqb y 0).
    + destruct (Qltb 0 p); [discriminate|]. destruct (Qltb p 0); discriminate.
    + intros [= <-]. eauto.
  - destruct (Qltb y 0); discriminate.
  - destruct (Qltb y 0); discriminate.
  - discriminate.
Qed.

Lemma np_log_f64_finite `{Numerics} (x : float64) (q : Q) :
  np_log_f64 x = F64 q -> exists a, x = F64 a /\ (0 < a)%Q.
Proof.
  destruct x as [a| | |]; simpl; try discriminate.
  destruct (Qltb 0 a) eqn:E.
  - intros _. exists a. split; [reflexivity|]. apply Qltb_lt. exact E.
  - destruct (Qeqb a 0); discriminate.
Qed.

Lemma int_ceil_log_ok `{Numerics} {S} (x : float64) (scale a : Q) (s : S) :
  x = F64 a -> (0 < a)%Q ->
  int_ceil (np_mul (np_log_f64 x) scale) s
  = (s, Ok (Qceiling (np_log a * scale))).
Proof.
  intros -> Ha. simpl. rewrite (proj2 (Qltb_lt _ _) Ha). reflexivity.
Qed.

Lemma log_argument_scaled (beta : float64) (n : Z) (zeta a : Q) (k : Z) :
  np_div (np_mul (np_mul beta 3) (inject_Z n)) zeta = F64 a ->
  (0 < a)%Q -> 1 <= k ->
  exists a',
    np_div
      (np_mul (np_mul (np_mul (np_mul beta 3) (inject_Z n)) (inject_Z k))
         (inject_Z k)) zeta = F64 a' /\
    (0 < a')%Q.
Proof.
  intros Harg Ha Hk.
  destruct (np_div_finite _ _ _ Harg) as (p & Hp & Hz & ->).
  rewrite Hp. simpl. rewrite Hz. eexists. split; [reflexivity|].
  assert (Hkq : (1 <= inject_Z k)%Q).
  { change 1%Q with (inject_Z 1). rewrite <- Zle_Qle. exact Hk. }
  assert (E : (p * inject_Z k * inject_Z k / zeta
               == p / zeta * (inject_Z k * inject_Z k))%Q).
  { unfold Qdiv. ring. }
  rewrite E. apply Qmult_lt_0_compat; [exact Ha|].
  apply Qmult_lt_0_compat; lra.
Qed.

Section ProcrastinationShape.
Context `{Numerics}.
Variables (n : Z) (epsilon delta zeta k0 theta_multiplier : Q).
Variable beta : float64.

Lemma sp_setup_shape configs : forall (m : nat) st w w' st',
  sp_shape (Z.of_nat m) st ->
  sp_setup n epsilon zeta k0 beta configs st w = (w', Ok st') ->
  sp_shape (Z.of_nat (m + length configs)) st'.
Proof.
  induction configs as [|i rest IH]; intros m st w w' st' Hshape Hs;
    simpl in Hs.
  - apply ret_ok in Hs. destruct Hs as [-> _]. simpl.
    rewrite Nat.add_0_r. exact Hshape.
  - bind_step Hs. apply py_div_ok in Hm. destruct Hm as (_ & -> & ->).
    bind_step Hs. apply int_ceil_ok in Hm.
    destruct Hm as (log_val & _ & -> & ->).
    simpl length. replace (m + S (length rest))%nat
      with (S m + length rest)%nat by lia.
    eapply IH; [|exact Hs]. clear Hs IH.
    destruct Hshape as (Lk & Ll & Lq & Lqq & Lr & Ls & Hslots).
    rewrite Nat2Z.id in Lk, Ll, Lq, Lqq, Lr, Ls.
    unfold sp_shape. simpl. rewrite Nat2Z.id, !length_app. simpl.
    repeat (split; [lia|]).
    intros j q_j r_j l_j qq_j Hq Hr Hl Hqq.
    destruct (decide (j < m)%nat) as [Hlt|Hge].
    + rewrite lookup_app_l in Hq by lia. rewrite lookup_app_l in Hr by lia.
      rewrite lookup_app_l in Hl by lia. rewrite lookup_app_l in Hqq by lia.
      eapply Hslots; eassumption.
    + rewrite lookup_app_r in Hq by lia. rewrite lookup_app_r in Hr by lia.
      rewrite lookup_app_r in Hl by lia. rewrite lookup_app_r in Hqq by lia.
      rewrite Lq in Hq. rewrite Lr in Hr. rewrite Ll in Hl.
      rewrite Lqq in Hqq.
      destruct (j - m)%nat as [|j']; simpl in Hq, Hr, Hl, Hqq;
        [|rewrite lookup_nil in Hq; discriminate].
      match type of Hl with
      | context [Qceiling ?e] => generalize dependent (Qceiling e)
      end.
      intros l0 Hq Hr Hl.
      inversion Hq; inversion Hr; inversion Hl; inversion Hqq; subst.
      rewrite !length_map, xrange_length.
      split; [|split; [|lia]].
      * apply Forall_forall. intros [s t] Hin.
        apply list_elem_of_fmap in Hin. destruct Hin as (ll & [= -> ->] & Hll).
        apply xrange_elem in Hll. unfold slot_ok. simpl.
        rewrite length_map, xrange_length. lia.
      * intros Hne.
        destruct (Z_lt_le_dec 0 l_j) as [Hpos|Hneg]; [lia|].
        exfalso. apply Hne. unfold xrange.
        replace (Z.to_nat l_j) with 0%nat by lia. reflexivity.
Qed.

Lemma sp_advance_full st w w1 i st1 :
  sp_advance n epsilon zeta theta_multiplier beta st w = (w1, Ok (i, st1)) ->
  exists ll theta q_rest r_i old charged r_i1 qq_i l_i q2,
    py_index (sp_q st) i = Some ((ll, theta) :: q_rest) /\
    py_index (sp_r st) i = Some r_i /\
    py_index r_i ll = Some old /\
    (sp_k st1 = sp_k st \/ exists v, py_store (sp_k st) i v = Some (sp_k st1))
    /\
    (sp_qq st1 = sp_qq st
     \/ exists v, py_store (sp_qq st) i v = Some (sp_qq st1)) /\
    py_store r_i ll charged = Some r_i1 /\
    py_index (sp_qq st1) i = Some qq_i /\
    py_index (sp_l st) i = Some l_i /\
    (q2 = q_rest \/ q2 = q_rest ++ [(ll, (theta_multiplier * theta)%Q)]) /\
    py_store (sp_l st) i
      (fst (fst (sp_grow (Z.to_nat (qq_i - Z.of_nat (length q2)))
                   theta l_i r_i1 q2))) = Some (sp_l st1) /\
    py_store (sp_r st) i
      (snd (fst (sp_grow (Z.to_nat (qq_i - Z.of_nat (length q2)))
                   theta l_i r_i1 q2))) = Some (sp_r st1) /\
    py_store (sp_q st) i
      (snd (sp_grow (Z.to_nat (qq_i - Z.of_nat (length q2)))
              theta l_i r_i1 q2)) = Some (sp_q st1) /\
    (exists v, py_store (sp_r_sum st) i v = Some (sp_r_sum st1)).
Proof.
  unfold sp_advance. intros Hadv.
  bind_step Hadv. bind_step Hadv.
  destruct a0 as [|[ll theta] q_i]; [discriminate|].
  bind_step Hadv. bind_step Hadv. bind_step Hadv.
  assert (Hkqq : (fst a2 = sp_k st
                  \/ exists v, py_store (sp_k st) (snd (fst a)) v
                               = Some (fst a2)) /\
                 (snd a2 = sp_qq st
                  \/ exists v, py_store (sp_qq st) (snd (fst a)) v
                               = Some (snd a2))).
  { destruct (Qeqb a1 0).
    - do 5 bind_step Hm3. apply ret_ok in Hm3. destruct Hm3 as [-> _].
      simpl. split; right; eauto.
    - apply ret_ok in Hm3. destruct Hm3 as [-> _]. simpl. auto. }
  clear Hm3.
  bind_step Hadv. do 8 bind_step Hadv.
  apply ret_ok in Hadv. destruct Hadv as [Heq ->].
  inversion Heq; subst; clear Heq. simpl.
  destruct Hkqq as [Hk Hqq].
  exists ll, theta, q_i, a0, a1, (if negb (fst a3) then snd a3 else theta),
    a6, a7, a8,
    (if negb (fst a3) then q_i
     else q_i ++ [(ll, (theta_multiplier * theta)%Q)]).
  repeat (split; [first [eassumption|reflexivity]|]).
  split; [destruct (negb (fst a3)); auto|].
  repeat (split; [eassumption|]). eauto.
Qed.

Lemma py_store_length {A} (l l' : list A) (i : Z) (x : A) :
  py_store l i x = Some l' -> length l' = length l.
Proof.
  unfold py_store. repeat case_match; intros [= <-];
    try apply length_insert.
Qed.

Lemma sp_advance_shape st w w1 i st1 :
  sp_shape n st -> 0 <= i ->
  sp_advance n epsilon zeta theta_multiplier beta st w = (w1, Ok (i, st1)) ->
  sp_shape n st1.
Proof.
  intros (Lk & Ll & Lq & Lqq & Lr & Ls & Hslots) Hi Hadv.
  destruct (sp_advance_full _ _ _ _ _ Hadv)
    as (ll & theta & q_rest & r_i & old & charged & r_i1 & qq_i & l_i & q2
        & Hq & Hr & Hold & Hk & Hqq & Hst & Hqqi & Hl & Hq2 & Sl & Sr & Sq
        & [v Ssum]).
  destruct (py_store_nonneg _ _ _ _ Hi Sl) as [El Hll].
  destruct (py_store_nonneg _ _ _ _ Hi Sr) as [Er Hrl].
  destruct (py_store_nonneg _ _ _ _ Hi Sq) as [Eq Hql].
  apply (py_index_nonneg _ _ _ Hi) in Hq, Hr, Hl, Hqqi.
  assert (Hqqold : exists qq_old, sp_qq st !! Z.to_nat i = Some qq_old).
  { apply lookup_lt_is_Some_2. lia. }
  destruct Hqqold as [qq_old Hqqold].
  destruct (Hslots _ _ _ _ _ Hq Hr Hl Hqqold) as (Hall & Hlen & _).
  assert (Hli : l_i = Z.of_nat (length r_i)) by (apply Hlen; discriminate).
  pose proof (py_store_length _ _ _ _ Hst) as Hr1len.
  assert (Hq2ok : Forall (slot_ok r_i1) q2).
  { inversion Hall as [|? ? Hhead Hrest]; subst.
    assert (Hrest' : Forall (slot_ok r_i1) q_rest).
    { eapply Forall_impl; [exact Hrest|]. intros [s t]. unfold slot_ok.
      rewrite Hr1len. auto. }
    destruct Hq2 as [->| ->]; [exact Hrest'|].
    apply Forall_app. split; [exact Hrest'|].
    constructor; [|constructor]. unfold slot_ok in *. simpl in *.
    rewrite Hr1len. exact Hhead. }
  destruct (sp_grow_shape (Z.to_nat (qq_i - Z.of_nat (length q2))) theta
              l_i r_i1 q2 ltac:(lia) Hq2ok) as (G1 & G2 & G3).
  assert (Lk1 : length (sp_k st1) = Z.to_nat n).
  { destruct Hk as [->|[v' Hs]]; [exact Lk|].
    rewrite (py_store_length _ _ _ _ Hs). exact Lk. }
  assert (Lqq1 : length (sp_qq st1) = Z.to_nat n).
  { destruct Hqq as [->|[v' Hs]]; [exact Lqq|].
    rewrite (py_store_length _ _ _ _ Hs). exact Lqq. }
  unfold sp_shape.
  rewrite (py_store_length _ _ _ _ Sl), (py_store_length _ _ _ _ Sr),
    (py_store_length _ _ _ _ Sq), (py_store_length _ _ _ _ Ssum).
  repeat (split; [assumption|]).
  intros j q_j r_j l_j qq_j Hqj Hrj Hlj Hqqj.
  rewrite Eq in Hqj. rewrite Er in Hrj. rewrite El in Hlj.
  destruct (decide (j = Z.to_nat i)) as [->|Hne].
  - rewrite list_lookup_insert_eq in Hqj by exact Hql.
    rewrite list_lookup_insert_eq in Hrj by exact Hrl.
    rewrite list_lookup_insert_eq in Hlj by exact Hll.
    rewrite Hqqi in Hqqj.
    inversion Hqj; inversion Hrj; inversion Hlj; inversion Hqqj; subst.
    split; [exact G2|]. split; [intros _; exact G1|]. rewrite G3. lia.
  - rewrite list_lookup_insert_ne in Hqj by congruence.
    rewrite list_lookup_insert_ne in Hrj by congruence.
    rewrite list_lookup_insert_ne in Hlj by congruence.
    assert (Hqqj' : sp_qq st !! j = Some qq_j).
    { destruct Hqq as [E|[v' Hs]]; [rewrite <- E; exact Hqqj|].
      destruct (py_store_nonneg _ _ _ _ Hi Hs) as [E _].
      rewrite E, list_lookup_insert_ne in Hqqj by congruence. exact Hqqj. }
    eapply Hslots; eassumption.
Qed.

Lemma sp_iter_shape st w w' st' :
  sp_shape n st -> sp_inv st ->
  sp_iter n epsilon zeta theta_multiplier beta st w = (w', Ok st') ->
  sp_shape n st'.
Proof.
  intros Hshape Hinv Hit. unfold sp_iter in Hit.
  bind_step Hit. bind_step Hit. destruct a as [i st1]. simpl in *.
  destruct (sp_advance_counter _ _ _ _ _ _ _ _ _ _ Hinv Hm) as (Hi & _).
  pose proof (sp_advance_shape _ _ _ _ _ Hshape Hi Hm) as Hs1.
  destruct (sp_reinsert_effect _ _ _ _ _ Hm0)
    as (_ & _ & E1 & E2 & E3 & E4 & E5 & E6 & _).
  destruct (sp_recompute_effect _ _ _ _ _ Hit)
    as (_ & _ & F1 & F2 & F3 & F4 & F5 & F6 & _).
  unfold sp_shape in *.
  rewrite F1, F2, F3, F4, F5, F6, E1, E2, E3, E4, E5, E6. exact Hs1.
Qed.

Lemma sp_reachable_shape st :
  sp_reachable n epsilon delta zeta k0 theta_multiplier beta st ->
  sp_shape n st.
Proof.
  induction 1 as [w w' st Hs|w w' st st' Hreach IH _ Hit].
  - apply (sp_setup_shape (xrange n) 0%nat) in Hs.
    + rewrite xrange_length in Hs. simpl in Hs.
      unfold sp_shape in *. rewrite Nat2Z.id in Hs. exact Hs.
    + unfold sp_shape. simpl. repeat (split; [reflexivity|]).
      intros j q_j r_j l_j qq_j Hq. rewrite lookup_nil in Hq. discriminate.
  - eapply sp_iter_shape; [exact IH| |exact Hit].
    eapply sp_reachable_inv. exact Hreach.
Qed.

Ltac fwd H :=
  rewrite (bind_of_ok _ _ _ _ _ (lift_opt_some IndexError _ _ _ H));
  cbn beta iota; cbn [fst snd].

Lemma sp_setup_log_argument i rest st w w' st' :
  sp_setup n epsilon zeta k0 beta (i :: rest) st w = (w', Ok st') ->
  exists a,
    np_div (np_mul (np_mul beta 3) (inject_Z n)) zeta = F64 a /\ (0 < a)%Q.
Proof.
  simpl. intros Hs. bind_step Hs. bind_step Hs.
  apply int_ceil_ok in Hm0. destruct Hm0 as (q & Hq & _).
  apply np_mul_finite in Hq. destruct Hq as (p & Hp & _).
  apply np_log_f64_finite in Hp. exact Hp.
Qed.

Lemma sp_reachable_log_argument st :
  sp_reachable n epsilon delta zeta k0 theta_multiplier beta st ->
  0 < n ->
  exists a,
    np_div (np_mul (np_mul beta 3) (inject_Z n)) zeta = F64 a /\ (0 < a)%Q.
Proof.
  induction 1 as [w w' st Hs|w w' st st' _ IH _ _]; intros Hn.
  - unfold xrange in Hs. destruct (Z.to_nat n) as [|m] eqn:Em; [lia|].
    simpl seq in Hs. simpl map in Hs.
    eapply sp_setup_log_argument. exact Hs.
  - exact (IH Hn).
Qed.

Lemma sp_advance_outcome st w key i heap' ll theta q_rest a :
  sp_shape n st -> sp_inv st ->
  np_div (np_mul (np_mul beta 3) (inject_Z n)) zeta = F64 a -> (0 < a)%Q ->
  sp_heap st = (key, i) :: heap' ->
  0 <= i < n ->
  py_index (sp_q st) i = Some ((ll, theta) :: q_rest) ->
  ~ (epsilon == 0)%Q ->
  match snd (run i theta ll (env w)) with
  | Ok _ =>
      exists w1 st1,
        sp_advance n epsilon zeta theta_multiplier beta st w
        = (w1, Ok (i, st1))
  | Raise e =>
      snd (sp_advance n epsilon zeta theta_multiplier beta st w) = Raise e
  end.
Proof.
  intros (Lk & Ll & Lq & Lqq & Lr & Ls & Hslots) (_ & _ & Hcount)
    Harg Ha Hheap Hi Hq He.
  assert (Hin : (Z.to_nat i < Z.to_nat n)%nat) by lia.
  assert (Hi0 : 0 <= i) by lia.
  destruct (py_index_ok (sp_r st) i Hi0 ltac:(lia)) as (r_i & Hr & Hr').
  destruct (py_index_ok (sp_k st) i Hi0 ltac:(lia)) as (k_i & Hk & Hk').
  assert (Hk0 : 0 <= k_i) by (destruct (Hcount _ _ _ Hk' Hr'); lia).
  destruct (py_index_ok (sp_l st) i Hi0 ltac:(lia)) as (l_i & Hl & Hl').
  destruct (py_index_ok (sp_qq st) i Hi0 ltac:(lia)) as (qq_i & Hqq & Hqq').
  destruct (py_index_ok (sp_r_sum st) i Hi0 ltac:(lia)) as (s_i & Hs & _).
  pose proof (py_index_nonneg _ _ _ Hi0 Hq) as Hq'.
  destruct (Hslots _ _ _ _ _ Hq' Hr' Hl' Hqq') as (Hall & _ & _).
  inversion Hall as [|? ? Hslot _]; subst. unfold slot_ok in Hslot.
  simpl in Hslot.
  destruct (py_index_ok r_i ll (proj1 Hslot) ltac:(lia)) as (old & Hold & _).
  assert (Hpop : heappop (sp_heap st) = Some ((key, i), heap'))
    by (rewrite Hheap; reflexivity).
  unfold sp_advance.
  fwd Hpop. fwd Hq. fwd Hr. fwd Hold.
  destruct (log_argument_scaled beta n zeta a (k_i + 1) Harg Ha ltac:(lia))
    as (a' & Harg' & Ha').
  match goal with
  | |- context [bind (if Qeqb old 0 then ?recount else ?keep)] =>
      assert (Hkqq : exists kqq,
                 (if Qeqb old 0 then recount else keep) w = (w, Ok kqq) /\
                 length (snd kqq) = Z.to_nat n)
  end.
  { destruct (Qeqb old 0).
    - fwd Hk.
      fwd (py_store_ok (sp_k st) i (k_i + 1) Hi0 ltac:(lia)).
      unfold bind at 1, py_div.
      rewrite Qeqb_nonzero by nra. unfold ret at 1.
      rewrite (bind_of_ok _ _ _ _ _
                 (int_ceil_log_ok _ (C / (epsilon * epsilon)) a' w
                    Harg' Ha')).
      fwd (py_store_ok (sp_qq st) i
             (Qceiling (np_log a' * (C / (epsilon * epsilon))))
             Hi0 ltac:(lia)).
      eexists. split; [reflexivity|]. simpl. rewrite length_insert. exact Lqq.
    - eexists. split; [reflexivity|]. exact Lqq. }
  destruct Hkqq as ([k' qq'] & Hkqq & Lqq1). simpl in Lqq1.
  rewrite (bind_of_ok _ _ _ _ _ Hkqq). cbn beta iota. cbn [fst snd].
  destruct (run i theta ll (env w)) as [env1 [res|e]] eqn:R; simpl snd.
  2:{ erewrite bind_of_raise; [reflexivity|].
      unfold env_run. rewrite R. reflexivity. }
  erewrite bind_of_ok by (unfold env_run; rewrite R; reflexivity).
  cbn beta iota. cbn [fst snd].
  fwd Hs.
  fwd (py_store_ok (sp_r_sum st) i
         (s_i + ((if negb (fst res) then snd res else theta) - old))%Q
         Hi0 ltac:(lia)).
  fwd (py_store_ok r_i ll (if negb (fst res) then snd res else theta)
         (proj1 Hslot) ltac:(lia)).
  destruct (py_index_ok qq' i Hi0 ltac:(lia)) as (qq_i' & Hqq1 & _).
  fwd Hqq1. fwd Hl.
  match goal with
  | |- context [py_store (sp_l st) i ?v] =>
      fwd (py_store_ok (sp_l st) i v Hi0 ltac:(lia))
  end.
  match goal with
  | |- context [py_store (sp_r st) i ?v] =>
      fwd (py_store_ok (sp_r st) i v Hi0 ltac:(lia))
  end.
  match goal with
  | |- context [py_store (sp_q st) i ?v] =>
      fwd (py_store_ok (sp_q st) i v Hi0 ltac:(lia))
  end.
  eexists. eexists. reflexivity.
Qed.

Lemma sp_recompute_ok st w :
  sp_shape n st -> 0 < n ->
  exists st', sp_recompute epsilon st w = (w, Ok st').
Proof.
  intros (Lk & _ & _ & Lqq & _ & Ls & _) Hn. unfold sp_recompute.
  destruct (sp_iter_count st mod 10000 =? 0); [|unfold ret; eauto].
  assert (Hne : sp_r_sum st <> []).
  { intros E. rewrite E in Ls. simpl in Ls. lia. }
  destruct (np_argmax_range _ Hne) as (best & Hbest & Hrange).
  destruct (py_index_ok (sp_qq st) best ltac:(lia) ltac:(lia))
    as (qq_star & Hqq & _).
  destruct (py_index_ok (sp_k st) best ltac:(lia) ltac:(lia))
    as (k_star & Hk & _).
  rewrite (bind_of_ok _ _ _ _ _ (lift_opt_some ValueError _ _ _ Hbest)).
  cbn beta. fwd Hqq. fwd Hk. unfold ret. eauto.
Qed.

Lemma sp_iter_outcome st w key i heap' ll theta q_rest :
  sp_reachable n epsilon delta zeta k0 theta_multiplier beta st ->
  sp_heap st = (key, i) :: heap' ->
  0 <= i < n ->
  py_index (sp_q st) i = Some ((ll, theta) :: q_rest) ->
  ~ (epsilon == 0)%Q ->
  match snd (run i theta ll (env w)) with
  | Ok _ =>
      exists st',
        snd (sp_iter n epsilon zeta theta_multiplier beta st w) = Ok st'
  | Raise e =>
      snd (sp_iter n epsilon zeta theta_multiplier beta st w) = Raise e
  end.
Proof.
  intros Hreach Hheap Hi Hq He.
  pose proof (sp_reachable_shape _ Hreach) as Hshape.
  pose proof Hreach as Hinv. apply sp_reachable_inv in Hinv.
  destruct (sp_reachable_log_argument _ Hreach ltac:(lia))
    as (a & Harg & Ha).
  pose proof (sp_advance_outcome st w key i heap' ll theta q_rest a
                Hshape Hinv Harg Ha Hheap Hi Hq He) as Hadv.
  destruct (snd (run i theta ll (env w))) as [res|e].
  - destruct Hadv as (w1 & st1 & Hadv).
    pose proof Hadv as Hcnt. eapply sp_advance_counter in Hcnt; [|exact Hinv].
    destruct Hcnt as (_ & (k_i & Hk & Hge) & (r_sum_i & Hs) & _).
    destruct (sp_reinsert_ok i st1 w1 k_i r_sum_i Hs Hk Hge)
      as (st2 & Hre & _).
    pose proof (sp_advance_shape _ _ _ _ _ Hshape (proj1 Hi) Hadv) as Hs1.
    assert (Hs2 : sp_shape n st2).
    { pose proof Hre as Heff. apply sp_reinsert_effect in Heff.
      destruct Heff as (_ & _ & E1 & E2 & E3 & E4 & E5 & E6 & _).
      unfold sp_shape in *. rewrite E1, E2, E3, E4, E5, E6. exact Hs1. }
    destruct (sp_recompute_ok st2 w1 Hs2 ltac:(lia)) as [st3 Hrec].
    exists st3. unfold sp_iter.
    rewrite (bind_of_ok _ _ _ _ _ Hadv). cbn beta. cbn [fst snd].
    rewrite (bind_of_ok _ _ _ _ _ Hre). rewrite Hrec. reflexivity.
  - unfold sp_iter.
    destruct (sp_advance n epsilon zeta theta_multiplier beta st w)
      as [w1 o] eqn:E. simpl in Hadv. subst o.
    rewrite (bind_of_raise _ _ _ _ _ E). reflexivity.
Qed.
End ProcrastinationShape.

(** X17. What can make a pass of the main loop fail.  In a state the loop
    reaches, with at least one configuration, every configuration index
    valid for a rectangular measurement table, and [epsilon] non-zero: the
    heap is not empty and its head names a configuration in range; if that
    configuration's queue is empty the pass raises IndexError (and then its
    target length [qq[i]] is not positive); otherwise the pass completes
    when the timeout of the request at the head of the queue is within the
    ceiling, and raises ValueError when it is not.  The pass raises
    nothing else. *)
Theorem sp_pass_outcome `{Numerics}
    (n : Z) (epsilon delta zeta k0 theta_multiplier : Q) (beta : float64)
    (st : sp_state) (w : World) :
  sp_reachable n epsilon delta zeta k0 theta_multiplier beta st ->
  0 < n -> n <= get_num_configs (env w) ->
  rectangular (env w) ->
  ~ (epsilon == 0)%Q ->
  exists key i heap' q_i,
    sp_heap st = (key, i) :: heap' /\ 0 <= i < n /\
    py_index (sp_q st) i = Some q_i /\
    match q_i with
    | [] =>
        snd (sp_iter n epsilon zeta theta_multiplier beta st w)
        = Raise IndexError /\
        exists qq_i, py_index (sp_qq st) i = Some qq_i /\ qq_i <= 0
    | (ll, theta) :: _ =>
        ((theta <= _timeout (env w))%Q ->
         exists st',
           snd (sp_iter n epsilon zeta theta_multiplier beta st w) = Ok st')
        /\
        ((_timeout (env w) < theta)%Q ->
         snd (sp_iter n epsilon zeta theta_multiplier beta st w)
         = Raise ValueError)
    end.
Proof.
  intros Hreach Hn Hcfg Hrect He.
  pose proof Hreach as Hshape. apply sp_reachable_shape in Hshape.
  pose proof Hreach as Hsorted. apply sp_reachable_heap in Hsorted.
  destruct Hsorted as [_ Hperm].
  destruct (sp_heap st) as [|[key i] heap'] eqn:Hheap.
  { exfalso. simpl in Hperm. apply Permutation_nil in Hperm.
    assert (Hl : length (xrange n) = 0%nat) by (rewrite Hperm; reflexivity).
    rewrite xrange_length in Hl. lia. }
  assert (Hi : 0 <= i < n).
  { apply xrange_elem. rewrite <- Hperm. simpl. apply elem_of_cons. auto. }
  destruct Hshape as (Lk & Ll & Lq & Lqq & Lr & Ls & Hslots).
  destruct (py_index_ok (sp_q st) i ltac:(lia) ltac:(lia))
    as (q_i & Hq & Hq').
  exists key, i, heap', q_i. split; [reflexivity|]. split; [exact Hi|].
  split; [exact Hq|].
  destruct q_i as [|[ll theta] q_rest].
  - split.
    + unfold sp_iter, sp_advance.
      assert (Hpop : heappop (sp_heap st) = Some ((key, i), heap'))
        by (rewrite Hheap; reflexivity).
      rewrite (bind_of_raise _ _ w w IndexError); [reflexivity|].
      rewrite (bind_of_ok _ _ _ _ _ (lift_opt_some IndexError _ _ _ Hpop)).
      cbn beta iota.
      rewrite (bind_of_ok _ _ _ _ _ (lift_opt_some IndexError _ _ _ Hq)).
      reflexivity.
    + destruct (py_index_ok (sp_qq st) i ltac:(lia) ltac:(lia))
        as (qq_i & Hqq & Hqq').
      destruct (py_index_ok (sp_r st) i ltac:(lia) ltac:(lia))
        as (r_i & _ & Hr').
      destruct (py_index_ok (sp_l st) i ltac:(lia) ltac:(lia))
        as (l_i & _ & Hl').
      exists qq_i. split; [exact Hqq|].
      destruct (Hslots _ _ _ _ _ Hq' Hr' Hl' Hqq') as (_ & _ & Hlen).
      simpl in Hlen. lia.
  - pose proof (sp_iter_outcome n epsilon delta zeta k0 theta_multiplier
                  beta st w key i heap' ll theta q_rest Hreach Hheap Hi Hq He)
      as Hout.
    split.
    + intros Hle.
      destruct (rectangular_ground_truth (env w) i Hrect ltac:(lia) ll)
        as [truth Hg].
      destruct (run_success _ _ _ _ _ Hle Hg) as (env1 & Hrun & _).
      rewrite Hrun in Hout. exact Hout.
    + intros Hgt.
      assert (Hrun : run i theta ll (env w) = (env w, Raise ValueError)).
      { unfold run. apply Qltb_lt in Hgt. rewrite Hgt. reflexivity. }
      rewrite Hrun in Hout. exact Hout.
Qed.

Lemma sp_pass_outcome_witness :
  exists key i heap' q_i,
    sp_heap scenario_sp_setup = (key, i) :: heap' /\ 0 <= i < 3 /\
    py_index (sp_q scenario_sp_setup) i = Some q_i /\
    match q_i with
    | [] =>
        snd (@sp_iter flat_numerics 3 (9 # 10) (9 # 10) 2 (F64 1)
               scenario_sp_setup scenario_world)
        = Raise IndexError /\
        exists qq_i, py_index (sp_qq scenario_sp_setup) i = Some qq_i /\
                     qq_i <= 0
    | (ll, theta) :: _ =>
        ((theta <= _timeout (env scenario_world))%Q ->
         exists st',
           snd (@sp_iter flat_numerics 3 (9 # 10) (9 # 10) 2 (F64 1)
                  scenario_sp_setup scenario_world) = Ok st')
        /\
        ((_timeout (env scenario_world) < theta)%Q ->
         snd (@sp_iter flat_numerics 3 (9 # 10) (9 # 10) 2 (F64 1)
                scenario_sp_setup scenario_world)
         = Raise ValueError)
    end.
Proof.
  apply (@sp_pass_outcome flat_numerics 3 (9 # 10) (9 # 10) (9 # 10) 1 2 (F64 1)
           scenario_sp_setup scenario_world).
  - apply (@sp_reach_setup flat_numerics 3 (9 # 10) (9 # 10) (9 # 10) 1 2 (F64 1)
             scenario_world scenario_world).
    vm_compute. reflexivity.
  - lia.
  - unfold get_num_configs. simpl. lia.
  - split; [reflexivity|]. repeat constructor.
  - vm_compute. discriminate.
Defined.

(** ** The shape of the lists and the timeouts in the queues *)

Lemma sp_grow_geometric (k0 theta_multiplier : Q) (cnt : nat) :
  forall theta l_i r_i q_i,
    (exists m : nat, (theta == k0 * theta_multiplier ^ Z.of_nat m)%Q) ->
    Forall (geometric k0 theta_multiplier) q_i ->
    Forall (geometric k0 theta_multiplier)
           (snd (sp_grow cnt theta l_i r_i q_i)).
Proof.
  induction cnt as [|cnt IH]; intros theta l_i r_i q_i Hth Hq; simpl.
  - exact Hq.
  - apply IH; [exact Hth|]. constructor; [|exact Hq]. exact Hth.
Qed.

Section ProcrastinationTimeouts.
Context `{Numerics}.
Variables (n : Z) (epsilon delta zeta k0 theta_multiplier : Q).
Variable beta : float64.

Lemma sp_setup_timeouts configs : forall st w w' st',
  sp_timeouts_inv k0 theta_multiplier st ->
  sp_setup n epsilon zeta k0 beta configs st w = (w', Ok st') ->
  sp_timeouts_inv k0 theta_multiplier st'.
Proof.
  induction configs as [|i rest IH]; intros st w w' st' Hinv Hs;
    simpl in Hs.
  - apply ret_ok in Hs. destruct Hs as [-> _]. exact Hinv.
  - bind_step Hs. bind_step Hs. eapply IH; [|exact Hs]. clear Hs IH.
    unfold sp_timeouts_inv in *. simpl. apply Forall_app. split; [exact Hinv|].
    constructor; [|constructor].
    apply Forall_forall. intros [s t] Hin.
    apply list_elem_of_fmap in Hin. destruct Hin as (ll & [= -> ->] & _).
    exists 0%nat. simpl. ring.
Qed.

Lemma sp_advance_timeouts st w w1 i st1 :
  sp_timeouts_inv k0 theta_multiplier st -> 0 <= i ->
  sp_advance n epsilon zeta theta_multiplier beta st w = (w1, Ok (i, st1)) ->
  sp_timeouts_inv k0 theta_multiplier st1.
Proof.
  intros Hinv Hi Hadv.
  pose proof Hadv as Hfull. apply sp_advance_full in Hfull.
  destruct Hfull
    as (ll & theta & q_rest & r_i & old & charged & r_i1 & qq_i & l_i & q2
        & Hq & _ & _ & _ & _ & _ & _ & _ & Hq2 & _ & _ & Sq & _).
  destruct (py_store_nonneg _ _ _ _ Hi Sq) as [Eq _].
  apply (py_index_nonneg _ _ _ Hi) in Hq.
  unfold sp_timeouts_inv in *. rewrite Eq.
  pose proof (Forall_lookup_1 _ _ _ _ Hinv Hq) as Hqi.
  inversion Hqi as [|? ? [m Hm] Hrest]; subst. simpl in Hm.
  apply Forall_insert; [exact Hinv|].
  apply sp_grow_geometric; [exists m; exact Hm|].
  destruct Hq2 as [->| ->]; [exact Hrest|].
  apply Forall_app. split; [exact Hrest|].
  constructor; [|constructor]. exists (S m). simpl snd. rewrite Hm.
  rewrite Nat2Z.inj_succ. unfold Z.succ.
  rewrite Qpower_plus' by lia. simpl (theta_multiplier ^ 1)%Q. ring.
Qed.

Lemma sp_iter_timeouts st w w' st' :
  sp_timeouts_inv k0 theta_multiplier st -> sp_inv st ->
  sp_iter n epsilon zeta theta_multiplier beta st w = (w', Ok st') ->
  sp_timeouts_inv k0 theta_multiplier st'.
Proof.
  intros Hinv Hsp Hit. unfold sp_iter in Hit.
  bind_step Hit. bind_step Hit. destruct a as [i st1]. simpl in *.
  pose proof Hm as Hcnt. eapply sp_advance_counter in Hcnt; [|exact Hsp].
  destruct Hcnt as (Hi & _).
  pose proof (sp_advance_timeouts _ _ _ _ _ Hinv Hi Hm) as Hs1.
  apply sp_reinsert_effect in Hm0.
  destruct Hm0 as (_ & _ & _ & _ & E3 & _).
  apply sp_recompute_effect in Hit.
  destruct Hit as (_ & _ & _ & _ & F3 & _).
  unfold sp_timeouts_inv in *. rewrite F3, E3. exact Hs1.
Qed.

Lemma sp_reachable_timeouts st :
  sp_reachable n epsilon delta zeta k0 theta_multiplier beta st ->
  sp_timeouts_inv k0 theta_multiplier st.
Proof.
  induction 1 as [w w' st Hs|w w' st st' Hreach IH _ Hit].
  - eapply sp_setup_timeouts; [|exact Hs]. constructor.
  - eapply sp_iter_timeouts; [exact IH| |exact Hit].
    eapply sp_reachable_inv. exact Hreach.
Qed.
End ProcrastinationTimeouts.

(** X18. The per-configuration lists stay consistent.  In every state the
    main loop reaches, each of [k], [l], [q], [qq], [r] and [r_sum] has an
    entry for every configuration [0 <= i < n]; every request [(ll, theta)]
    waiting in [q[i]] names a slot that exists in [r[i]] (so [r[i][ll]]
    cannot raise); a configuration with waiting requests has
    [l[i] = len(r[i])]; and the queue holds at least [qq[i]] requests. *)
Theorem sp_lists_consistent `{Numerics}
    (n : Z) (epsilon delta zeta k0 theta_multiplier : Q) (beta : float64)
    (st : sp_state) (i : Z) :
  sp_reachable n epsilon delta zeta k0 theta_multiplier beta st ->
  0 <= i < n ->
  exists k_i l_i q_i qq_i r_i r_sum_i,
    py_index (sp_k st) i = Some k_i /\
    py_index (sp_l st) i = Some l_i /\
    py_index (sp_q st) i = Some q_i /\
    py_index (sp_qq st) i = Some qq_i /\
    py_index (sp_r st) i = Some r_i /\
    py_index (sp_r_sum st) i = Some r_sum_i /\
    (forall ll theta,
        (ll, theta) ∈ q_i ->
        exists charged, py_index r_i ll = Some charged) /\
    (q_i <> [] -> l_i = Z.of_nat (length r_i)) /\
    qq_i <= Z.of_nat (length q_i).
Proof.
  intros Hreach Hi.
  apply sp_reachable_shape in Hreach.
  destruct Hreach as (Lk & Ll & Lq & Lqq & Lr & Ls & Hslots).
  destruct (py_index_ok (sp_k st) i ltac:(lia) ltac:(lia)) as (k_i & Hk & _).
  destruct (py_index_ok (sp_l st) i ltac:(lia) ltac:(lia))
    as (l_i & Hl & Hl').
  destruct (py_index_ok (sp_q st) i ltac:(lia) ltac:(lia))
    as (q_i & Hq & Hq').
  destruct (py_index_ok (sp_qq st) i ltac:(lia) ltac:(lia))
    as (qq_i & Hqq & Hqq').
  destruct (py_index_ok (sp_r st) i ltac:(lia) ltac:(lia))
    as (r_i & Hr & Hr').
  destruct (py_index_ok (sp_r_sum st) i ltac:(lia) ltac:(lia))
    as (r_sum_i & Hs & _).
  exists k_i, l_i, q_i, qq_i, r_i, r_sum_i.
  repeat (split; [assumption|]).
  destruct (Hslots _ _ _ _ _ Hq' Hr' Hl' Hqq') as (Hall & Hlen & Hge).
  split; [|split; assumption].
  intros ll theta Hin.
  pose proof (proj1 (Forall_forall _ _) Hall _ Hin) as Hslot.
  unfold slot_ok in Hslot. simpl in Hslot.
  destruct (py_index_ok r_i ll ltac:(lia) ltac:(lia)) as (c & Hc & _).
  eauto.
Qed.

Lemma sp_lists_consistent_witness :
  exists k_i l_i q_i qq_i r_i r_sum_i,
    py_index (sp_k scenario_sp_setup) 2 = Some k_i /\
    py_index (sp_l scenario_sp_setup) 2 = Some l_i /\
    py_index (sp_q scenario_sp_setup) 2 = Some q_i /\
    py_index (sp_qq scenario_sp_setup) 2 = Some qq_i /\
    py_index (sp_r scenario_sp_setup) 2 = Some r_i /\
    py_index (sp_r_sum scenario_sp_setup) 2 = Some r_sum_i /\
    (forall ll theta,
        (ll, theta) ∈ q_i ->
        exists charged, py_index r_i ll = Some charged) /\
    (q_i <> [] -> l_i = Z.of_nat (length r_i)) /\
    qq_i <= Z.of_nat (length q_i).
Proof.
  apply (@sp_lists_consistent flat_numerics 3 (9 # 10) (9 # 10) (9 # 10)
           1 2 (F64 1) scenario_sp_setup 2).
  - apply (@sp_reach_setup flat_numerics 3 (9 # 10) (9 # 10) (9 # 10) 1 2 (F64 1)
             scenario_world scenario_world).
    vm_compute. reflexivity.
  - lia.
Defined.

(** X19. Every timeout the selector will ever use is the first timeout
    multiplied a whole number of times by [theta_multiplier]: in every
    state the main loop reaches, each request [(ll, theta)] waiting in any
    queue [q[i]] has [theta == k0 * theta_multiplier ^ m] for some
    natural [m]. *)
Theorem sp_timeouts_geometric `{Numerics}
    (n : Z) (epsilon delta zeta k0 theta_multiplier : Q) (beta : float64)
    (st : sp_state) (i : Z) (q_i : list (Z * Q)) (ll : Z) (theta : Q) :
  sp_reachable n epsilon delta zeta k0 theta_multiplier beta st ->
  py_index (sp_q st) i = Some q_i ->
  (ll, theta) ∈ q_i ->
  exists m : nat, (theta == k0 * theta_multiplier ^ Z.of_nat m)%Q.
Proof.
  intros Hreach Hq Hin.
  apply sp_reachable_timeouts in Hreach.
  apply py_index_elem in Hq.
  pose proof (proj1 (Forall_forall _ _) Hreach _ Hq) as Hqi.
  exact (proj1 (Forall_forall _ _) Hqi _ Hin).
Qed.

Lemma sp_timeouts_geometric_witness :
  exists m : nat, (2 == 1 * 2 ^ Z.of_nat m)%Q.
Proof.
  apply (@sp_timeouts_geometric flat_numerics 3 (9 # 10) (9 # 10) (9 # 10)
           1 2 (F64 1)
           (sp_state_of
              (snd (@sp_iter flat_numerics 3 (9 # 10) (9 # 10) 2 (F64 1)
                      scenario_sp_setup scenario_world)))
           0 [(0, 2%Q)] 0 2%Q).
  - apply (@sp_reach_iter flat_numerics 3 (9 # 10) (9 # 10) (9 # 10) 1 2 (F64 1)
             scenario_world
             (fst (@sp_iter flat_numerics 3 (9 # 10) (9 # 10) 2 (F64 1)
                     scenario_sp_setup scenario_world))
             scenario_sp_setup).
    + apply (@sp_reach_setup flat_numerics 3 (9 # 10) (9 # 10) (9 # 10)
               1 2 (F64 1) scenario_world scenario_world).
      vm_compute. reflexivity.
    + vm_compute. reflexivity.
    + vm_compute. reflexivity.
  - vm_compute. reflexivity.
  - apply elem_of_cons. left. reflexivity.
Defined.
